(** * The Empathy Engine: emotion scoring, peak detection and chat storage

    A shallow embedding of [backend/model_adapter.py], of the timeline helpers
    and the endpoints of [backend/main.py] and of [backend/storage.py], with
    the properties of the emotion-scoring pipeline, of the aggregation engine
    and of the chat store.

    Conventions of the embedding:
    - a Python [str] holding message text is a list of Unicode code points;
      labels, identifiers and dictionary keys are [string]s;
    - a Python [float] is an exact rational ([Qc]); the three special values
      only arise from [float(...)] and are removed by the clamp that follows;
    - a Python [dict] is an association list in insertion order;
    - [print] and the JSON persistence have no effect on the values computed
      and are left out. *)

From Stdlib Require Import QArith Qcanon Qround.
From Stdlib Require DecimalString DecimalZ.
From stdpp Require Import base numbers strings list gmap sorting.

Set Default Proof Using "Type".
Local Open Scope Qc_scope.

(** ** The Python runtime *)

Module Py.

(** [str]: a sequence of code points *)
Definition str := list N.

(** An ASCII literal as a [str] *)
Definition lit (s : string) : str := Ascii.N_of_ascii <$> String.list_ascii_of_string s.

(** A decimal literal as a float *)
Definition dec (q : Q) : Qc := Q2Qc q.

(** The Unicode tables of the interpreter: [str.lower], and the two character
    predicates shared by [str.strip], [str.split] and the [re] module. *)
Class Unicode := {
  lower : str → str;
  isspace : N → bool;
  isalnum : N → bool
}.

(** The tables restricted to the ASCII range, where they are those of CPython:
    code points above 127 are taken as uncased, non-space and non-alphanumeric
    (which is what they are for every code point of the emoji tables). *)
Definition ascii_lower_cp (c : N) : N :=
  if ((65 <=? c) && (c <=? 90))%N then (c + 32)%N else c.

Definition ascii_isspace (c : N) : bool :=
  (((9 <=? c) && (c <=? 13)) || ((28 <=? c) && (c <=? 32)))%N.

Definition ascii_isalnum (c : N) : bool :=
  (((48 <=? c) && (c <=? 57)) || ((65 <=? c) && (c <=? 90))
   || ((97 <=? c) && (c <=? 122)))%N.

Definition ascii_unicode : Unicode :=
  {| lower := map ascii_lower_cp; isspace := ascii_isspace; isalnum := ascii_isalnum |}.

Section Strings.
Context {U : Unicode}.

Fixpoint lstrip (s : str) : str :=
  match s with
  | c :: s' => if isspace c then lstrip s' else s
  | [] => []
  end.

(** [s.strip()] *)
Definition strip (s : str) : str := rev (lstrip (rev (lstrip s))).

(** [s.split()]: the maximal runs of non-space characters *)
Fixpoint split_ws_aux (cur : str) (s : str) : list str :=
  match s with
  | [] => match cur with [] => [] | _ => [rev cur] end
  | c :: s' =>
      if isspace c
      then match cur with [] => split_ws_aux [] s' | _ => rev cur :: split_ws_aux [] s' end
      else split_ws_aux (c :: cur) s'
  end.

Definition split_ws (s : str) : list str := split_ws_aux [] s.
End Strings.

(** [s.split(sep)] for a one-character separator: never empty *)
Fixpoint split_aux (sep : N) (cur : str) (s : str) : list str :=
  match s with
  | [] => [rev cur]
  | c :: s' => if (c =? sep)%N then rev cur :: split_aux sep [] s'
               else split_aux sep (c :: cur) s'
  end.

Definition split (sep : N) (s : str) : list str := split_aux sep [] s.

(** [c in s] for a character [c] *)
Definition has_char (c : N) (s : str) : bool := existsb (N.eqb c) s.

Fixpoint starts_with (p s : str) : bool :=
  match p, s with
  | [], _ => true
  | a :: p', b :: s' => (a =? b)%N && starts_with p' s'
  | _ :: _, [] => false
  end.

(** [sub in s] *)
Fixpoint contains (sub s : str) : bool :=
  starts_with sub s || match s with [] => false | _ :: s' => contains sub s' end.

(** [sep.join(l)] *)
Fixpoint join (sep : str) (l : list str) : str :=
  match l with
  | [] => []
  | [x] => x
  | x :: l' => x ++ sep ++ join sep l'
  end.

(** What [float(s)] can return *)
Inductive float_val := Fin (q : Qc) | PosInf | NegInf | NaN.

(** [a < b] on floats: every comparison with NaN is false *)
Definition float_lt (a b : float_val) : bool :=
  match a, b with
  | NaN, _ | _, NaN => false
  | Fin x, Fin y => bool_decide (x < y)
  | NegInf, NegInf => false
  | NegInf, _ => true
  | _, PosInf => match a with PosInf => false | _ => true end
  | _, _ => false
  end.

(** The two-argument [min] and [max]: the first argument is kept unless the
    second is strictly smaller (greater). *)
Definition min2 (a b : float_val) : float_val := if float_lt b a then b else a.
Definition max2 (a b : float_val) : float_val := if float_lt a b then b else a.

(** [dict]: an association list in insertion order, keys unique *)
Definition dict (V : Type) := list (string * V).

Section Dict.
Context {V : Type}.

Fixpoint get (k : string) (d : dict V) : option V :=
  match d with
  | [] => None
  | (k', v) :: d' => if decide (k = k') then Some v else get k d'
  end.

(** [d[k] = v]: in place for a known key, appended for a new one *)
Fixpoint set (k : string) (v : V) (d : dict V) : dict V :=
  match d with
  | [] => [(k, v)]
  | (k', v') :: d' =>
      if decide (k = k') then (k, v) :: d' else (k', v') :: set k v d'
  end.

Definition keys (d : dict V) : list string := d.*1.
Definition values (d : dict V) : list V := d.*2.

(** [{k: f(k) for k in ks}] *)
Definition comprehension (ks : list string) (f : string → V) : dict V :=
  foldl (λ d k, set k (f k) d) [] ks.

(** [{k: f(v) for k, v in d.items()}] *)
Definition map_values {W} (f : V → W) (d : dict V) : dict W :=
  (λ kv, (kv.1, f kv.2)) <$> d.

(** [{k: v for k, v in d.items() if p(k)}] *)
Definition filter_keys (p : string → bool) (d : dict V) : dict V :=
  List.filter (λ kv, p kv.1) d.
End Dict.

(** [max(l, key=key)]: the first element whose key is maximal; [None] stands
    for the [ValueError] on an empty sequence. *)
Section Max.
Context {A B : Type} (lt : B → B → bool) (key : A → B).

Fixpoint max_from (best : A) (l : list A) : A :=
  match l with
  | [] => best
  | x :: l' => max_from (if lt (key best) (key x) then x else best) l'
  end.

Definition max_by (l : list A) : option A :=
  match l with
  | [] => None
  | x :: l' => Some (max_from x l')
  end.
End Max.

Definition Qc_ltb (a b : Qc) : bool := bool_decide (a < b).
Definition Qc_leb (a b : Qc) : bool := bool_decide (a <= b).

(** [sum(l)] *)
Definition sum (l : list Qc) : Qc := foldl Qcplus 0 l.

(** [max(d, key=d.get)] *)
Definition argmax (d : dict Qc) : option string := fst <$> max_by Qc_ltb snd d.

(** [float(n)] for a length *)
Definition of_nat (n : nat) : Qc := Q2Qc (inject_Z (Z.of_nat n)).

(** [max(0.0, min(1.0, x))]: a finite value for every float, as [min] keeps
    1.0 against NaN and [max] keeps what [min] returned only above 0.0 *)
Definition clamp01 (x : float_val) : Qc :=
  match max2 (Fin 0) (min2 (Fin 1) x) with
  | Fin q => q
  | _ => 0
  end.

(** The builtin [float(s)]; [None] stands for its [ValueError] *)
Class Builtins := { float : str → option float_val }.

(** [float] on plain decimal literals ([12], [0.25], [.5], [-3.]), as an
    executable instance of the builtin *)
Fixpoint digits (acc : N) (s : str) : option N :=
  match s with
  | [] => Some acc
  | c :: s' => if ((48 <=? c) && (c <=? 57))%N then digits (10 * acc + (c - 48))%N s'
               else None
  end.

Definition unsigned_decimal (s : str) : option Qc :=
  match split 46 s with
  | [i] => match i with [] => None | _ => n ← digits 0 i; Some (Q2Qc (inject_Z (Z.of_N n))) end
  | [i; f] =>
      match i ++ f with
      | [] => None
      | _ => n ← digits 0 (i ++ f);
             Some (Q2Qc (inject_Z (Z.of_N n)) / Q2Qc (inject_Z (10 ^ Z.of_nat (length f))))
      end
  | _ => None
  end.

Definition decimal_float (s : str) : option float_val :=
  match s with
  | 45 :: s' => q ← unsigned_decimal s'; Some (Fin (- q))
  | 43 :: s' => q ← unsigned_decimal s'; Some (Fin q)
  | _ => q ← unsigned_decimal s; Some (Fin q)
  end%N.

Definition decimal_builtins : Builtins := {| float := decimal_float |}.

(** [round(x, 2)]: to the nearest hundredth, ties to the even one *)
Definition round2 (x : Qc) : Qc :=
  let n := x * dec 100 in
  let f := Qfloor n in
  let r := n - Q2Qc (inject_Z f) in
  let z := if Qc_ltb r (dec 0.5) then f
           else if Qc_ltb (dec 0.5) r then (f + 1)%Z
           else if Z.even f then f else (f + 1)%Z in
  Q2Qc (inject_Z z) / dec 100.

(** [sorted(items, key=lambda x: x[1], reverse=True)]: a stable sort *)
Fixpoint insert_desc (x : string * Qc) (l : list (string * Qc)) : list (string * Qc) :=
  match l with
  | [] => [x]
  | y :: l' => if Qc_leb y.2 x.2 then x :: l else y :: insert_desc x l'
  end.

Definition sorted_desc (l : list (string * Qc)) : list (string * Qc) :=
  foldr insert_desc [] l.

(** [float(z)] for an integer *)
Definition of_Z (z : Z) : Qc := Q2Qc (inject_Z z).

(** [l[start:stop]] for integer bounds: a negative bound counts from the
    end, and both are clipped to the list *)
Definition norm_index (len i : Z) : Z :=
  if (i <? 0)%Z then Z.max 0 (i + len) else Z.min i len.

Definition slice {A} (l : list A) (start stop : Z) : list A :=
  let a := norm_index (Z.of_nat (length l)) start in
  let b := norm_index (Z.of_nat (length l)) stop in
  take (Z.to_nat (b - a)) (drop (Z.to_nat a) l).

(** [round(x, 3)]: to the nearest thousandth, ties to the even one *)
Definition round3 (x : Qc) : Qc :=
  let n := x * dec 1000 in
  let f := Qfloor n in
  let r := n - Q2Qc (inject_Z f) in
  let z := if Qc_ltb r (dec 0.5) then f
           else if Qc_ltb (dec 0.5) r then (f + 1)%Z
           else if Z.even f then f else (f + 1)%Z in
  Q2Qc (inject_Z z) / dec 1000.

(** [int(s)] on the text of an integer; [None] stands for the [ValueError] *)
Class IntBuiltin := { int : string → option Z }.

(** [str(n)], the way an f-string prints an integer *)
Definition str_of_int (n : Z) : string :=
  DecimalString.NilZero.string_of_int (Z.to_int n).

(** The decimal reading of an optional sign and digits: a part of what
    [int] accepts, which covers all that [str_of_int] prints *)
Definition decimal_int : IntBuiltin :=
  {| int := λ s, Z.of_int <$> DecimalString.NilZero.int_of_string s |}.

(** [s.split(sep)] for a separator of one character *)
Fixpoint split_string (sep : Ascii.ascii) (s : string) : list string :=
  match s with
  | EmptyString => [EmptyString]
  | String c s' =>
      if Ascii.eqb c sep then EmptyString :: split_string sep s'
      else match split_string sep s' with
           | piece :: rest => String c piece :: rest
           | [] => [String c EmptyString]
           end
  end.

(** [sorted(ids, key=..., reverse=True)] on identifiers paired with their
    keys: a stable sort, strings being compared character by character *)
Fixpoint insert_by_key (x : string * string) (l : list (string * string))
  : list (string * string) :=
  match l with
  | [] => [x]
  | y :: l' => if String.leb y.2 x.2 then x :: l else y :: insert_by_key x l'
  end.

Definition sorted_by_key (l : list (string * string)) : list (string * string) :=
  foldr insert_by_key [] l.

End Py.

(** ** The fragment of [re] used by the classifier *)

Module Re.

(** Patterns: literals, character sets, [\b], [$], sequence, alternation and
    the greedy star. [a+] is [a a*], [a?] is [a|], [a{3,}] is [a a a a*]. *)
Inductive regex :=
| Eps
| Chr (c : N)
| Cls (p : N → bool)
| Boundary
| Dollar
| Cat (r1 r2 : regex)
| Alt (r1 r2 : regex)
| Star (r : regex).

Definition Plus (r : regex) : regex := Cat r (Star r).
Definition Opt (r : regex) : regex := Alt r Eps.

(** [re.escape(s)]: the characters of [s], taken literally *)
Definition escape (s : Py.str) : regex := foldr (λ c r, Cat (Chr c) r) Eps s.

(** [(a|b|...)] *)
Definition alts (l : list regex) : regex :=
  match l with
  | [] => Eps
  | r :: l' => foldl Alt r l'
  end.

(** A position in the subject: the character before the cursor, if any, and
    the characters after it. *)
Definition pos : Type := option N * Py.str.

(** All the positions of a subject, from left to right *)
Fixpoint positions (prev : option N) (s : Py.str) : list pos :=
  (prev, s) :: match s with
               | [] => []
               | c :: s' => positions (Some c) s'
               end.

(** Iteration of a matcher [f]: zero or more rounds, each consuming input *)
Fixpoint iterate (f : pos → list pos) (fuel : nat) (p : pos) : list pos :=
  p :: match fuel with
       | O => []
       | S n => flat_map (iterate f n)
                  (List.filter (λ q, length q.2 <? length p.2)%nat (f p))
       end.

Section Matching.
Context {U : Py.Unicode}.

(** [\w]: alphanumeric or underscore *)
Definition is_word (c : N) : bool := Py.isalnum c || (c =? 95)%N.

(** [\s] *)
Definition space : regex := Cls Py.isspace.

(** [.]: anything but a newline *)
Definition dot : regex := Cls (λ c, negb (c =? 10)%N).

Definition word_before (p : pos) : bool := from_option is_word false p.1.
Definition word_after (p : pos) : bool := from_option is_word false (head p.2).

(** The positions reached by matching [r] from [p] *)
Fixpoint run (r : regex) (p : pos) : list pos :=
  match r with
  | Eps => [p]
  | Chr c =>
      match p.2 with
      | c' :: s => if (c =? c')%N then [(Some c', s)] else []
      | [] => []
      end
  | Cls f =>
      match p.2 with
      | c' :: s => if f c' then [(Some c', s)] else []
      | [] => []
      end
  | Boundary => if xorb (word_before p) (word_after p) then [p] else []
  | Dollar =>
      match p.2 with
      | [] => [p]
      | [c] => if (c =? 10)%N then [p] else []
      | _ => []
      end
  | Cat r1 r2 => flat_map (run r2) (run r1 p)
  | Alt r1 r2 => run r1 p ++ run r2 p
  | Star r' => iterate (run r') (length p.2) p
  end.

Definition matches_at (r : regex) (p : pos) : bool :=
  match run r p with [] => false | _ => true end.

(** [re.search(r, s)] as a truth value *)
Definition search (r : regex) (s : Py.str) : bool :=
  existsb (matches_at r) (positions None s).
End Matching.

(** A sequence of patterns, and a literal word *)
Definition seq (l : list regex) : regex := foldr Cat Eps l.
Definition word (s : string) : regex := escape (Py.lit s).

End Re.

(** ** backend/model_adapter.py *)

Module ModelAdapter.
Import Py.

Definition EMOTIONS : list string :=
  ["joy"; "sadness"; "anger"; "fear"; "surprise"; "stress"; "tension";
   "disgust"; "anticipation"; "neutral"].

Definition EMOTION_KEYWORDS : dict (list string) :=
  [("joy", ["happy"; "excited"; "wonderful"; "amazing"; "love"; "fantastic";
            "excellent"; "thrilled"; "delighted"; "glad"; "joyful"]);
   ("sadness", ["sad"; "depressed"; "unhappy"; "miserable"; "heartbroken";
                "devastated"; "lonely"; "hurt"; "crying"; "low"; "down"; "blue"]);
   ("anger", ["angry"; "mad"; "furious"; "irritated"; "annoyed"; "pissed";
              "hate"; "ridiculous"; "outrageous"; "dislike"; "frustrat"]);
   ("fear", ["scared"; "afraid"; "terrified"; "anxious"; "worried"; "nervous";
             "frightened"; "panic"]);
   ("surprise", ["surprised"; "shocked"; "amazed"; "unexpected"; "wow"; "omg";
                 "incredible"]);
   ("disgust", ["disgusted"; "gross"; "sick"; "revolting"; "nasty"; "eww";
                "yuck"; "idiot"; "stupid"; "dumb"; "moron"]);
   ("stress", ["stressed"; "overwhelmed"; "pressure"; "tense"; "exhausted";
               "burned out"]);
   ("tension", ["tension"; "awkward"; "uncomfortable"; "uneasy"]);
   ("anticipation", ["looking forward"; "can't wait"; "eager"; "anticipating";
                     "hopeful"; "expecting"])].

(** The emoji tables, each emoji being one code point *)
Definition EMOTION_EMOJIS : dict (list str) :=
  [("joy", [[0x1f60a]; [0x1f603]; [0x1f604]; [0x1f601]; [0x1f606]; [0x1f917];
            [0x1f970]; [0x1f60d]; [0x1f389]; [0x2728]]);
   ("sadness", [[0x1f622]; [0x1f62d]; [0x1f614]; [0x1f61e]; [0x1f494]; [0x1f63f]]);
   ("anger", [[0x1f621]; [0x1f620]; [0x1f92c]; [0x1f624]; [0x1f4a2]]);
   ("fear", [[0x1f631]; [0x1f628]; [0x1f630]; [0x1f627]; [0x1f626]]);
   ("surprise", [[0x1f632]; [0x1f62e]; [0x1f62f]; [0x1f92f]]);
   ("disgust", [[0x1f922]; [0x1f92e]; [0x1f616]; [0x1f623]]);
   ("stress", [[0x1f62b]; [0x1f629]; [0x1f613]; [0x1f630]]);
   ("anticipation", [[0x1f929]; [0x1f60d]; [0x1f973]])]%N.

Definition upper_AZ (c : N) : bool := ((65 <=? c) && (c <=? 90))%N.

(** [!!+], [\?\?+] and [[A-Z]{3,}] *)
Definition EMPHASIS_PATTERNS : list Re.regex :=
  [Re.Cat (Re.Chr 33) (Re.Plus (Re.Chr 33));
   Re.Cat (Re.Chr 63) (Re.Plus (Re.Chr 63));
   Re.Cat (Re.Cls upper_AZ) (Re.Cat (Re.Cls upper_AZ)
     (Re.Cat (Re.Cls upper_AZ) (Re.Star (Re.Cls upper_AZ))))].

Definition emotion_priority : list string :=
  ["disgust"; "anger"; "sadness"; "fear"; "surprise"; "joy"; "stress";
   "tension"; "anticipation"].

Section Detector.
Context {U : Unicode}.

(** [re.search(r'\b' + re.escape(keyword), text_lower)] *)
Definition keyword_match (keyword : string) (text_lower : str) : bool :=
  Re.search (Re.Cat Re.Boundary (Re.escape (lit keyword))) text_lower.

Definition _has_emotion_signal (text : str) : bool * string :=
  let text_lower := lower text in
  match List.find (λ emotion,
          existsb (λ keyword, keyword_match keyword text_lower)
                  (default [] (get emotion EMOTION_KEYWORDS)))
        emotion_priority with
  | Some emotion => (true, emotion)
  | None =>
      match List.find (λ item : string * list str,
              existsb (λ emoji, contains emoji text) item.2)
            EMOTION_EMOJIS with
      | Some item => (true, item.1)
      | None =>
          if existsb (λ pattern, Re.search pattern text) EMPHASIS_PATTERNS
          then (true, "emphasis_detected"%string)
          else (false, "no_signal"%string)
      end
  end.
End Detector.

(** The generative model behind [model.generate_content(prompt)]. The fixed
    wording of the prompt is a constant of the source; the model is applied
    to the two parts that vary, and [None] stands for any exception raised
    by the call or by reading [response.text]. *)
Record prompt := { context_str : str; message : str }.

Class GenerativeModel := { generate_content : prompt → option str }.

(** An entry of [chat_history], read with [msg.get('role', 'unknown')] and
    [msg.get('content', '')] *)
Record history_msg := { role : option str; content : option str }.

Section Classifier.
Context {U : Unicode} {B : Builtins} {G : GenerativeModel}.

(** [emotion in EMOTIONS], with the label found *)
Definition label_of (emotion : str) : option string :=
  List.find (λ l, bool_decide (lit l = emotion)) EMOTIONS.

(** One round of the loop over [pairs]; [None] stands for the exception
    (a failed unpacking or a failed [float]) that ends the [try] block *)
Definition parse_pair (emotion_probs : dict Qc) (pair : str) : option (dict Qc) :=
  if has_char 58 pair then
    match split 58 pair with
    | [emotion; prob] =>
        let emotion := strip emotion in
        prob ← float (strip prob);
        match label_of emotion with
        | Some l => Some (set l (clamp01 prob) emotion_probs)
        | None => Some emotion_probs
        end
    | _ => None
    end
  else Some emotion_probs.

Fixpoint parse_pairs (emotion_probs : dict Qc) (pairs : list str) : option (dict Qc) :=
  match pairs with
  | [] => Some emotion_probs
  | item :: pairs' => d ← parse_pair emotion_probs item; parse_pairs d pairs'
  end.

Definition _parse_emotion_response (response_text : str) : dict Qc :=
  let emotion_probs := comprehension EMOTIONS (λ _, 0) in
  let pairs := split 44 (strip (lower response_text)) in
  match parse_pairs emotion_probs pairs with
  | Some emotion_probs =>
      let total := sum (values emotion_probs) in
      if Qc_ltb 0 total
      then map_values (λ v, v / total) emotion_probs
      else comprehension EMOTIONS (λ _, 1 / of_nat (length EMOTIONS))
  | None => comprehension EMOTIONS (λ _, 1 / of_nat (length EMOTIONS))
  end.

(** STEP 2 of [classify_emotion]: the distribution of a keyword match *)
Definition keyword_distribution (signal_type : string) : dict Qc :=
  let emotion_probs := comprehension EMOTIONS (λ _, dec 0.02) in
  let emotion_probs := set signal_type (dec 0.80) emotion_probs in
  let emotion_probs := set "neutral" (dec 0.01) emotion_probs in
  let emotion_probs :=
    if decide (signal_type = "disgust") then set "anger" (dec 0.12) emotion_probs
    else if decide (signal_type = "anger") then set "disgust" (dec 0.08) emotion_probs
    else if decide (signal_type = "sadness") then set "fear" (dec 0.05) emotion_probs
    else emotion_probs in
  let total := sum (values emotion_probs) in
  map_values (λ v, v / total) emotion_probs.

(** STEP 3: the sarcasm patterns
    [yeah\s+(right|sure|great|okay).*not],
    [oh\s+(great|wonderful|fantastic).*\.\.\.],
    [sure\s*[,.]?\s*whatever] and [fine\s*[.!]+\s*$] *)
Definition sarcasm_patterns : list Re.regex :=
  [Re.seq [Re.word "yeah"; Re.Plus Re.space;
           Re.alts [Re.word "right"; Re.word "sure"; Re.word "great"; Re.word "okay"];
           Re.Star Re.dot; Re.word "not"];
   Re.seq [Re.word "oh"; Re.Plus Re.space;
           Re.alts [Re.word "great"; Re.word "wonderful"; Re.word "fantastic"];
           Re.Star Re.dot; Re.word "..."];
   Re.seq [Re.word "sure"; Re.Star Re.space;
           Re.Opt (Re.Cls (λ c, (c =? 44) || (c =? 46))%N);
           Re.Star Re.space; Re.word "whatever"];
   Re.seq [Re.word "fine"; Re.Star Re.space;
           Re.Plus (Re.Cls (λ c, (c =? 46) || (c =? 33))%N);
           Re.Star Re.space; Re.Dollar]].

Definition sarcasm_distribution : dict Qc :=
  let emotion_probs := comprehension EMOTIONS (λ _, dec 0.05) in
  let emotion_probs := set "anger" (dec 0.5) emotion_probs in
  let emotion_probs := set "disgust" (dec 0.2) emotion_probs in
  set "neutral" (dec 0.05) emotion_probs.

(** STEP 4: the context built from the last five messages of the history *)
Definition build_context (chat_history : list history_msg) : str :=
  match chat_history with
  | [] => []
  | _ =>
      let recent := drop (length chat_history - 5) chat_history in
      foldl (λ acc msg,
               acc ++ default (lit "unknown") (role msg) ++ lit ": "
                   ++ default [] (content msg) ++ [10%N])
            ([10; 10]%N ++ lit "Recent conversation context:" ++ [10%N]) recent
  end.

(** STEP 4: the anti-neutral enforcement on the parsed response; [None]
    stands for a [KeyError] or for the [ValueError] of [max] *)
Definition anti_neutral (emotion_probs : dict Qc) : option (dict Qc) :=
  let max_non_neutral :=
    default 0 (max_by Qc_ltb id
                 (values (filter_keys (λ k, bool_decide (k ≠ "neutral")) emotion_probs))) in
  neutral ← get "neutral" emotion_probs;
  if Qc_ltb (dec 0.5) neutral && Qc_leb (dec 0.30) max_non_neutral then
    let non_neutral := filter_keys (λ k, bool_decide (k ≠ "neutral")) emotion_probs in
    max_emotion ← argmax non_neutral;
    let emotion_probs := set max_emotion (dec 0.6) emotion_probs in
    let emotion_probs := set "neutral" (dec 0.2) emotion_probs in
    let remaining := dec 0.2 in
    Some (foldl (λ d emotion,
                   if bool_decide (emotion ∉ [max_emotion; "neutral"])
                   then set emotion (remaining / of_nat (length EMOTIONS - 2)) d
                   else d)
                emotion_probs (keys emotion_probs))
  else Some emotion_probs.

(** STEP 5: the fallback when the model is not available *)
Definition fallback (text : str) : dict Qc :=
  if (length (strip text) <? 10)%nat && negb (has_char 63 text) && negb (has_char 33 text)
  then comprehension EMOTIONS (λ _, dec 0.1)
  else [("joy", dec 0.10); ("sadness", dec 0.10); ("anger", dec 0.10);
        ("fear", dec 0.10); ("surprise", dec 0.10); ("stress", dec 0.08);
        ("tension", dec 0.08); ("disgust", dec 0.08);
        ("anticipation", dec 0.10); ("neutral", dec 0.16)].

(** [chat_history] is a list, [None] being the empty one *)
Definition classify_emotion (text : str) (chat_history : list history_msg) : dict Qc :=
  let '(has_signal, signal_type) := _has_emotion_signal text in
  if has_signal && bool_decide (signal_type ∈ EMOTIONS)
  then keyword_distribution signal_type
  else
    let text_lower := lower text in
    if existsb (λ pattern, Re.search pattern text_lower) sarcasm_patterns
    then sarcasm_distribution
    else
      let attempt :=
        response ← generate_content
                     {| context_str := build_context chat_history; message := text |};
        anti_neutral (_parse_emotion_response (strip response)) in
      match attempt with
      | Some emotion_probs => emotion_probs
      | None => fallback text
      end.
End Classifier.

(** A model that always fails, and one that always gives the same answer *)
Definition unavailable_model : GenerativeModel := {| generate_content := λ _, None |}.
Definition constant_model (response : str) : GenerativeModel :=
  {| generate_content := λ _, Some response |}.

(** ** [generate_reply] *)

(** The third argument of [generate_reply] as its callers pass it: nothing,
    a list of messages, or a [str] *)
Inductive history_arg :=
| NoHistory
| HistoryList (chat_history : list history_msg)
| HistoryStr (chat_history : str).

(** The parts of the prompt of [generate_reply] that vary, and the model
    applied to them; [None] stands for any exception raised by the call or
    by reading [response.text]. *)
Record reply_prompt := { rp_emotion : string; rp_context : str; rp_text : str }.

Class ReplyModel := { generate_reply_content : reply_prompt → option str }.

(** The context built from the last ten messages of the history *)
Definition reply_context (chat_history : list history_msg) : str :=
  let recent := drop (length chat_history - 10) chat_history in
  foldl (λ acc msg,
           acc ++ default (lit "unknown") (role msg) ++ lit ": "
               ++ default [] (content msg) ++ [10%N])
        (lit "Conversation history:" ++ [10%N]) recent.

Definition fallbacks : dict str :=
  [("joy", lit "I'm so glad you're feeling happy! It's wonderful to share in your positive energy.");
   ("sadness", lit "I hear you, and I'm here for you. It's okay to feel this way, and your feelings are valid.");
   ("anger", lit "I understand you're frustrated. Let's work through this together. What would help most right now?");
   ("fear", lit "I can sense your worry. Remember, you're not alone in this. Let's take it one step at a time.");
   ("surprise", lit "That's quite unexpected! How are you feeling about it?");
   ("stress", lit "It sounds like you're under a lot of pressure. Remember to take care of yourself.");
   ("tension", lit "I sense some tension. Would you like to talk about what's on your mind?");
   ("disgust", lit "I understand that doesn't sit well with you. Your feelings are completely valid.");
   ("anticipation", lit "It sounds like you're looking forward to something! Tell me more.");
   ("neutral", lit "I'm here and listening. What's on your mind?")].

Section Reply.
Context {U : Unicode} {R : ReplyModel}.

(** [None] stands for the [AttributeError] of [msg.get] on an element of
    [chat_history] that is not a dictionary: iterating over a non-empty
    [str] yields strings of one character. The loop over the history is
    outside the [try] block. *)
Definition generate_reply (text : str) (emotion : string) (chat_history : history_arg)
  : option str :=
  context_str ←
    match chat_history with
    | NoHistory | HistoryList [] | HistoryStr [] => Some []
    | HistoryList l => Some (reply_context l)
    | HistoryStr (_ :: _) => None
    end;
  match generate_reply_content
          {| rp_emotion := emotion; rp_context := context_str; rp_text := text |} with
  | Some response => Some (strip response)
  | None =>
      Some (default (lit "I'm here to support you. Tell me more about how you're feeling.")
                    (get emotion fallbacks))
  end.
End Reply.

End ModelAdapter.

(** ** backend/main.py: the dominant label and the peaks of a timeline *)

Module Main.
Import Py.

(** [max(probs.items(), key=lambda x: x[1])[0]]; [None] stands for the
    [ValueError] on an empty dictionary *)
Definition get_dominant_emotion (probs : dict Qc) : option string :=
  fst <$> max_by Qc_ltb snd probs.

(** [range(a, b)] on natural numbers *)
Definition range (a b : nat) : list nat := seq a (b - a).

(** The body of the loop of [detect_peaks] at index [i]; [None] stands for an
    [IndexError]. The conjunction is evaluated from left to right and stops
    at the first false operand. *)
Definition peak_step (values : list Qc) (threshold : Qc) (peaks : list nat) (i : nat)
  : option (list nat) :=
  vi ← values !! i;
  if Qc_ltb threshold vi then
    vp ← values !! (i - 1)%nat;
    if Qc_ltb vp vi then
      vn ← values !! (i + 1)%nat;
      if Qc_ltb vn vi then Some (peaks ++ [i]) else Some peaks
    else Some peaks
  else Some peaks.

Fixpoint peak_loop (values : list Qc) (threshold : Qc) (peaks : list nat) (indices : list nat)
  : option (list nat) :=
  match indices with
  | [] => Some peaks
  | i :: rest => p ← peak_step values threshold peaks i; peak_loop values threshold p rest
  end.

Definition detect_peaks (values : list Qc) (threshold : Qc) : option (list nat) :=
  peaks ← peak_loop values threshold [] (range 1 (length values - 1));
  match last values with
  | Some v => if Qc_ltb threshold v then Some (peaks ++ [(length values - 1)%nat])
              else Some peaks
  | None => Some peaks
  end.

(** [math.log2], the one function of the float library that the module
    uses; it is applied to positive arguments only. *)
Class MathLib := { log2 : Qc → Qc }.

(** [None] stands for the [ValueError] of [math.log2(0)] on an empty
    dictionary. *)
Definition calculate_entropy {M : MathLib} (probs : dict Qc) : option Qc :=
  let entropy :=
    foldl (λ entropy p, if Qc_ltb 0 p then entropy - p * log2 p else entropy)
          0 (values probs) in
  match length probs with
  | O => None
  | n => let max_entropy := log2 (of_nat n) in
         Some (if Qc_ltb 0 max_entropy then entropy / max_entropy else 0)
  end.

Definition get_confidence_bucket (entropy : Qc) : string :=
  if Qc_ltb entropy (dec 0.3) then "high"
  else if Qc_ltb entropy (dec 0.6) then "medium"
  else "low".

(** One value of [apply_smoothing]; [None] stands for a division by zero *)
Definition smooth_at (values : list Qc) (window : Z) (i : nat) : option Qc :=
  let start := Z.max 0 (Z.of_nat i - window / 2) in
  let stop := Z.min (Z.of_nat (length values)) (Z.of_nat i + window / 2 + 1) in
  if (stop - start =? 0)%Z then None
  else Some (sum (slice values start stop) / of_Z (stop - start)).

Fixpoint smooth_loop (values : list Qc) (window : Z) (smoothed : list Qc)
    (indices : list nat) : option (list Qc) :=
  match indices with
  | [] => Some smoothed
  | i :: rest =>
      v ← smooth_at values window i;
      smooth_loop values window (smoothed ++ [v]) rest
  end.

Definition apply_smoothing (values : list Qc) (window : Z) : option (list Qc) :=
  if (window <? 1)%Z then Some values
  else smooth_loop values window [] (seq 0 (length values)).

End Main.

(** ** backend/models.py *)

Module Models.

(** The values of the enumeration [EmotionType], in declaration order *)
Definition EmotionType : list string :=
  ["joy"; "sadness"; "anger"; "fear"; "surprise"; "stress"; "tension";
   "disgust"; "anticipation"; "neutral"].

End Models.

(** ** backend/storage.py *)

Module Storage.
Import Py.

Inductive exn := ValueError | KeyError.

(** How a call ends: with a value or with an exception. The store is
    returned in both cases, since what a method has already written stays
    written when it raises. *)
Inductive outcome (A : Type) := Return (a : A) | Raise (e : exn).
Arguments Return {A} a.
Arguments Raise {A} e.

Record message := {
  id : nat;
  speaker : string;
  text : str;
  ts : string;
  probs : dict Qc;
  dominant : string;
  entropy : Qc;
  confidence : string
}.

Record metadata := {
  chatId : string;
  meta_id : string;
  userId : string;
  title : str;
  createdAt : string;
  lastUpdatedAt : string;
  snippet : str;
  dominant_emotion : string;
  messageCount : nat
}.

Record chat_data := {
  meta : metadata;
  messages : list message;
  emotionTimeline : gmap string (list Qc)
}.

Record summary := {
  sum_chatId : string;
  sum_id : string;
  sum_dominant_emotion : string;
  scores : dict Qc;
  sum_confidence : Qc;
  summary_text : option str;
  generatedAt : string
}.

Record ChatStorage := {
  chats : gmap string chat_data;
  user_chats : gmap string (list string);
  emotion_cache : gmap string summary
}.

(** [ChatStorage()] with nothing to load *)
Definition init : ChatStorage :=
  {| chats := ∅; user_chats := ∅; emotion_cache := ∅ |}.

Definition with_chat (s : ChatStorage) (chat_id : string) (chat : chat_data) : ChatStorage :=
  {| chats := <[chat_id := chat]> (chats s);
     user_chats := user_chats s; emotion_cache := emotion_cache s |}.

Definition with_meta (chat : chat_data) (m : metadata) : chat_data :=
  {| meta := m; messages := messages chat; emotionTimeline := emotionTimeline chat |}.

Definition set_dominant_emotion (m : metadata) (d : string) : metadata :=
  {| chatId := chatId m; meta_id := meta_id m; userId := userId m; title := title m;
     createdAt := createdAt m; lastUpdatedAt := lastUpdatedAt m; snippet := snippet m;
     dominant_emotion := d; messageCount := messageCount m |}.

Section Methods.
Context {U : Unicode}.

(** [text[:50] + "..." if len(text) > 50 else text] *)
Definition preview (text : str) : str :=
  if (50 <? length text)%nat then take 50 text ++ lit "..." else text.

Definition _generate_title (text : str) : str :=
  let words := take 5 (split_ws text) in
  let title := join (lit " ") words in
  if (5 <? length (split_ws text))%nat then title ++ lit "..." else title.

(** [chat_id] is what [_generate_chat_id] draws and [created_at] the time
    of the call; an empty [initial_message] counts as a missing one. *)
Definition create_chat (s : ChatStorage) (chat_id created_at user_id : string)
    (initial_message : option str) : ChatStorage * (string * string) :=
  let snippet :=
    match initial_message with
    | Some ((_ :: _) as m) =>
        if (50 <? length m)%nat then take 50 m ++ lit "..." else m
    | _ => lit "New chat"
    end in
  let title :=
    match initial_message with
    | Some ((_ :: _) as m) => _generate_title m
    | _ => lit "New Chat"
    end in
  let chat_data :=
    {| meta := {| chatId := chat_id; meta_id := chat_id; userId := user_id;
                  title := title; createdAt := created_at;
                  lastUpdatedAt := created_at; snippet := snippet;
                  dominant_emotion := "neutral"; messageCount := 0 |};
       messages := [];
       emotionTimeline := list_to_map ((λ e, (e, [])) <$> Models.EmotionType) |} in
  ({| chats := <[chat_id := chat_data]> (chats s);
      user_chats := <[user_id := default [] (user_chats s !! user_id) ++ [chat_id]]>
                      (user_chats s);
      emotion_cache := emotion_cache s |},
   (chat_id, created_at)).

Definition get_chat (s : ChatStorage) (chat_id : string) : option chat_data :=
  chats s !! chat_id.


(** The vote of [_update_dominant_emotion] on the messages of one chat *)
Definition emotion_counts (msgs : list message) : dict nat :=
  foldl (λ counts msg,
           set (dominant msg) (default 0%nat (get (dominant msg) counts) + 1)%nat counts)
        [] msgs.

Definition _update_dominant_emotion (s : ChatStorage) (chat_id : string)
  : ChatStorage * outcome () :=
  match chats s !! chat_id with
  | None => (s, Raise KeyError)
  | Some chat =>
      match messages chat with
      | [] => (s, Return ())
      | _ =>
          match max_by Nat.ltb snd (emotion_counts (messages chat)) with
          | Some (dominant, _) =>
              (with_chat s chat_id
                 (with_meta chat (set_dominant_emotion (meta chat) dominant)),
               Return ())
          | None => (s, Raise ValueError)
          end
      end
  end.

(** The loop that extends the timeline: it stops with a [KeyError] at the
    first label that the timeline does not have, keeping what it wrote. *)
Fixpoint update_timeline (timeline : gmap string (list Qc)) (items : list (string * Qc))
  : gmap string (list Qc) * outcome () :=
  match items with
  | [] => (timeline, Return ())
  | (emotion, prob) :: items' =>
      match timeline !! emotion with
      | Some l => update_timeline (<[emotion := l ++ [prob]]> timeline) items'
      | None => (timeline, Raise KeyError)
      end
  end.

(** [timestamp] is the time of the call *)
Definition add_message (s : ChatStorage) (timestamp : string)
    (chat_id speaker : string) (text : str) (probs : dict Qc)
    (dominant : string) (entropy : Qc) (confidence : string)
  : ChatStorage * outcome () :=
  match chats s !! chat_id with
  | None => (s, Raise ValueError)
  | Some chat =>
      let message_id := (length (messages chat) + 1)%nat in
      let message :=
        {| id := message_id; speaker := speaker; text := text; ts := timestamp;
           probs := probs; dominant := dominant; entropy := entropy;
           confidence := confidence |} in
      let msgs := messages chat ++ [message] in
      let m := meta chat in
      let m := {| chatId := chatId m; meta_id := meta_id m; userId := userId m;
                  title := title m; createdAt := createdAt m;
                  lastUpdatedAt := timestamp; snippet := snippet m;
                  dominant_emotion := dominant_emotion m;
                  messageCount := length msgs |} in
      let '(timeline, r) := update_timeline (emotionTimeline chat) probs in
      let chat := {| meta := m; messages := msgs; emotionTimeline := timeline |} in
      let s := with_chat s chat_id chat in
      match r with
      | Raise e => (s, Raise e)
      | Return _ =>
          let '(s, r) := _update_dominant_emotion s chat_id in
          match r, chats s !! chat_id with
          | Return _, Some chat =>
              if bool_decide (speaker = "user") && bool_decide (message_id = 1%nat)
              then
                let m := meta chat in
                (with_chat s chat_id
                   (with_meta chat
                      {| chatId := chatId m; meta_id := meta_id m; userId := userId m;
                         title := _generate_title text; createdAt := createdAt m;
                         lastUpdatedAt := lastUpdatedAt m; snippet := preview text;
                         dominant_emotion := dominant_emotion m;
                         messageCount := messageCount m |}),
                 Return ())
              else (s, Return ())
          | Return _, None => (s, Raise KeyError)
          | Raise e, _ => (s, Raise e)
          end
      end
  end.

Definition update_chat_title (s : ChatStorage) (now : string) (chat_id : string)
    (new_title : str) : ChatStorage * outcome () :=
  match chats s !! chat_id with
  | None => (s, Raise ValueError)
  | Some chat =>
      let m := meta chat in
      (with_chat s chat_id
         (with_meta chat
            {| chatId := chatId m; meta_id := meta_id m; userId := userId m;
               title := new_title; createdAt := createdAt m;
               lastUpdatedAt := now; snippet := snippet m;
               dominant_emotion := dominant_emotion m;
               messageCount := messageCount m |}),
       Return ())
  end.

(** [l.remove(x)]: the first occurrence, or a [ValueError] *)
Fixpoint list_remove (x : string) (l : list string) : option (list string) :=
  match l with
  | [] => None
  | y :: l' => if decide (x = y) then Some l' else (y ::.) <$> list_remove x l'
  end.

Definition delete_chat (s : ChatStorage) (chat_id user_id : string)
  : ChatStorage * outcome bool :=
  match chats s !! chat_id with
  | None => (s, Return false)
  | Some chat =>
      if bool_decide (userId (meta chat) ≠ user_id) then (s, Return false)
      else
        let owned := default [] (user_chats s !! user_id) in
        match list_remove chat_id owned with
        | None =>
            ({| chats := delete chat_id (chats s);
                user_chats := <[user_id := owned]> (user_chats s);
                emotion_cache := emotion_cache s |}, Raise ValueError)
        | Some owned' =>
            ({| chats := delete chat_id (chats s);
                user_chats := <[user_id := owned']> (user_chats s);
                emotion_cache := delete chat_id (emotion_cache s) |}, Return true)
        end
  end.
Definition _generate_summary_text (dominant : string) (scores : dict Qc)
    (confidence : Qc) : str :=
  let sorted_emotions := sorted_desc scores in
  let top_emotions := take 2 sorted_emotions in
  let primary := dominant in
  let secondary :=
    match top_emotions !! 1%nat with
    | Some (k, v) => if Qc_ltb (dec 0.1) v then Some k else None
    | None => None
    end in
  let summary :=
    if Qc_ltb (dec 0.7) confidence
    then lit "The conversation is strongly dominated by " ++ lit primary
    else if Qc_ltb (dec 0.4) confidence
    then lit "The conversation shows " ++ lit primary
    else lit "The conversation has mixed emotions with some " ++ lit primary in
  let summary :=
    match secondary with
    | Some sec =>
        if bool_decide (sec ≠ "") && bool_decide (sec ≠ primary)
        then summary ++ lit ", with occasional " ++ lit sec
        else summary
    | None => summary
    end in
  summary ++ lit ".".

(** [now] is the time of the call *)
Definition get_emotion_summary (s : ChatStorage) (now : string) (chat_id : string)
    (include_summary_text : bool) : ChatStorage * outcome (option summary) :=
  match chats s !! chat_id with
  | None => (s, Return None)
  | Some chat =>
      match messages chat with
      | [] =>
          (s, Return (Some
             {| sum_chatId := chat_id; sum_id := chat_id;
                sum_dominant_emotion := "neutral";
                scores := comprehension Models.EmotionType (λ _, dec 0.1);
                sum_confidence := 0;
                summary_text := if include_summary_text
                                then Some (lit "No messages yet.") else None;
                generatedAt := now |}))
      | msgs =>
          let emotion_sums :=
            foldl (λ sums msg,
                     foldl (λ sums item,
                              set item.1 (default 0 (get item.1 sums) + item.2) sums)
                           sums (probs msg))
                  [] msgs in
          let total_messages := length msgs in
          let scores := map_values (λ v, v / of_nat total_messages) emotion_sums in
          match argmax scores with
          | None => (s, Raise ValueError)
          | Some dominant =>
              let avg_entropy := sum (entropy <$> msgs) / of_nat total_messages in
              let confidence := 1 - avg_entropy in
              let summary_text :=
                if include_summary_text
                then Some (_generate_summary_text dominant scores confidence)
                else None in
              let result :=
                {| sum_chatId := chat_id; sum_id := chat_id;
                   sum_dominant_emotion := dominant; scores := scores;
                   sum_confidence := round2 confidence;
                   summary_text := summary_text; generatedAt := now |} in
              ({| chats := chats s; user_chats := user_chats s;
                  emotion_cache := <[chat_id := result]> (emotion_cache s) |},
               Return (Some result))
          end
      end
  end.
End Methods.

(** [models.ChatHistoryItem] *)
Record ChatHistoryItem := {
  chi_chatId : string;
  chi_id : string;
  chi_title : str;
  chi_createdAt : string;
  chi_lastUpdatedAt : string;
  chi_snippet : str;
  chi_dominant_emotion : string;
  chi_messageCount : nat
}.

Section Pagination.
Context {I : IntBuiltin}.

(** The start index that a cursor stands for: 0 without a cursor, and 0 as
    well when the cursor has no second piece or one that [int] refuses *)
Definition start_index (cursor : option string) : Z :=
  match cursor with
  | None | Some EmptyString => 0%Z
  | Some cursor =>
      match split_string (Ascii.ascii_of_N 95) cursor !! 1%nat with
      | Some piece => default 0%Z (int piece)
      | None => 0%Z
      end
  end.

(** The entry of one chat; [None] stands for the [KeyError] of a chat that
    the store does not have and for the validation error of a dominant
    emotion outside [EmotionType]. *)
Definition history_item (s : ChatStorage) (cid : string) : option ChatHistoryItem :=
  chat ← chats s !! cid;
  let m := meta chat in
  if bool_decide (dominant_emotion m ∈ Models.EmotionType)
  then Some {| chi_chatId := cid; chi_id := cid; chi_title := title m;
               chi_createdAt := createdAt m; chi_lastUpdatedAt := lastUpdatedAt m;
               chi_snippet := snippet m; chi_dominant_emotion := dominant_emotion m;
               chi_messageCount := messageCount m |}
  else None.

(** [None] stands for an exception: the [KeyError] of an identifier of the
    index that is not a chat, or a validation error. *)
Definition get_user_chats (s : ChatStorage) (user_id : string) (limit : Z)
    (cursor : option string)
  : option (list ChatHistoryItem * option string * nat) :=
  let chat_ids := default [] (user_chats s !! user_id) in
  let total := length chat_ids in
  keyed ← mapM (λ cid, chat ← chats s !! cid;
                       Some (cid, lastUpdatedAt (meta chat))) chat_ids;
  let sorted_ids := (sorted_by_key keyed).*1 in
  let start_idx := start_index cursor in
  let end_idx := (start_idx + limit)%Z in
  let page_ids := slice sorted_ids start_idx end_idx in
  history_items ← mapM (history_item s) page_ids;
  let next_cursor :=
    if (end_idx <? Z.of_nat total)%Z
    then Some ("cursor_" +:+ str_of_int end_idx) else None in
  Some (history_items, next_cursor, total).
End Pagination.

End Storage.

(** ** backend/main.py: the endpoints of the chat store *)

Module Endpoints.
Import Py.

(** What an endpoint answers: a body, or an [HTTPException] with its status *)
Inductive response (A : Type) := Ok (body : A) | HTTPException (status_code : nat).
Arguments Ok {A} body.
Arguments HTTPException {A} status_code.

Record CreateChatResponse := {
  ccr_chatId : string;
  ccr_id : string;
  ccr_userId : string;
  ccr_createdAt : string;
  ccr_message : string
}.


(** The messages of a request to [/analyze], and what the endpoint makes
    of them *)
Record Message := {
  msg_id : Z;
  msg_speaker : string;
  msg_text : str;
  msg_ts : string
}.

Record AnalyzedMessage := {
  am_id : Z;
  am_speaker : string;
  am_text : str;
  am_ts : string;
  am_probs : dict Qc;
  am_dominant : string;
  am_entropy : Qc;
  am_confidence : string
}.

Record Timeline := {
  raw : list Qc;
  smoothed : list Qc;
  peaks : list nat
}.

Record AnalyzeResponse := {
  ar_messages : list AnalyzedMessage;
  ar_timeline : Timeline;
  ar_session_confidence : string
}.

(** What [chat_reply] notes in a session *)
Record LastMessage := {
  lm_text : str;
  lm_emotion : string;
  lm_confidence : string;
  lm_ts : string
}.

(** An entry of the session store; [analyze_conversation] writes it anew,
    without the key ["last_message"] *)
Record Session := {
  session_messages : list AnalyzedMessage;
  last_updated : string;
  last_message : option LastMessage
}.

Record ChatResponse := {
  cr_reply : str;
  cr_emotion : string;
  cr_confidence : string;
  cr_safety_flag : bool
}.

Section Handlers.
Context {U : Unicode} {B : Builtins} {G : ModelAdapter.GenerativeModel}
        {M : Main.MathLib}.

(** [chat_id] is the identifier drawn by the store, [created_at] and
    [timestamp] the times of the two calls to the store. Every exception
    inside the [try] block becomes the status 500. *)
Definition create_new_chat (s : Storage.ChatStorage)
    (chat_id created_at timestamp : string) (userId : string)
    (initialMessage : option str)
  : Storage.ChatStorage * response CreateChatResponse :=
  let '(s, (chat_id, created_at)) :=
    Storage.create_chat s chat_id created_at userId initialMessage in
  let ok := Ok {| ccr_chatId := chat_id; ccr_id := chat_id; ccr_userId := userId;
                  ccr_createdAt := created_at;
                  ccr_message := "Chat created successfully" |} in
  match initialMessage with
  | Some ((_ :: _) as text) =>
      let probs := ModelAdapter.classify_emotion text [] in
      match argmax probs with
      | None => (s, HTTPException 500)
      | Some dominant =>
          match Main.calculate_entropy probs with
          | None => (s, HTTPException 500)
          | Some entropy =>
              let confidence := Main.get_confidence_bucket entropy in
              let '(s, r) := Storage.add_message s timestamp chat_id "user" text probs
                               dominant entropy confidence in
              match r with
              | Storage.Return _ => (s, ok)
              | Storage.Raise _ => (s, HTTPException 500)
              end
          end
      end
  | _ => (s, ok)
  end.

(** The loop of [analyze_conversation] over the messages of the request;
    [None] stands for an exception raised on the way. *)
Fixpoint analyze_loop (analyzed_messages : list AnalyzedMessage)
    (raw_intensities : list Qc) (messages : list Message)
  : option (list AnalyzedMessage * list Qc) :=
  match messages with
  | [] => Some (analyzed_messages, raw_intensities)
  | msg :: rest =>
      let probs := ModelAdapter.classify_emotion (msg_text msg) [] in
      entropy ← Main.calculate_entropy probs;
      dominant ← Main.get_dominant_emotion probs;
      let confidence := Main.get_confidence_bucket entropy in
      intensity ← get dominant probs;
      analyze_loop
        (analyzed_messages
         ++ [{| am_id := msg_id msg; am_speaker := msg_speaker msg;
                am_text := msg_text msg; am_ts := msg_ts msg; am_probs := probs;
                am_dominant := dominant; am_entropy := round3 entropy;
                am_confidence := confidence |}])
        (raw_intensities ++ [intensity]) rest
  end.

(** [now] is the time of the call; a [smoothing_window] of [None] is the
    [null] that the request model admits. Every exception inside the [try]
    block becomes the status 500. *)
Definition analyze_conversation (sessions : gmap string Session) (now : string)
    (session_id : string) (messages : list Message) (smoothing_window : option Z)
  : gmap string Session * response AnalyzeResponse :=
  match analyze_loop [] [] messages with
  | None => (sessions, HTTPException 500)
  | Some (analyzed_messages, raw_intensities) =>
      match smoothing_window with
      | None => (sessions, HTTPException 500)
      | Some window =>
          match Main.apply_smoothing raw_intensities window with
          | None => (sessions, HTTPException 500)
          | Some smoothed =>
              match Main.detect_peaks smoothed (dec 0.7) with
              | None => (sessions, HTTPException 500)
              | Some peaks =>
                  match length analyzed_messages with
                  | O => (sessions, HTTPException 500)
                  | n =>
                      let avg_entropy :=
                        sum (am_entropy <$> analyzed_messages) / of_nat n in
                      let session_confidence :=
                        Main.get_confidence_bucket avg_entropy in
                      (<[session_id := {| session_messages := analyzed_messages;
                                          last_updated := now;
                                          last_message := None |}]> sessions,
                       Ok {| ar_messages := analyzed_messages;
                             ar_timeline :=
                               {| raw := round3 <$> raw_intensities;
                                  smoothed := round3 <$> smoothed;
                                  peaks := peaks |};
                             ar_session_confidence := session_confidence |})
                  end
              end
          end
      end
  end.

Context {R : ModelAdapter.ReplyModel}.

(** [chat_reply] passes the confidence bucket, a [str], where
    [generate_reply] expects the history. Had [generate_reply] returned, the
    session would be updated before [result["reply"]], the indexing of a
    [str] by a [str], raises [TypeError]. Every exception becomes the status
    500. *)
Definition chat_reply (sessions : gmap string Session) (now : string)
    (session_id : string) (message : str)
  : gmap string Session * response ChatResponse :=
  let probs := ModelAdapter.classify_emotion message [] in
  match Main.calculate_entropy probs with
  | None => (sessions, HTTPException 500)
  | Some entropy =>
      match Main.get_dominant_emotion probs with
      | None => (sessions, HTTPException 500)
      | Some dominant =>
          let confidence := Main.get_confidence_bucket entropy in
          match ModelAdapter.generate_reply message dominant
                  (ModelAdapter.HistoryStr (lit confidence)) with
          | None => (sessions, HTTPException 500)
          | Some result =>
              let sessions :=
                match sessions !! session_id with
                | Some session =>
                    <[session_id :=
                        {| session_messages := session_messages session;
                           last_updated := last_updated session;
                           last_message :=
                             Some {| lm_text := message; lm_emotion := dominant;
                                     lm_confidence := confidence; lm_ts := now |} |}]>
                      sessions
                | None => sessions
                end in
              (sessions, HTTPException 500)
          end
      end
  end.
End Handlers.

End Endpoints.

(** ** The rules in the words of the specification *)

Module Spec.
Import Py.

(** The rule in the words of the specification: the value at [i] is above
    the threshold and strictly above both of its neighbours. *)
Definition interior_peak (values : list Qc) (threshold : Qc) (i : nat) : bool :=
  match values !! (i - 1)%nat, values !! i, values !! (i + 1)%nat with
  | Some vp, Some vi, Some vn =>
      Qc_ltb threshold vi && Qc_ltb vp vi && Qc_ltb vn vi
  | _, _, _ => false
  end.

(** The last index, when its value is above the threshold *)
Definition trailing_peak (values : list Qc) (threshold : Qc) : list nat :=
  match last values with
  | Some v => if Qc_ltb threshold v then [(length values - 1)%nat] else []
  | None => []
  end.

Definition spec_peaks (values : list Qc) (threshold : Qc) : list nat :=
  List.filter (interior_peak values threshold) (seq 1 (length values - 2))
  ++ trailing_peak values threshold.

Section Signals.
Context {U : Unicode}.
Import ModelAdapter.

(** Some keyword of the tables matches the lower-cased text *)
Definition any_keyword_match (text : str) : bool :=
  existsb (λ item : string * list string,
             existsb (λ keyword, keyword_match keyword (lower text)) item.2)
          EMOTION_KEYWORDS.

(** Some emoji of the tables occurs in the text *)
Definition any_emoji_match (text : str) : bool :=
  existsb (λ item : string * list str, existsb (λ emoji, contains emoji text) item.2)
          EMOTION_EMOJIS.

(** Some keyword bound to [emotion] matches the lower-cased text *)
Definition emotion_keyword_match (emotion : string) (text : str) : bool :=
  existsb (λ keyword, keyword_match keyword (lower text))
          (default [] (get emotion EMOTION_KEYWORDS)).

(** Some sarcasm pattern matches the lower-cased text *)
Definition sarcasm_match (text : str) : bool :=
  existsb (λ pattern, Re.search pattern (lower text)) sarcasm_patterns.

(** The keyword occurs as a whole word: a word boundary on both sides *)
Definition whole_word_match (keyword : string) (text_lower : str) : bool :=
  Re.search (Re.seq [Re.Boundary; Re.word keyword; Re.Boundary]) text_lower.
End Signals.

(** The labels that the detector can name *)
Definition detectable : list string :=
  ["disgust"; "anger"; "sadness"; "fear"; "surprise"; "joy"; "stress"; "tension";
   "anticipation"].

(** An assignment of the labels, divided by its total *)
Definition renormalise (f : string → Qc) : dict Qc :=
  let total := sum (f <$> ModelAdapter.EMOTIONS) in
  (λ label, (label, f label / total)) <$> ModelAdapter.EMOTIONS.

(** The detected label gets 0.80, neutral 0.01 and every other label 0.02 *)
Definition base_assignment (detected label : string) : Qc :=
  if decide (label = detected) then dec 0.80
  else if decide (label = "neutral") then dec 0.01
  else dec 0.02.

(** The secondary emotion of a detected label, with its amount *)
Definition secondary (detected : string) : option (string * Qc) :=
  if decide (detected = "disgust") then Some ("anger", dec 0.12)
  else if decide (detected = "anger") then Some ("disgust", dec 0.08)
  else if decide (detected = "sadness") then Some ("fear", dec 0.05)
  else None.

(** The amount added on top of the base *)
Definition boosted_assignment (detected label : string) : Qc :=
  match secondary detected with
  | Some (l, amount) =>
      if decide (label = l) then base_assignment detected label + amount
      else base_assignment detected label
  | None => base_assignment detected label
  end.

(** The amount taking the place of the base *)
Definition replaced_assignment (detected label : string) : Qc :=
  match secondary detected with
  | Some (l, amount) =>
      if decide (label = l) then amount else base_assignment detected label
  | None => base_assignment detected label
  end.

(** The ten labels, and a total within 0.01 of 1 *)
Definition is_distribution (d : dict Qc) : Prop :=
  keys d ≡ₚ ModelAdapter.EMOTIONS ∧ dec 0.99 <= sum (values d) ∧ sum (values d) <= dec 1.01.

(** The fixed distribution of the sarcasm path *)
Definition sarcasm_table : dict Qc :=
  [("joy", dec 0.05); ("sadness", dec 0.05); ("anger", dec 0.5);
   ("fear", dec 0.05); ("surprise", dec 0.05); ("stress", dec 0.05);
   ("tension", dec 0.05); ("disgust", dec 0.2); ("anticipation", dec 0.05);
   ("neutral", dec 0.05)].

(** The corrected distribution: 0.6 for the label [m], 0.2 for neutral and
    0.2 / 8 for each of the other eight labels *)
Definition corrected (m : string) : dict Qc :=
  (λ label, (label, if decide (label = m) then dec 0.6
                    else if decide (label = "neutral") then dec 0.2
                    else dec 0.025)) <$> ModelAdapter.EMOTIONS.

(** The number of votes of a label *)
Fixpoint tally (x : string) (ds : list string) : nat :=
  match ds with
  | [] => 0
  | d :: ds' => ((if decide (d = x) then 1 else 0) + tally x ds')%nat
  end.

(** The majority vote with ties broken by the fixed order of the labels: the
    first label of the enumeration that no label outvotes *)
Definition priority_vote (ds : list string) : option string :=
  List.find (λ l, bool_decide (l ∈ ds) && forallb (λ y, (tally y ds <=? tally l ds)%nat) ds)
            ModelAdapter.EMOTIONS.

(** The majority vote with ties broken by the order of first occurrence:
    no label has more votes than [x], and each label seen before the first
    [x] has fewer. *)
Definition first_seen_majority (ds : list string) (x : string) : Prop :=
  ∃ pre post, ds = pre ++ (x :: post) ∧ (x ∉ pre)
    ∧ (∀ y, y ∈ pre → (tally y ds < tally x ds)%nat)
    ∧ (∀ y, y ∈ post → (tally y ds ≤ tally x ds)%nat).

(** The placeholder scores of an empty chat *)
Definition placeholder_scores : dict Qc :=
  [("joy", dec 0.1); ("sadness", dec 0.1); ("anger", dec 0.1); ("fear", dec 0.1);
   ("surprise", dec 0.1); ("stress", dec 0.1); ("tension", dec 0.1);
   ("disgust", dec 0.1); ("anticipation", dec 0.1); ("neutral", dec 0.1)].

(** Every timeline of a chat is as long as its list of messages, and so is
    its message count. *)
Definition timeline_consistent (chat : Storage.chat_data) : Prop :=
  Storage.messageCount (Storage.meta chat) = length (Storage.messages chat)
  ∧ ∀ e, e ∈ ModelAdapter.EMOTIONS →
      ∃ l, Storage.emotionTimeline chat !! e = Some l
           ∧ length l = length (Storage.messages chat).

(** Every chat of the store is consistent *)
Definition store_consistent (s : Storage.ChatStorage) : Prop :=
  map_Forall (λ _ chat, timeline_consistent chat) (Storage.chats s).

(** The probabilities of a message cover exactly the ten labels *)
Definition covers_labels (probs : dict Qc) : Prop :=
  keys probs ≡ₚ ModelAdapter.EMOTIONS.

(** The calls that change a store *)
Inductive call :=
| CreateChat (chat_id created_at user_id : string) (initial_message : option str)
| AddMessage (timestamp chat_id speaker : string) (text : str) (probs : dict Qc)
    (dominant : string) (entropy : Qc) (confidence : string)
| UpdateChatTitle (now chat_id : string) (new_title : str)
| DeleteChat (chat_id user_id : string)
| GetEmotionSummary (now chat_id : string) (include_summary_text : bool).

Definition well_formed (c : call) : Prop :=
  match c with
  | AddMessage _ _ _ _ probs _ _ _ => covers_labels probs
  | _ => True
  end.

Section Calls.
Context {U : Unicode}.

(** The store after a call, whether it returned or raised *)
Definition run (s : Storage.ChatStorage) (c : call) : Storage.ChatStorage :=
  match c with
  | CreateChat chat_id created_at user_id initial_message =>
      (Storage.create_chat s chat_id created_at user_id initial_message).1
  | AddMessage timestamp chat_id speaker text probs dominant entropy confidence =>
      (Storage.add_message s timestamp chat_id speaker text probs dominant entropy
         confidence).1
  | UpdateChatTitle now chat_id new_title =>
      (Storage.update_chat_title s now chat_id new_title).1
  | DeleteChat chat_id user_id => (Storage.delete_chat s chat_id user_id).1
  | GetEmotionSummary now chat_id include_summary_text =>
      (Storage.get_emotion_summary s now chat_id include_summary_text).1
  end.
End Calls.

(** The labels in the order in which they first occur *)
Definition firsts (ds : list string) : list string :=
  foldl (λ acc z, if decide (z ∈ acc) then acc else acc ++ [z]) [] ds.

(** A sample session: a chat is created and receives one message *)
Definition sample_probs : dict Qc :=
  [("joy", dec 0.0); ("sadness", dec 0.2); ("anger", dec 0.7); ("fear", dec 0.05);
   ("surprise", dec 0.0); ("stress", dec 0.05); ("tension", dec 0.0);
   ("disgust", dec 0.0); ("anticipation", dec 0.0); ("neutral", dec 0.0)].

Definition sample_calls : list call :=
  [CreateChat "c1" "t0" "u1" None;
   AddMessage "t1" "c1" "user" (lit "I'm so frustrated with this!") sample_probs
     "anger" (dec 0.5) "high"].

(** A store with one empty chat, and the same after messages of the given
    dominant labels *)
Definition one_chat : Storage.ChatStorage :=
  (@Storage.create_chat ascii_unicode Storage.init "c1" "t0" "u1" None).1.

Definition after_messages (dominants : list string) : Storage.ChatStorage :=
  foldl (λ s d, (@Storage.add_message ascii_unicode s "t1" "c1" "user" (lit "Test")
                   sample_probs d (dec 0.3) "high").1)
        one_chat dominants.

Section ParserSpec.
Context {U : Unicode} {B : Builtins}.

(** A piece of the answer that holds a colon and is not one label and one
    number: it has several colons, or [float] refuses what follows the
    colon. *)
Definition malformed (item : str) : Prop :=
  has_char 58 item = true
  ∧ ∀ emotion prob, split 58 item = [emotion; prob] → float (strip prob) = None.
End ParserSpec.

(** The uniform distribution *)
Definition uniform : dict Qc :=
  [("joy", dec 0.1); ("sadness", dec 0.1); ("anger", dec 0.1); ("fear", dec 0.1);
   ("surprise", dec 0.1); ("stress", dec 0.1); ("tension", dec 0.1);
   ("disgust", dec 0.1); ("anticipation", dec 0.1); ("neutral", dec 0.1)].

(** The text is short and plain: fewer than ten characters once stripped,
    and neither a question mark nor an exclamation mark *)
Definition short_plain {U : Unicode} (text : str) : bool :=
  (length (strip text) <? 10)%nat && negb (has_char 63 text) && negb (has_char 33 text).

(** The identifier drawn for a new chat is not the one of a chat of the
    store *)
Definition fresh (s : Storage.ChatStorage) (c : call) : Prop :=
  match c with
  | CreateChat chat_id _ _ _ => Storage.chats s !! chat_id = None
  | _ => True
  end.

Section Sessions.
Context {U : Unicode}.

(** A sequence of calls in which every new chat gets a fresh identifier *)
Fixpoint admissible (s : Storage.ChatStorage) (calls : list call) : Prop :=
  match calls with
  | [] => True
  | c :: calls' => fresh s c ∧ admissible (run s c) calls'
  end.
End Sessions.

(** The index of the chats by user agrees with the chats: every chat
    carries its own identifier and is listed under its owner, and every
    list of the index is without repetition and names chats of its user. *)
Definition index_consistent (s : Storage.ChatStorage) : Prop :=
  (∀ chat_id chat, Storage.chats s !! chat_id = Some chat →
     Storage.chatId (Storage.meta chat) = chat_id
     ∧ chat_id ∈ default [] (Storage.user_chats s !! Storage.userId (Storage.meta chat)))
  ∧ (∀ user_id owned, Storage.user_chats s !! user_id = Some owned →
       NoDup owned
       ∧ ∀ chat_id, chat_id ∈ owned →
           ∃ chat, Storage.chats s !! chat_id = Some chat
                   ∧ Storage.userId (Storage.meta chat) = user_id).

(** The message that [add_message] appends to a chat *)
Definition new_message (chat : Storage.chat_data) (timestamp speaker : string)
    (text : str) (probs : dict Qc) (dominant : string) (entropy : Qc)
    (confidence : string) : Storage.message :=
  {| Storage.id := (length (Storage.messages chat) + 1)%nat;
     Storage.speaker := speaker; Storage.text := text; Storage.ts := timestamp;
     Storage.probs := probs; Storage.dominant := dominant;
     Storage.entropy := entropy; Storage.confidence := confidence |}.

(** The call ended without an exception *)
Definition returned {A} (r : Storage.outcome A) : bool :=
  match r with Storage.Return _ => true | Storage.Raise _ => false end.

(** The messages of a chat are numbered from 1 in the order of arrival *)
Definition numbered (chat : Storage.chat_data) : Prop :=
  Storage.id <$> Storage.messages chat = seq 1 (length (Storage.messages chat)).

(** The sample session followed by a second chat and by a message whose
    probabilities name a label that no timeline has, so that the call raises *)
Definition raising_calls : list call :=
  sample_calls
  ++ [CreateChat "c2" "t2" "u2" (Some (lit "Hello there"));
      AddMessage "t3" "c1" "assistant" (lit "Tell me more.")
        [("joy", dec 0.5); ("bogus", dec 0.5)] "joy" (dec 0.2) "high"].

(** The sums that [get_emotion_summary] accumulates over the messages, and
    the scores that it derives from them *)
Definition emotion_sums (msgs : list Storage.message) : dict Qc :=
  foldl (λ sums msg,
           foldl (λ sums item, set item.1 (default 0 (get item.1 sums) + item.2) sums)
                 sums (Storage.probs msg))
        [] msgs.

Definition mean_scores (msgs : list Storage.message) : dict Qc :=
  map_values (λ v, v / of_nat (length msgs)) (emotion_sums msgs).

(** The store once a summary has been cached for a chat *)
Definition cached (s : Storage.ChatStorage) (chat_id : string) (r : Storage.summary)
  : Storage.ChatStorage :=
  {| Storage.chats := Storage.chats s; Storage.user_chats := Storage.user_chats s;
     Storage.emotion_cache := <[chat_id := r]> (Storage.emotion_cache s) |}.

(** A chat with two messages of the sample probabilities, and a store that
    holds it *)
Definition sample_message (i : nat) (d : string) : Storage.message :=
  {| Storage.id := i; Storage.speaker := "user"; Storage.text := lit "Test";
     Storage.ts := "t1"; Storage.probs := sample_probs; Storage.dominant := d;
     Storage.entropy := dec 0.3; Storage.confidence := "high" |}.

Definition two_messages : Storage.chat_data :=
  {| Storage.meta :=
       {| Storage.chatId := "c1"; Storage.meta_id := "c1"; Storage.userId := "u1";
          Storage.title := lit "Test"; Storage.createdAt := "t0";
          Storage.lastUpdatedAt := "t1"; Storage.snippet := lit "Test";
          Storage.dominant_emotion := "anger"; Storage.messageCount := 2 |};
     Storage.messages := [sample_message 1 "anger"; sample_message 2 "sadness"];
     Storage.emotionTimeline :=
       list_to_map ((λ e, (e, [dec 0.0; dec 0.0])) <$> Models.EmotionType) |}.

Definition two_messages_store : Storage.ChatStorage :=
  Storage.with_chat Storage.init "c1" two_messages.



(** The dominant emotion of every chat is a value of [EmotionType] *)
Definition labels_valid (s : Storage.ChatStorage) : Prop :=
  map_Forall (λ _ chat,
                Storage.dominant_emotion (Storage.meta chat) ∈ Models.EmotionType)
             (Storage.chats s).

(** The entries are in the order of their last update, the latest first *)
Definition latest_first (listing : list Storage.ChatHistoryItem) : Prop :=
  Sorted (λ a b, String.leb (Storage.chi_lastUpdatedAt b) (Storage.chi_lastUpdatedAt a)
                 = true) listing.

(** The cursor that [get_user_chats] prints for an index *)
Definition cursor_of (n : Z) : string := "cursor_" +:+ str_of_int n.

Section Pages.
Context {I : IntBuiltin}.

(** The pages that a client gets by following the cursors from a first
    request, at most [fuel] of them *)
Fixpoint pages (fuel : nat) (s : Storage.ChatStorage) (user_id : string) (limit : Z)
    (cursor : option string) : list (list Storage.ChatHistoryItem) :=
  match fuel with
  | O => []
  | S fuel' =>
      match Storage.get_user_chats s user_id limit cursor with
      | Some (items, Some next_cursor, _) =>
          items :: pages fuel' s user_id limit (Some next_cursor)
      | Some (items, None, _) => [items]
      | None => []
      end
  end.
End Pages.

(** The dominant label of a message to add is a value of [EmotionType] *)
Definition labelled (c : call) : Prop :=
  match c with
  | AddMessage _ _ _ _ _ dominant _ _ => dominant ∈ Models.EmotionType
  | _ => True
  end.

(** The dominant labels of a chat and of its messages are values of
    [EmotionType] *)
Definition chat_labelled (chat : Storage.chat_data) : Prop :=
  Storage.dominant_emotion (Storage.meta chat) ∈ Models.EmotionType
  ∧ Forall (λ msg, Storage.dominant msg ∈ Models.EmotionType) (Storage.messages chat).

(** Three chats of one user, created one after the other *)
Definition history_calls : list call :=
  [CreateChat "c1" "2025-11-20T09:00:00Z" "u1" None;
   CreateChat "c2" "2025-11-21T09:00:00Z" "u1" (Some (lit "Hello there"));
   CreateChat "c3" "2025-11-22T09:00:00Z" "u1" None;
   AddMessage "2025-11-23T09:00:00Z" "c1" "user" (lit "I'm so frustrated with this!")
     sample_probs "anger" (dec 0.5) "high"].

End Spec.

(** * Properties *)

(** ** Peak detection *)

Section Peaks.
Import Py Main Spec.

Lemma peak_step_interior values threshold peaks i :
  (1 ≤ i)%nat → (i + 1 < length values)%nat →
  peak_step values threshold peaks i
  = Some (if interior_peak values threshold i then peaks ++ [i] else peaks).
Proof.
  intros Hlo Hhi. unfold peak_step, interior_peak.
  destruct (lookup_lt_is_Some_2 values (i - 1)%nat) as [vp ->]; [lia|].
  destruct (lookup_lt_is_Some_2 values i) as [vi ->]; [lia|].
  destruct (lookup_lt_is_Some_2 values (i + 1)%nat) as [vn ->]; [lia|].
  simpl. destruct (Qc_ltb threshold vi); simpl; [|done].
  destruct (Qc_ltb vp vi); simpl; [|done].
  by destruct (Qc_ltb vn vi).
Qed.

Lemma peak_loop_interior values threshold indices : ∀ peaks,
  Forall (λ i, 1 ≤ i ∧ i + 1 < length values)%nat indices →
  peak_loop values threshold peaks indices
  = Some (peaks ++ List.filter (interior_peak values threshold) indices).
Proof.
  induction indices as [|i rest IH]; intros peaks Hall; simpl.
  - by rewrite app_nil_r.
  - apply Forall_cons in Hall as [[Hlo Hhi] Hrest].
    rewrite peak_step_interior by done. simpl.
    rewrite IH by done.
    destruct (interior_peak values threshold i); [|done].
    by rewrite <- app_assoc.
Qed.

Lemma detect_peaks_total values threshold :
  detect_peaks values threshold = Some (spec_peaks values threshold).
Proof.
  unfold detect_peaks, spec_peaks, trailing_peak, range.
  replace (length values - 1 - 1)%nat with (length values - 2)%nat by lia.
  rewrite peak_loop_interior; simpl.
  - destruct (last values) as [v|]; [|by rewrite app_nil_r].
    destruct (Qc_ltb threshold v); [done|by rewrite app_nil_r].
  - apply Forall_forall. intros i Hi. apply elem_of_seq in Hi. lia.
Qed.

(** C7: [detect_peaks] never raises and returns, in increasing order, the
    interior indices that pass the strict local-maximum test above the
    threshold, followed by the last index whenever the last value is above
    the threshold; on [0.1, 0.9, 0.2, 0.3, 0.8] with threshold 0.7 this
    is [1, 4]. *)
Theorem detect_peaks_spec :
  (∀ values threshold,
     detect_peaks values threshold
     = Some (List.filter (interior_peak values threshold) (seq 1 (length values - 2))
             ++ trailing_peak values threshold))
  ∧ (∀ values threshold i,
       interior_peak values threshold i = true ↔
       ∃ vp vi vn, values !! (i - 1)%nat = Some vp ∧ values !! i = Some vi
                   ∧ values !! (i + 1)%nat = Some vn
                   ∧ threshold < vi ∧ vp < vi ∧ vn < vi)
  ∧ (∀ values threshold,
       trailing_peak values threshold
       = match last values with
         | Some v => if bool_decide (threshold < v) then [(length values - 1)%nat] else []
         | None => []
         end)
  ∧ detect_peaks (dec <$> [0.1; 0.9; 0.2; 0.3; 0.8]%Q) (dec 0.7) = Some [1; 4]%nat.
Proof.
  split; [exact detect_peaks_total|]. split; [|split; [done|by vm_compute]].
  intros values threshold i. unfold interior_peak, Qc_ltb. split.
  - destruct (values !! (i - 1)%nat) as [vp|]; [|done].
    destruct (values !! i) as [vi|]; [|done].
    destruct (values !! (i + 1)%nat) as [vn|]; [|done].
    intros H. apply andb_true_iff in H as [H H3]. apply andb_true_iff in H as [H1 H2].
    apply bool_decide_eq_true in H1, H2, H3. by exists vp, vi, vn.
  - intros (vp & vi & vn & -> & -> & -> & H1 & H2 & H3).
    by rewrite !bool_decide_eq_true_2.
Qed.
End Peaks.

(** ** Dictionaries and floats *)

(** A decidable closed proposition, settled by evaluation *)
Ltac by_compute := apply (bool_decide_unpack _); vm_compute; exact I.

Section PyFacts.
Import Py.

Lemma Qc_this_inj (a b : Qc) : this a = this b → a = b.
Proof. intros H. apply Qc_is_canon. by rewrite H. Qed.

(** Two dictionaries of floats are equal when their fractions are *)
Lemma dict_raw_inj (d1 d2 : dict Qc) :
  (λ kv : string * Qc, (kv.1, this kv.2)) <$> d1
  = (λ kv : string * Qc, (kv.1, this kv.2)) <$> d2 → d1 = d2.
Proof.
  revert d2. induction d1 as [|[k1 v1] d1 IH]; intros [|[k2 v2] d2] H; try done.
  simpl in H. injection H as Hk Hv Hd.
  f_equal; [|by apply IH]. f_equal; [done|by apply Qc_this_inj].
Qed.

Lemma Qc_ltb_lt a b : Qc_ltb a b = true ↔ a < b.
Proof. apply bool_decide_eq_true. Qed.

Lemma Qc_leb_le a b : Qc_leb a b = true ↔ a <= b.
Proof. apply bool_decide_eq_true. Qed.

Lemma get_elem_of {V} k (v : V) (d : dict V) : get k d = Some v → (k, v) ∈ d.
Proof.
  induction d as [|[k' v'] d IH]; simpl; [done|].
  destruct (decide (k = k')) as [->|_].
  - intros [= ->]. apply list_elem_of_here.
  - intros H. apply list_elem_of_further. by apply IH.
Qed.

Lemma get_is_Some {V} k (d : dict V) : k ∈ keys d → is_Some (get k d).
Proof.
  unfold keys. induction d as [|[k' v'] d IH]; simpl.
  - intros H. by apply elem_of_nil in H.
  - intros H. destruct (decide (k = k')) as [->|Hne]; [by eexists|].
    apply IH. apply elem_of_cons in H as [?|?]; [done|done].
Qed.

Lemma keys_set_known {V} k (v : V) (d : dict V) : k ∈ keys d → keys (set k v d) = keys d.
Proof.
  unfold keys. induction d as [|[k' v'] d IH]; simpl.
  - intros H. by apply elem_of_nil in H.
  - intros H. destruct (decide (k = k')) as [->|Hne]; simpl; [done|].
    f_equal. apply IH. apply elem_of_cons in H as [?|?]; [done|done].
Qed.

Lemma keys_map_values {V W} (f : V → W) (d : dict V) : keys (map_values f d) = keys d.
Proof. unfold keys, map_values. rewrite <- list_fmap_compose. done. Qed.

Lemma find_first {A} (f : A → bool) (l : list A) i x :
  l !! i = Some x → f x = true →
  (∀ j y, (j < i)%nat → l !! j = Some y → f y = false) →
  List.find f l = Some x.
Proof.
  revert i. induction l as [|a l IH]; intros [|i] Hx Hfx Hbefore; simpl in *; try done.
  - injection Hx as ->. by rewrite Hfx.
  - rewrite (Hbefore 0%nat a) by (done || lia).
    apply (IH i); [done..|]. intros j y Hj Hy. apply (Hbefore (S j) y); [lia|done].
Qed.

Lemma find_all_false {A} (f : A → bool) (l : list A) :
  (∀ x, x ∈ l → f x = false) → List.find f l = None.
Proof.
  induction l as [|a l IH]; intros H; simpl; [done|].
  rewrite (H a) by apply list_elem_of_here.
  apply IH. intros x Hx. apply H. by apply list_elem_of_further.
Qed.

Lemma existsb_all_false {A} (f : A → bool) (l : list A) :
  existsb f l = false → ∀ x, x ∈ l → f x = false.
Proof.
  intros H x Hx. destruct (f x) eqn:Hf; [|done].
  rewrite <- H. symmetry. apply existsb_exists. exists x. split; [|done].
  by apply list_elem_of_In.
Qed.
End PyFacts.

(** ** The signal detector and the keyword path *)

Section DetectorFacts.
Import Py ModelAdapter Spec.
Context {U : Unicode}.

Lemma detector_cases text :
  (∃ L, L ∈ detectable ∧ _has_emotion_signal text = (true, L))
  ∨ _has_emotion_signal text = (true, "emphasis_detected")
  ∨ _has_emotion_signal text = (false, "no_signal").
Proof.
  unfold _has_emotion_signal.
  destruct (List.find _ emotion_priority) as [e|] eqn:Hk.
  { left. exists e. split; [|done].
    apply find_some in Hk as [Hin _]. by apply list_elem_of_In in Hin. }
  destruct (List.find _ EMOTION_EMOJIS) as [item|] eqn:He.
  { left. exists item.1. split; [|done].
    apply find_some in He as [Hin _]. apply list_elem_of_In in Hin.
    unfold EMOTION_EMOJIS, detectable in *.
    repeat (apply elem_of_cons in Hin as [->|Hin]; [simpl; by_compute|]).
    by apply elem_of_nil in Hin. }
  destruct (existsb _ EMPHASIS_PATTERNS); auto.
Qed.

Lemma detector_label_detectable text L :
  _has_emotion_signal text = (true, L) → L ∈ EMOTIONS → L ∈ detectable.
Proof.
  intros H HL. destruct (detector_cases text) as [(L' & HL' & H')|[H'|H']];
    rewrite H' in H; [by injection H as <-| |discriminate].
  injection H as <-. exfalso. unfold EMOTIONS in HL.
  repeat (apply elem_of_cons in HL as [HL|HL]; [discriminate|]).
  by apply elem_of_nil in HL.
Qed.

Lemma detector_keyword text i E :
  emotion_priority !! i = Some E →
  emotion_keyword_match E text = true →
  (∀ j E', (j < i)%nat → emotion_priority !! j = Some E' →
           emotion_keyword_match E' text = false) →
  _has_emotion_signal text = (true, E).
Proof.
  intros Hi Hm Hbefore. unfold _has_emotion_signal.
  match goal with
  | |- context [List.find ?f emotion_priority] =>
      by rewrite (find_first f emotion_priority i E Hi Hm Hbefore)
  end.
Qed.

Lemma detector_no_match text :
  any_keyword_match text = false → any_emoji_match text = false →
  _has_emotion_signal text = (true, "emphasis_detected")
  ∨ _has_emotion_signal text = (false, "no_signal").
Proof.
  intros Hk He. unfold _has_emotion_signal.
  rewrite find_all_false.
  2:{ intros e _. destruct (get e EMOTION_KEYWORDS) as [kws|] eqn:Hget; [|done].
      apply get_elem_of in Hget.
      apply (existsb_all_false _ _ Hk (e, kws) Hget). }
  rewrite find_all_false.
  2:{ intros item Hitem. apply (existsb_all_false _ _ He item Hitem). }
  destruct (existsb _ EMPHASIS_PATTERNS); auto.
Qed.
End DetectorFacts.

Section KeywordPath.
Import Py ModelAdapter Spec.

Lemma keyword_distribution_replaced L :
  L ∈ detectable → keyword_distribution L = renormalise (replaced_assignment L).
Proof.
  intros H. unfold detectable in H.
  repeat (apply elem_of_cons in H as [->|H]; [apply dict_raw_inj; by vm_compute|]).
  by apply elem_of_nil in H.
Qed.

Lemma keyword_distribution_dominant L :
  L ∈ detectable →
  Main.get_dominant_emotion (keyword_distribution L) = Some L
  ∧ ∃ p, get L (keyword_distribution L) = Some p ∧ dec 0.5 <= p.
Proof.
  intros H. unfold detectable in H.
  repeat (apply elem_of_cons in H as [->|H];
          [split; [by vm_compute|eexists; split; [by vm_compute|by vm_compute]]|]).
  by apply elem_of_nil in H.
Qed.

Context {U : Unicode} {B : Builtins} {G : GenerativeModel}.

Lemma classify_keyword text chat_history L :
  _has_emotion_signal text = (true, L) → L ∈ EMOTIONS →
  classify_emotion text chat_history = keyword_distribution L.
Proof.
  intros H HL. unfold classify_emotion. rewrite H. simpl.
  by rewrite bool_decide_eq_true_2.
Qed.

Lemma classify_no_label text chat_history :
  any_keyword_match text = false → any_emoji_match text = false →
  classify_emotion text chat_history
  = if sarcasm_match text then sarcasm_distribution
    else match (response ← generate_content
                  {| context_str := build_context chat_history; message := text |};
                anti_neutral (_parse_emotion_response (strip response))) with
         | Some emotion_probs => emotion_probs
         | None => fallback text
         end.
Proof.
  intros Hk He. unfold classify_emotion.
  by destruct (detector_no_match text Hk He) as [-> | ->].
Qed.
End KeywordPath.

(** ** The keyword and sarcasm paths of the classifier *)

Section ClassifierPaths.
Import Py ModelAdapter Spec.

(** C3, as stated, fails: "I love it but I am sad" holds the keyword "love"
    of joy as a whole word, and the classifier answers sadness, which comes
    earlier in the priority order of the detector. *)
Lemma keyword_outranked :
  ¬ (∀ (U : Unicode) (B : Builtins) (G : GenerativeModel) text chat_history E,
       emotion_keyword_match E text = true →
       Main.get_dominant_emotion (classify_emotion text chat_history) = Some E
       ∧ ∃ p, get E (classify_emotion text chat_history) = Some p ∧ dec 0.5 <= p).
Proof.
  intros H.
  destruct (H ascii_unicode decimal_builtins unavailable_model
              (lit "I love it but I am sad") [] "joy") as [Hdom _].
  - by vm_compute.
  - vm_compute in Hdom. discriminate.
Qed.

(** C3 (amended): when a keyword bound to [E] matches the lower-cased text
    and no keyword bound to an emotion placed before [E] in the priority
    order of the detector matches, the label of highest probability is [E]
    and its probability is at least 0.5, whatever the generative model does. *)
Theorem keyword_dominant {U : Unicode} {B : Builtins} {G : GenerativeModel}
    text chat_history i E :
  emotion_priority !! i = Some E →
  emotion_keyword_match E text = true →
  Forall (λ E', emotion_keyword_match E' text = false) (take i emotion_priority) →
  Main.get_dominant_emotion (classify_emotion text chat_history) = Some E
  ∧ ∃ p, get E (classify_emotion text chat_history) = Some p ∧ dec 0.5 <= p.
Proof.
  intros Hi Hm Hbefore.
  assert (HE : E ∈ detectable) by (eapply list_elem_of_lookup_2; exact Hi).
  assert (Hsig : _has_emotion_signal text = (true, E)).
  { apply (detector_keyword text i E Hi Hm). intros j E' Hj HE'.
    rewrite Forall_forall in Hbefore. apply Hbefore.
    apply list_elem_of_lookup. exists j. by rewrite lookup_take_lt. }
  rewrite (classify_keyword text chat_history E Hsig).
  - by apply keyword_distribution_dominant.
  - revert HE. unfold detectable.
    intros HE. repeat (apply elem_of_cons in HE as [->|HE]; [by_compute|]).
    by apply elem_of_nil in HE.
Qed.

Lemma keyword_dominant_witness :
  emotion_priority !! 1%nat = Some "anger"
  ∧ @emotion_keyword_match ascii_unicode "anger" (lit "I'm FURIOUS about this!") = true
  ∧ Forall (λ E', @emotion_keyword_match ascii_unicode E' (lit "I'm FURIOUS about this!")
                  = false) (take 1 emotion_priority)
  ∧ Main.get_dominant_emotion
      (@classify_emotion ascii_unicode decimal_builtins unavailable_model
         (lit "I'm FURIOUS about this!") []) = Some "anger"
  ∧ ∃ p, get "anger" (@classify_emotion ascii_unicode decimal_builtins unavailable_model
                        (lit "I'm FURIOUS about this!") []) = Some p ∧ dec 0.5 <= p.
Proof.
  split; [reflexivity|]. split; [vm_compute; reflexivity|].
  split; [repeat constructor|].
  apply (@keyword_dominant ascii_unicode decimal_builtins unavailable_model
           (lit "I'm FURIOUS about this!") [] 1%nat "anger").
  - reflexivity.
  - vm_compute; reflexivity.
  - repeat constructor.
Defined.

(** C4, as stated, fails: for "gross" the detector names disgust, and anger
    gets 0.12 before the division, not 0.02 + 0.12. *)
Lemma boost_not_added :
  ¬ (∀ (U : Unicode) (B : Builtins) (G : GenerativeModel) text chat_history L,
       _has_emotion_signal text = (true, L) → L ∈ EMOTIONS →
       classify_emotion text chat_history = renormalise (boosted_assignment L)).
Proof.
  intros H.
  specialize (H ascii_unicode decimal_builtins unavailable_model
                (lit "gross") [] "disgust").
  apply (f_equal (λ d, this <$> get "anger" d)) in H.
  - vm_compute in H. discriminate.
  - by vm_compute.
  - by_compute.
Qed.

(** C4 (amended): when the detector names an emotion label [L], the
    classifier returns the assignment in which [L] has 0.80, neutral 0.01
    and every other label 0.02, except that the secondary label has the
    fixed amount in place of 0.02 (anger 0.12 for disgust, disgust 0.08 for
    anger, fear 0.05 for sadness), divided by its total. *)
Theorem keyword_distribution_spec {U : Unicode} {B : Builtins} {G : GenerativeModel}
    text chat_history L :
  _has_emotion_signal text = (true, L) → L ∈ EMOTIONS →
  classify_emotion text chat_history = renormalise (replaced_assignment L).
Proof.
  intros Hsig HL. rewrite (classify_keyword text chat_history L Hsig HL).
  apply keyword_distribution_replaced. by apply (detector_label_detectable text).
Qed.

Lemma keyword_distribution_spec_witness :
  @_has_emotion_signal ascii_unicode (lit "gross") = (true, "disgust")
  ∧ "disgust" ∈ EMOTIONS
  ∧ @classify_emotion ascii_unicode decimal_builtins unavailable_model (lit "gross") []
    = renormalise (replaced_assignment "disgust").
Proof.
  split; [vm_compute; reflexivity|]. split; [by_compute|].
  apply (@keyword_distribution_spec ascii_unicode decimal_builtins unavailable_model
           (lit "gross") [] "disgust").
  - vm_compute; reflexivity.
  - by_compute.
Defined.

Lemma classify_sarcasm {U : Unicode} {B : Builtins} {G : GenerativeModel}
    text chat_history :
  any_keyword_match text = false → any_emoji_match text = false →
  sarcasm_match text = true →
  classify_emotion text chat_history = sarcasm_table.
Proof.
  intros Hk He Hs. by rewrite (classify_no_label text chat_history Hk He), Hs.
Qed.

(** C5: a text without keyword or emoji match that matches a sarcasm pattern
    gets the fixed distribution with anger 0.5, disgust 0.2 and 0.05 for
    each other label, neutral included; anger is its highest label. *)
Theorem sarcasm_distribution_spec {U : Unicode} {B : Builtins} {G : GenerativeModel}
    text chat_history :
  any_keyword_match text = false → any_emoji_match text = false →
  sarcasm_match text = true →
  classify_emotion text chat_history
  = [("joy", dec 0.05); ("sadness", dec 0.05); ("anger", dec 0.5);
     ("fear", dec 0.05); ("surprise", dec 0.05); ("stress", dec 0.05);
     ("tension", dec 0.05); ("disgust", dec 0.2); ("anticipation", dec 0.05);
     ("neutral", dec 0.05)]
  ∧ Main.get_dominant_emotion (classify_emotion text chat_history) = Some "anger"
  ∧ dec 0.2 < dec 0.5 ∧ dec 0.05 < dec 0.2.
Proof.
  intros Hk He Hs. rewrite (classify_sarcasm text chat_history Hk He Hs).
  split; [reflexivity|]. split; [by vm_compute|]. by split; by_compute.
Qed.

Lemma sarcasm_distribution_spec_witness :
  @any_keyword_match ascii_unicode (lit "Yeah great job... not.") = false
  ∧ any_emoji_match (lit "Yeah great job... not.") = false
  ∧ @sarcasm_match ascii_unicode (lit "Yeah great job... not.") = true
  ∧ Main.get_dominant_emotion
      (@classify_emotion ascii_unicode decimal_builtins unavailable_model
         (lit "Yeah great job... not.") []) = Some "anger".
Proof.
  split; [vm_compute; reflexivity|]. split; [vm_compute; reflexivity|].
  split; [vm_compute; reflexivity|].
  apply (@sarcasm_distribution_spec ascii_unicode decimal_builtins unavailable_model
           (lit "Yeah great job... not.") []); vm_compute; reflexivity.
Defined.

(** C1 (defect): on "Yeah great job... not." the classifier returns the ten
    labels with a total of 1.1, outside 1.0 ± 0.01, whatever the model and
    the float parser are. *)
Theorem sarcasm_total (B : Builtins) (G : GenerativeModel) :
  let d := @classify_emotion ascii_unicode B G (lit "Yeah great job... not.") [] in
  keys d = EMOTIONS ∧ sum (values d) = dec 1.1 ∧ ¬ is_distribution d.
Proof.
  assert (Hd : @classify_emotion ascii_unicode B G (lit "Yeah great job... not.") []
               = sarcasm_table).
  { apply (@classify_sarcasm ascii_unicode B G); vm_compute; reflexivity. }
  cbv zeta. rewrite Hd. split; [reflexivity|]. split.
  - apply Qc_this_inj. by vm_compute.
  - intros (_ & _ & Hle). revert Hle. apply Qclt_not_le. by_compute.
Qed.
End ClassifierPaths.

(** ** Keyword matching *)

Section KeywordMatching.
Import Py ModelAdapter Spec.
Context {U : Unicode}.

Lemma starts_with_spec (p s : str) :
  starts_with p s = true ↔ ∃ post, s = p ++ post.
Proof.
  revert s. induction p as [|a p IH]; intros s; simpl.
  - split; [by exists s|done].
  - destruct s as [|b s].
    + split; [done|]. by intros [post ?].
    + rewrite andb_true_iff, N.eqb_eq, IH. split.
      * intros [-> [post ->]]. by exists post.
      * intros [post [= -> ->]]. split; [done|by exists post].
Qed.

Lemma matches_escape (s : str) (p : Re.pos) :
  Re.matches_at (Re.escape s) p = starts_with s p.2.
Proof.
  revert p. induction s as [|c s IH]; intros [prev t]; [done|].
  unfold Re.matches_at in *. simpl.
  destruct t as [|c' t]; simpl; [done|].
  destruct (c =? c')%N; simpl; [|done].
  rewrite app_nil_r. apply (IH (Some c', t)).
Qed.

Lemma matches_boundary r (p : Re.pos) :
  Re.matches_at (Re.Cat Re.Boundary r) p
  = xorb (Re.word_before p) (Re.word_after p) && Re.matches_at r p.
Proof.
  unfold Re.matches_at. simpl.
  destruct (xorb _ _); simpl; [by rewrite app_nil_r|done].
Qed.

Lemma existsb_positions (f : Re.pos → bool) prev (s : str) :
  existsb f (Re.positions prev s) = true ↔
  ∃ pre post, s = pre ++ post ∧ f (from_option Some prev (last pre), post) = true.
Proof.
  revert prev. induction s as [|c s IH]; intros prev; simpl.
  - rewrite orb_false_r. split.
    + intros H. by exists [], [].
    + intros (pre & post & Heq & H). symmetry in Heq.
      apply app_eq_nil in Heq as [-> ->]. done.
  - rewrite orb_true_iff, IH. split.
    + intros [H|(pre & post & -> & H)].
      * by exists [], (c :: s).
      * exists (c :: pre), post. split; [done|].
        rewrite last_cons. by destruct (last pre).
    + intros ([|c' pre] & post & Heq & H).
      * left. simpl in *. by subst post.
      * right. injection Heq as -> ->. exists pre, post. split; [done|].
        rewrite last_cons in H. by destruct (last pre).
Qed.

(** A keyword that starts with a word character is found exactly where an
    occurrence of it is at the start of the text or follows a non-word
    character; what follows the occurrence is not looked at. *)
Lemma keyword_match_iff keyword text_lower c :
  head (lit keyword) = Some c → Re.is_word c = true →
  keyword_match keyword text_lower = true ↔
  ∃ pre post, text_lower = pre ++ lit keyword ++ post
              ∧ from_option Re.is_word false (last pre) = false.
Proof.
  intros Hc Hw. unfold keyword_match, Re.search. rewrite existsb_positions.
  split.
  - intros (pre & rest & -> & H). rewrite matches_boundary, matches_escape in H.
    apply andb_true_iff in H as [Hx Hs]. simpl in Hs.
    apply starts_with_spec in Hs as [post ->].
    exists pre, post. split; [done|].
    unfold Re.word_before, Re.word_after in Hx. simpl in Hx.
    destruct (lit keyword) as [|c' kw]; [done|]. injection Hc as ->.
    simpl in Hx. rewrite Hw in Hx.
    revert Hx. destruct (last pre) as [n|]; cbn [from_option]; [by destruct (Re.is_word n)|done].
  - intros (pre & post & -> & H). exists pre, (lit keyword ++ post).
    split; [done|]. rewrite matches_boundary, matches_escape.
    apply andb_true_iff. split.
    + unfold Re.word_before, Re.word_after. simpl.
      destruct (lit keyword) as [|c' kw]; [done|]. injection Hc as ->.
      simpl. rewrite Hw.
      revert H. destruct (last pre) as [n|]; cbn [from_option]; [by intros ->|done].
    + simpl. apply starts_with_spec. by exists post.
Qed.
End KeywordMatching.

Section KeywordClaims.
Import Py ModelAdapter Spec.

(** C2, as stated, fails: "madness" holds the keyword "mad" of anger only
    inside a longer word, and the keyword matches. *)
Lemma prefix_of_word_matches :
  ¬ (∀ (U : Unicode) emotion keyword text,
       keyword ∈ default [] (get emotion EMOTION_KEYWORDS) →
       keyword_match keyword (lower text) = true →
       whole_word_match keyword (lower text) = true).
Proof.
  intros H.
  specialize (H ascii_unicode "anger" "mad" (lit "madness")).
  assert (Hfalse : @whole_word_match ascii_unicode "mad"
                     (@lower ascii_unicode (lit "madness")) = false)
    by (vm_compute; reflexivity).
  rewrite H in Hfalse; [discriminate|by_compute|vm_compute; reflexivity].
Qed.

(** C2 (amended): a keyword, which starts with a word character, matches
    exactly when the lower-cased text holds an occurrence of it that is at
    the start of the text or follows a non-word character; the characters
    after the occurrence are not constrained, so that the keyword also
    matches as the beginning of a longer word. *)
Theorem keyword_match_spec {U : Unicode} keyword text c :
  head (lit keyword) = Some c → Re.is_word c = true →
  keyword_match keyword (lower text) = true ↔
  ∃ pre post, lower text = pre ++ lit keyword ++ post
              ∧ from_option Re.is_word false (last pre) = false.
Proof. apply keyword_match_iff. Qed.

Lemma keyword_match_spec_witness :
  head (lit "mad") = Some 109%N ∧ @Re.is_word ascii_unicode 109 = true
  ∧ (@keyword_match ascii_unicode "mad" (@lower ascii_unicode (lit "So madness")) = true ↔
     ∃ pre post, @lower ascii_unicode (lit "So madness") = pre ++ lit "mad" ++ post
                 ∧ from_option (@Re.is_word ascii_unicode) false (last pre) = false).
Proof.
  split; [reflexivity|]. split; [reflexivity|].
  apply (@keyword_match_spec ascii_unicode "mad" (lit "So madness") 109%N); reflexivity.
Defined.

(** The stem "frustrat" finds "frustrated"; "mad" finds "madness", which the
    detector then reports as anger, and does not find "nomad"; a keyword
    "cat" would find "cats". *)
Example keyword_examples :
  @keyword_match ascii_unicode "frustrat"
    (@lower ascii_unicode (lit "I'm so frustrated with this!")) = true
  ∧ @_has_emotion_signal ascii_unicode (lit "madness") = (true, "anger")
  ∧ @keyword_match ascii_unicode "mad" (lit "nomad") = false
  ∧ @keyword_match ascii_unicode "cat" (lit "cats") = true
  ∧ @whole_word_match ascii_unicode "cat" (lit "cats") = false.
Proof. by vm_compute. Qed.

(** In "I love it but I am sad" the keyword "love" of joy stands as a whole
    word, and the detector reports sadness. *)
Example outranked_keyword :
  @whole_word_match ascii_unicode "love"
    (@lower ascii_unicode (lit "I love it but I am sad")) = true
  ∧ @_has_emotion_signal ascii_unicode (lit "I love it but I am sad")
    = (true, "sadness").
Proof. by vm_compute. Qed.
End KeywordClaims.

(** ** The first maximal element *)

Section MaxFacts.
Import Py.
Context {A B : Type} (lt : B → B → bool) (key : A → B).
Hypothesis lt_asym : ∀ a b, lt a b = true → lt b a = false.
Hypothesis le_lt_trans : ∀ a b c, lt b a = false → lt b c = true → lt a c = true.

Lemma max_from_split l : ∀ l1 best mid,
  (∀ y, y ∈ l1 → lt (key y) (key best) = true) →
  (∀ y, y ∈ mid → lt (key best) (key y) = false) →
  ∃ l1' l2', l1 ++ best :: mid ++ l = l1' ++ max_from lt key best l :: l2'
    ∧ (∀ y, y ∈ l1' → lt (key y) (key (max_from lt key best l)) = true)
    ∧ (∀ y, y ∈ l2' → lt (key (max_from lt key best l)) (key y) = false).
Proof using lt_asym le_lt_trans.
  induction l as [|x l IH]; intros l1 best mid H1 Hmid; simpl.
  - exists l1, mid. by rewrite app_nil_r.
  - destruct (lt (key best) (key x)) eqn:Hlt.
    + destruct (IH (l1 ++ best :: mid) x []) as (l1' & l2' & Heq & Hl & Hr).
      * intros y Hy. apply elem_of_app in Hy as [Hy|Hy].
        { apply (le_lt_trans _ (key best)); [|done]. apply lt_asym. by apply H1. }
        apply elem_of_cons in Hy as [->|Hy]; [done|].
        apply (le_lt_trans _ (key best)); [|done]. by apply Hmid.
      * intros y Hy. by apply elem_of_nil in Hy.
      * exists l1', l2'. split; [|done]. rewrite <- Heq. simpl.
        by rewrite <- app_assoc.
    + destruct (IH l1 best (mid ++ [x])) as (l1' & l2' & Heq & Hl & Hr).
      * done.
      * intros y Hy. apply elem_of_app in Hy as [Hy|Hy]; [by apply Hmid|].
        apply list_elem_of_singleton in Hy as ->. done.
      * exists l1', l2'. split; [|done]. rewrite <- Heq.
        by rewrite <- app_assoc.
Qed.

(** [max] returns the first of the elements whose key is maximal *)
Lemma max_by_split l m :
  max_by lt key l = Some m →
  ∃ l1 l2, l = l1 ++ m :: l2
    ∧ (∀ y, y ∈ l1 → lt (key y) (key m) = true)
    ∧ (∀ y, y ∈ l2 → lt (key m) (key y) = false).
Proof using lt_asym le_lt_trans.
  destruct l as [|x l]; [done|]. simpl. intros [= <-].
  destruct (max_from_split l [] x []) as (l1 & l2 & Heq & Hl & Hr).
  - intros y Hy. by apply elem_of_nil in Hy.
  - intros y Hy. by apply elem_of_nil in Hy.
  - by exists l1, l2.
Qed.
End MaxFacts.

Section MaxInstances.
Import Py.

Lemma max_from_fmap {A B} (lt : B → B → bool) (key : A → B) l : ∀ best,
  max_from lt id (key best) (key <$> l) = key (max_from lt key best l).
Proof.
  induction l as [|x l IH]; intros best; simpl; [done|].
  rewrite <- IH. unfold id. by destruct (lt (key best) (key x)).
Qed.

Lemma max_by_fmap {A B} (lt : B → B → bool) (key : A → B) l :
  max_by lt id (key <$> l) = key <$> max_by lt key l.
Proof. destruct l as [|x l]; simpl; [done|]. f_equal. apply max_from_fmap. Qed.

Lemma Qc_ltb_asym a b : Qc_ltb a b = true → Qc_ltb b a = false.
Proof.
  rewrite Qc_ltb_lt. intros H. apply bool_decide_eq_false.
  apply Qcle_not_lt. by apply Qclt_le_weak.
Qed.

Lemma Qc_ltb_le_lt a b c : Qc_ltb b a = false → Qc_ltb b c = true → Qc_ltb a c = true.
Proof.
  intros H1 H2. apply bool_decide_eq_false in H1. apply Qc_ltb_lt in H2.
  apply Qc_ltb_lt. apply Qcle_lt_trans with b; [by apply Qcnot_lt_le|done].
Qed.

Lemma ltb_asym (a b : nat) : (a <? b)%nat = true → (b <? a)%nat = false.
Proof. rewrite Nat.ltb_lt, Nat.ltb_ge. lia. Qed.

Lemma ltb_le_lt (a b c : nat) :
  (b <? a)%nat = false → (b <? c)%nat = true → (a <? c)%nat = true.
Proof. rewrite !Nat.ltb_lt, Nat.ltb_ge. lia. Qed.

(** The winner of [max] over floats is an element that no element exceeds *)
Lemma max_by_Qc_spec {A} (key : A → Qc) l m :
  max_by Qc_ltb key l = Some m → m ∈ l ∧ ∀ y, y ∈ l → key y <= key m.
Proof.
  intros H.
  destruct (max_by_split Qc_ltb key Qc_ltb_asym Qc_ltb_le_lt l m H)
    as (l1 & l2 & -> & Hl & Hr).
  split; [set_solver|]. intros y Hy.
  apply elem_of_app in Hy as [Hy|Hy].
  - apply Qclt_le_weak, Qc_ltb_lt. by apply Hl.
  - apply elem_of_cons in Hy as [->|Hy]; [apply Qcle_refl|].
    apply Qcnot_lt_le. apply (bool_decide_eq_false (key m < key y)). by apply Hr.
Qed.
End MaxInstances.

(** ** The anti-neutral correction *)

Section AntiNeutral.
Import Py ModelAdapter Spec.

Lemma elem_of_filter_keys {V} (p : string → bool) (d : dict V) k v :
  (k, v) ∈ d → p k = true → (k, v) ∈ filter_keys p d.
Proof.
  intros Hin Hp. apply list_elem_of_In. apply filter_In. split; [|done].
  by apply list_elem_of_In.
Qed.

(** A dictionary whose keys are the ten labels in their order *)
Lemma emotions_shape {V} (d : dict V) :
  keys d = EMOTIONS →
  ∃ v1 v2 v3 v4 v5 v6 v7 v8 v9 v10,
    d = [("joy", v1); ("sadness", v2); ("anger", v3); ("fear", v4); ("surprise", v5);
         ("stress", v6); ("tension", v7); ("disgust", v8); ("anticipation", v9);
         ("neutral", v10)].
Proof.
  unfold keys, EMOTIONS. intros H.
  do 10 (destruct d as [|[? ?] d]; [discriminate|]; simpl in H; injection H as -> H).
  destruct d; [|discriminate]. by do 10 eexists.
Qed.

Lemma anti_neutral_cases (d : dict Qc) :
  keys d = EMOTIONS →
  ∃ m vm vn,
    m ∈ EMOTIONS ∧ m ≠ "neutral" ∧ get m d = Some vm ∧ get "neutral" d = Some vn
    ∧ (∀ k v, k ≠ "neutral" → get k d = Some v → v <= vm)
    ∧ anti_neutral d
      = Some (if bool_decide (dec 0.5 < vn ∧ dec 0.30 <= vm) then corrected m else d).
Proof.
  intros Hkeys.
  destruct (emotions_shape d Hkeys) as (v1&v2&v3&v4&v5&v6&v7&v8&v9&v10&->).
  clear Hkeys.
  set (d := [("joy", v1); ("sadness", v2); ("anger", v3); ("fear", v4);
             ("surprise", v5); ("stress", v6); ("tension", v7); ("disgust", v8);
             ("anticipation", v9); ("neutral", v10)]).
  set (nn := filter_keys (λ k, bool_decide (k ≠ "neutral")) d).
  assert (Hnn : nn = [("joy", v1); ("sadness", v2); ("anger", v3); ("fear", v4);
                      ("surprise", v5); ("stress", v6); ("tension", v7);
                      ("disgust", v8); ("anticipation", v9)]) by reflexivity.
  destruct (max_by Qc_ltb snd nn) as [[m vm]|] eqn:Hmax; [|by rewrite Hnn in Hmax].
  destruct (max_by_Qc_spec snd nn (m, vm) Hmax) as [Hin Hall].
  assert (Hmaxd : ∀ k v, k ≠ "neutral" → get k d = Some v → v <= vm).
  { intros k v Hk Hget. apply (Hall (k, v)).
    apply elem_of_filter_keys; [by apply get_elem_of|by apply bool_decide_eq_true]. }
  assert (Hrun : anti_neutral d
                 = if Qc_ltb (dec 0.5) v10 && Qc_leb (dec 0.30) vm
                   then Some (foldl (λ d0 emotion,
                                if bool_decide (emotion ∉ [m; "neutral"])
                                then set emotion (dec 0.2 / of_nat (length EMOTIONS - 2)) d0
                                else d0)
                              (set "neutral" (dec 0.2) (set m (dec 0.6) d))
                              (keys (set "neutral" (dec 0.2) (set m (dec 0.6) d))))
                   else Some d).
  { unfold anti_neutral. cbv zeta. unfold argmax. fold nn.
    change (values nn) with (snd <$> nn). rewrite max_by_fmap, Hmax.
    reflexivity. }
  exists m, vm, v10. rewrite Hrun. unfold Qc_ltb, Qc_leb.
  rewrite <- bool_decide_and. clear Hrun Hmax Hall.
  rewrite Hnn in Hin.
  repeat (apply elem_of_cons in Hin as [[= -> ->]|Hin];
    [split; [by_compute|]; split; [done|]; split; [reflexivity|];
     split; [reflexivity|]; split; [exact Hmaxd|];
     destruct (bool_decide _); [|done];
     f_equal; apply dict_raw_inj; vm_compute; reflexivity|]).
  by apply elem_of_nil in Hin.
Qed.

Lemma keys_comprehension {V} (f : string → V) : keys (comprehension EMOTIONS f) = EMOTIONS.
Proof. reflexivity. Qed.

Section Parser.
Context {U : Unicode} {B : Builtins}.

Lemma parse_pair_keys d item d' :
  keys d = EMOTIONS → parse_pair d item = Some d' → keys d' = EMOTIONS.
Proof.
  intros Hd. unfold parse_pair. destruct (has_char 58 item); [|by intros [= <-]].
  destruct (split 58 item) as [|emotion [|prob [|? ?]]]; try done.
  destruct (float (strip prob)) as [x|]; simpl; [|done].
  destruct (label_of (strip emotion)) as [l|] eqn:Hl; intros [= <-]; [|done].
  rewrite keys_set_known; [done|]. rewrite Hd.
  apply find_some in Hl as [Hin _]. by apply list_elem_of_In.
Qed.

Lemma parse_pairs_keys pairs : ∀ d d',
  keys d = EMOTIONS → parse_pairs d pairs = Some d' → keys d' = EMOTIONS.
Proof.
  induction pairs as [|item pairs IH]; intros d d' Hd; simpl; [by intros [= <-]|].
  destruct (parse_pair d item) as [d1|] eqn:H1; simpl; [|done].
  apply IH. by apply (parse_pair_keys d item).
Qed.

Lemma parse_keys response_text :
  keys (_parse_emotion_response response_text) = EMOTIONS.
Proof.
  unfold _parse_emotion_response.
  destruct (parse_pairs _ _) as [d|] eqn:Hd; [|reflexivity].
  destruct (Qc_ltb 0 _); [|reflexivity].
  rewrite keys_map_values. by apply (parse_pairs_keys _ _ _ (keys_comprehension _) Hd).
Qed.
End Parser.

(** C6: on a distribution over the ten labels, as the parser returns, let
    [m] be the first label other than neutral of maximal value [vm] and [vn]
    the value of neutral. When [vn > 0.5] and [vm >= 0.30] the correction
    returns 0.6 for [m], 0.2 for neutral and 0.025 for each of the other
    eight labels; otherwise it returns the distribution unchanged. *)
Theorem anti_neutral_spec (d : dict Qc) :
  keys d = EMOTIONS →
  ∃ m vm vn,
    m ∈ EMOTIONS ∧ m ≠ "neutral" ∧ get m d = Some vm ∧ get "neutral" d = Some vn
    ∧ (∀ k v, k ≠ "neutral" → get k d = Some v → v <= vm)
    ∧ anti_neutral d
      = Some (if bool_decide (dec 0.5 < vn ∧ dec 0.30 <= vm) then corrected m else d).
Proof. apply anti_neutral_cases. Qed.

Lemma anti_neutral_spec_witness :
  keys (@_parse_emotion_response ascii_unicode decimal_builtins
          (lit "neutral: 0.6, anger: 0.4")) = EMOTIONS
  ∧ ∃ m vm vn,
      m ∈ EMOTIONS ∧ m ≠ "neutral"
      ∧ get m (@_parse_emotion_response ascii_unicode decimal_builtins
                 (lit "neutral: 0.6, anger: 0.4")) = Some vm
      ∧ get "neutral" (@_parse_emotion_response ascii_unicode decimal_builtins
                         (lit "neutral: 0.6, anger: 0.4")) = Some vn
      ∧ (∀ k v, k ≠ "neutral" →
           get k (@_parse_emotion_response ascii_unicode decimal_builtins
                    (lit "neutral: 0.6, anger: 0.4")) = Some v → v <= vm)
      ∧ anti_neutral (@_parse_emotion_response ascii_unicode decimal_builtins
                        (lit "neutral: 0.6, anger: 0.4"))
        = Some (if bool_decide (dec 0.5 < vn ∧ dec 0.30 <= vm)
                then corrected m
                else @_parse_emotion_response ascii_unicode decimal_builtins
                       (lit "neutral: 0.6, anger: 0.4")).
Proof.
  split; [reflexivity|].
  apply (anti_neutral_spec (@_parse_emotion_response ascii_unicode decimal_builtins
                              (lit "neutral: 0.6, anger: 0.4"))).
  reflexivity.
Defined.

Example anti_neutral_fires :
  anti_neutral (@_parse_emotion_response ascii_unicode decimal_builtins
                  (lit "neutral: 0.6, anger: 0.4"))
  = Some (corrected "anger").
Proof.
  destruct (anti_neutral _) as [d|] eqn:E; vm_compute in E; [|discriminate].
  injection E as <-. f_equal. apply dict_raw_inj. by vm_compute.
Qed.
End AntiNeutral.

(** ** The chat store *)

Section StoreFacts.
Import Py Storage Spec.
Context {U : Unicode}.

Lemma tally_cons x d ds :
  tally x (d :: ds) = ((if decide (d = x) then 1 else 0) + tally x ds)%nat.
Proof. reflexivity. Qed.

Lemma tally_app x a b : tally x (a ++ b) = (tally x a + tally x b)%nat.
Proof. induction a as [|d a IH]; simpl; [done|]. rewrite IH. lia. Qed.

Lemma tally_perm x l1 l2 : l1 ≡ₚ l2 → tally x l1 = tally x l2.
Proof. induction 1; simpl; lia. Qed.

Lemma tally_absent x ds : x ∉ ds → tally x ds = 0%nat.
Proof.
  induction ds as [|d ds IH]; simpl; [done|]. intros H.
  apply not_elem_of_cons in H as [Hne H]. rewrite decide_False by done. by apply IH.
Qed.

Lemma tally_present x ds : x ∈ ds → (0 < tally x ds)%nat.
Proof.
  induction ds as [|d ds IH]; simpl; intros H; [by apply elem_of_nil in H|].
  destruct (decide (d = x)); [lia|]. apply elem_of_cons in H as [->|H]; [done|].
  apply IH in H. lia.
Qed.

Lemma tally_emotions e : e ∈ ModelAdapter.EMOTIONS → tally e ModelAdapter.EMOTIONS = 1%nat.
Proof.
  unfold ModelAdapter.EMOTIONS. intros H.
  repeat (apply elem_of_cons in H as [->|H]; [reflexivity|]).
  by apply elem_of_nil in H.
Qed.

(** The timeline loop succeeds when the timeline has every label of the
    message, and extends the list of a label once per occurrence. *)
Lemma update_timeline_spec items : ∀ timeline,
  (∀ k, k ∈ items.*1 → is_Some (timeline !! k)) →
  ∃ timeline', update_timeline timeline items = (timeline', Return ())
    ∧ ∀ e l, timeline !! e = Some l →
        ∃ l', timeline' !! e = Some l' ∧ length l' = (length l + tally e items.*1)%nat.
Proof.
  induction items as [|[k p] items IH]; intros timeline H.
  - exists timeline. split; [done|]. intros e l He. exists l. split; [done|simpl; lia].
  - cbn [update_timeline].
    destruct (H k) as [l0 Hl0]; [apply list_elem_of_here|]. rewrite Hl0.
    destruct (IH (<[k := l0 ++ [p]]> timeline)) as (timeline' & Hrun & Hlen).
    { intros k' Hk'. apply lookup_insert_is_Some'. right. apply H.
      by apply list_elem_of_further. }
    exists timeline'. split; [done|]. intros e l He.
    destruct (decide (k = e)) as [->|Hne].
    + rewrite Hl0 in He. injection He as <-.
      destruct (Hlen e (l0 ++ [p])) as (l' & Hl' & Hn); [apply lookup_insert_eq|].
      exists l'. split; [done|]. rewrite Hn, length_app.
      change (((e, p) :: items).*1) with (e :: items.*1).
      rewrite tally_cons, decide_True by done. simpl (length [p]). lia.
    + destruct (Hlen e l) as (l' & Hl' & Hn); [by rewrite lookup_insert_ne|].
      exists l'. split; [done|]. rewrite Hn.
      change (((k, p) :: items).*1) with (k :: items.*1).
      rewrite tally_cons, decide_False by done. lia.
Qed.

Lemma set_nonempty {V} k (v : V) d : set k v d ≠ [].
Proof. destruct d as [|[k' v'] d]; simpl; [done|]. by destruct (decide (k = k')). Qed.

Lemma count_votes_nonempty msgs : ∀ c : dict nat,
  c ≠ [] →
  foldl (λ counts msg,
           set (dominant msg) (default 0%nat (get (dominant msg) counts) + 1)%nat counts)
        c msgs ≠ [].
Proof.
  induction msgs as [|m msgs IH]; intros c Hc; [done|].
  cbn [foldl]. apply IH. apply set_nonempty.
Qed.

Lemma emotion_counts_nonempty msgs : msgs ≠ [] → emotion_counts msgs ≠ [].
Proof.
  unfold emotion_counts. destruct msgs as [|m msgs]; [done|]. intros _.
  cbn [foldl]. apply count_votes_nonempty. apply set_nonempty.
Qed.

Lemma update_dominant_run s chat_id chat :
  chats s !! chat_id = Some chat → messages chat ≠ [] →
  ∃ d n, max_by Nat.ltb snd (emotion_counts (messages chat)) = Some (d, n)
    ∧ _update_dominant_emotion s chat_id
      = (with_chat s chat_id (with_meta chat (set_dominant_emotion (meta chat) d)),
         Return ()).
Proof.
  intros Hchat Hmsgs. unfold _update_dominant_emotion. rewrite Hchat.
  pose proof (emotion_counts_nonempty _ Hmsgs) as Hc.
  destruct (messages chat) as [|m msgs] eqn:Hm; [done|].
  destruct (max_by Nat.ltb snd (emotion_counts (m :: msgs))) as [[d n]|] eqn:Hmax.
  - by exists d, n.
  - by destruct (emotion_counts (m :: msgs)).
Qed.

(** What [add_message] does when the timeline loop succeeds *)
Lemma add_message_run s timestamp chat_id speaker text probs dominant entropy
    confidence chat timeline' :
  chats s !! chat_id = Some chat →
  update_timeline (emotionTimeline chat) probs = (timeline', Return ()) →
  let msg := {| id := (length (messages chat) + 1)%nat; speaker := speaker;
                text := text; ts := timestamp; probs := probs;
                dominant := dominant; entropy := entropy;
                confidence := confidence |} in
  let res := add_message s timestamp chat_id speaker text probs dominant entropy
               confidence in
  ∃ d n chat',
    max_by Nat.ltb snd (emotion_counts (messages chat ++ [msg])) = Some (d, n)
    ∧ res.2 = Return ()
    ∧ chats res.1 = <[chat_id := chat']> (chats s)
    ∧ messages chat' = messages chat ++ [msg]
    ∧ emotionTimeline chat' = timeline'
    ∧ messageCount (meta chat') = length (messages chat ++ [msg])
    ∧ dominant_emotion (meta chat') = d.
Proof.
  intros Hchat Hrun msg res. subst res. unfold add_message.
  rewrite Hchat, Hrun. fold msg.
  set (chat1 := {| meta := _; messages := messages chat ++ [msg];
                   emotionTimeline := timeline' |}).
  destruct (update_dominant_run (with_chat s chat_id chat1) chat_id chat1)
    as (d & n & Hmax & Hupd).
  { apply lookup_insert_eq. }
  { simpl. by destruct (messages chat). }
  rewrite Hupd. simpl. rewrite lookup_insert_eq.
  exists d, n.
  destruct (bool_decide (speaker = "user") && bool_decide _); simpl;
    eexists; (split; [exact Hmax|]); (split; [done|]);
    (split; [by rewrite !insert_insert_eq|]); done.
Qed.

Lemma add_message_missing s timestamp chat_id speaker text probs dominant entropy
    confidence :
  chats s !! chat_id = None →
  add_message s timestamp chat_id speaker text probs dominant entropy confidence
  = (s, Raise ValueError).
Proof. intros H. unfold add_message. by rewrite H. Qed.
End StoreFacts.

(** ** The summary of an empty chat and the timeline invariant *)

Section StoreClaims.
Import Py Storage Spec.

(** C9: for a chat that exists and has no message, the summary has
    confidence 0.0, dominant emotion neutral, the score 0.1 for each of the
    ten labels and the text "No messages yet." when a text is asked for;
    the store is left as it was. *)
Theorem empty_chat_summary s now chat_id include_summary_text :
  messages <$> chats s !! chat_id = Some [] →
  get_emotion_summary s now chat_id include_summary_text
  = (s, Return (Some
       {| sum_chatId := chat_id; sum_id := chat_id;
          sum_dominant_emotion := "neutral";
          scores := [("joy", dec 0.1); ("sadness", dec 0.1); ("anger", dec 0.1);
                     ("fear", dec 0.1); ("surprise", dec 0.1); ("stress", dec 0.1);
                     ("tension", dec 0.1); ("disgust", dec 0.1);
                     ("anticipation", dec 0.1); ("neutral", dec 0.1)];
          sum_confidence := 0;
          summary_text := if include_summary_text
                          then Some (lit "No messages yet.") else None;
          generatedAt := now |})).
Proof.
  intros H. unfold get_emotion_summary.
  destruct (chats s !! chat_id) as [chat|]; [|done].
  simpl in H. injection H as ->. reflexivity.
Qed.

Lemma empty_chat_summary_witness :
  messages <$> chats (@create_chat ascii_unicode init "c1" "t0" "u1" None).1 !! "c1"
  = Some []
  ∧ (get_emotion_summary (@create_chat ascii_unicode init "c1" "t0" "u1" None).1
       "t1" "c1" true).2
    = Return (Some
       {| sum_chatId := "c1"; sum_id := "c1"; sum_dominant_emotion := "neutral";
          scores := placeholder_scores; sum_confidence := 0;
          summary_text := Some (lit "No messages yet."); generatedAt := "t1" |}).
Proof.
  split; [reflexivity|].
  rewrite (empty_chat_summary (@create_chat ascii_unicode init "c1" "t0" "u1" None).1
             "t1" "c1" true); reflexivity.
Defined.

Context {U : Unicode}.

Lemma new_chat_consistent chat_id created_at user_id (snippet title : str) :
  timeline_consistent
    {| meta := {| chatId := chat_id; meta_id := chat_id; userId := user_id;
                  title := title; createdAt := created_at;
                  lastUpdatedAt := created_at; snippet := snippet;
                  dominant_emotion := "neutral"; messageCount := 0 |};
       messages := [];
       emotionTimeline := list_to_map ((λ e, (e, [])) <$> Models.EmotionType) |}.
Proof.
  split; [done|]. simpl. unfold ModelAdapter.EMOTIONS. intros e He. exists [].
  split; [|done].
  repeat (apply elem_of_cons in He as [->|He]; [reflexivity|]).
  by apply elem_of_nil in He.
Qed.

Lemma add_message_consistent s timestamp chat_id speaker text probs dominant entropy
    confidence :
  covers_labels probs → store_consistent s →
  store_consistent
    (add_message s timestamp chat_id speaker text probs dominant entropy confidence).1.
Proof.
  intros Hcov Hs. destruct (chats s !! chat_id) as [chat|] eqn:Hchat.
  2:{ by rewrite add_message_missing. }
  destruct (Hs chat_id chat Hchat) as [Hcount Htl].
  assert (Hkeys : ∀ k, k ∈ probs.*1 → k ∈ ModelAdapter.EMOTIONS).
  { intros k Hk. unfold covers_labels, keys in Hcov. by rewrite <- Hcov. }
  destruct (update_timeline_spec probs (emotionTimeline chat)) as (tl' & Hrun & Hlen).
  { intros k Hk. destruct (Htl k (Hkeys k Hk)) as (l & Hl & _). by eexists. }
  destruct (add_message_run s timestamp chat_id speaker text probs dominant entropy
              confidence chat tl' Hchat Hrun)
    as (d & n & chat' & _ & _ & Hchats & Hmsgs & Htl' & Hcount' & _).
  unfold store_consistent. rewrite Hchats. apply map_Forall_insert_2; [|done].
  split; [by rewrite Hcount', Hmsgs|].
  intros e He. destruct (Htl e He) as (l & Hl & Hn).
  destruct (Hlen e l Hl) as (l' & Hl' & Hn').
  exists l'. rewrite Htl'. split; [done|].
  rewrite Hn', Hmsgs, length_app, Hn.
  change (probs.*1) with (keys probs).
  rewrite (tally_perm e _ _ Hcov), (tally_emotions e He). done.
Qed.

Lemma run_consistent s c :
  well_formed c → store_consistent s → store_consistent (run s c).
Proof.
  intros Hc Hs. destruct c; simpl in *.
  - apply map_Forall_insert_2; [|done]. apply new_chat_consistent.
  - by apply add_message_consistent.
  - unfold update_chat_title. destruct (chats s !! chat_id) as [chat|] eqn:Hchat; [|done].
    simpl. apply map_Forall_insert_2; [|done]. apply (Hs chat_id chat Hchat).
  - unfold delete_chat. destruct (chats s !! chat_id) as [chat|] eqn:Hchat; [|done].
    destruct (bool_decide _); [done|].
    destruct (list_remove _ _); simpl; by apply map_Forall_delete.
  - unfold get_emotion_summary. destruct (chats s !! chat_id) as [chat|]; [|done].
    destruct (messages chat); [done|]. by destruct (argmax _).
Qed.

(** C10: in every store reached from the empty one by calls whose
    [add_message] probabilities cover exactly the ten labels, each chat has
    a message count equal to the number of its messages, and each of its
    ten timelines has that length. *)
Theorem timeline_lengths (calls : list call) :
  Forall well_formed calls →
  ∀ chat_id chat,
    chats (foldl run init calls) !! chat_id = Some chat →
    messageCount (meta chat) = length (messages chat)
    ∧ ∀ e, e ∈ ModelAdapter.EMOTIONS →
        ∃ l, emotionTimeline chat !! e = Some l ∧ length l = length (messages chat).
Proof.
  intros Hcalls.
  assert (Hok : store_consistent (foldl run init calls)).
  { assert (H0 : store_consistent init) by apply map_Forall_empty.
    revert H0. generalize init.
    induction Hcalls as [|c calls Hc _ IH]; intros s Hs; [done|].
    simpl. apply IH. by apply run_consistent. }
  intros chat_id chat Hchat. exact (Hok chat_id chat Hchat).
Qed.
End StoreClaims.

Section TimelineWitness.
Import Py Storage Spec.

Lemma timeline_lengths_witness :
  Forall well_formed sample_calls
  ∧ ∃ chat, chats (foldl (@run ascii_unicode) init sample_calls) !! "c1" = Some chat
      ∧ length (messages chat) = 1%nat
      ∧ messageCount (meta chat) = length (messages chat)
      ∧ ∀ e, e ∈ ModelAdapter.EMOTIONS →
          ∃ l, emotionTimeline chat !! e = Some l ∧ length l = length (messages chat).
Proof.
  assert (Hwf : Forall well_formed sample_calls).
  { repeat constructor. }
  split; [exact Hwf|].
  destruct (chats (foldl (@run ascii_unicode) init sample_calls) !! "c1")
    as [chat|] eqn:E.
  - exists chat. split; [reflexivity|]. split.
    + vm_compute in E. injection E as <-. reflexivity.
    + exact (@timeline_lengths ascii_unicode sample_calls Hwf "c1" chat E).
  - vm_compute in E. discriminate.
Defined.
End TimelineWitness.

(** ** The vote on the dominant emotion *)

Section Vote.
Import Py Storage Spec.

Lemma firsts_snoc ds z :
  firsts (ds ++ [z]) = if decide (z ∈ firsts ds) then firsts ds else firsts ds ++ [z].
Proof. unfold firsts. by rewrite foldl_snoc. Qed.

Lemma elem_of_firsts x ds : x ∈ firsts ds ↔ x ∈ ds.
Proof.
  induction ds as [|z ds IH] using rev_ind; [done|].
  rewrite firsts_snoc, elem_of_app, list_elem_of_singleton.
  destruct (decide (z ∈ firsts ds)) as [Hz|Hz].
  - rewrite IH. split; [by left|]. intros [?| ->]; [done|by apply IH].
  - by rewrite elem_of_app, list_elem_of_singleton, IH.
Qed.

Lemma NoDup_firsts ds : NoDup (firsts ds).
Proof.
  induction ds as [|z ds IH] using rev_ind; [constructor|].
  rewrite firsts_snoc. destruct (decide (z ∈ firsts ds)) as [Hz|Hz]; [done|].
  apply NoDup_app. split; [done|]. split; [|apply NoDup_singleton].
  intros x Hx Hx'. apply list_elem_of_singleton in Hx' as ->. done.
Qed.

Lemma get_keyed {V} (g : string → V) z (F : list string) :
  get z ((λ x, (x, g x)) <$> F) = if decide (z ∈ F) then Some (g z) else None.
Proof.
  induction F as [|a F IH]; csimpl; [done|].
  destruct (decide (z = a)) as [->|Hne].
  - by rewrite decide_True by apply list_elem_of_here.
  - rewrite IH. destruct (decide (z ∈ F)) as [Hin|Hin].
    + by rewrite decide_True by (by apply list_elem_of_further).
    + rewrite decide_False; [done|]. intros H. by apply elem_of_cons in H as [?|?].
Qed.

Lemma set_keyed_known {V} (g : string → V) z w (F : list string) :
  NoDup F → z ∈ F →
  set z w ((λ x, (x, g x)) <$> F) = (λ x, (x, if decide (x = z) then w else g x)) <$> F.
Proof.
  induction F as [|a F IH]; intros Hnd Hin; [by apply elem_of_nil in Hin|].
  apply NoDup_cons in Hnd as [Ha Hnd]. csimpl.
  destruct (decide (z = a)) as [->|Hne].
  - rewrite decide_True by done. f_equal. apply list_fmap_ext.
    intros i x Hx. rewrite decide_False; [done|].
    intros ->. apply Ha. by apply list_elem_of_lookup_2 in Hx.
  - rewrite decide_False by done. f_equal. apply IH; [done|].
    by apply elem_of_cons in Hin as [?|?].
Qed.

Lemma set_keyed_fresh {V} (g : string → V) z w (F : list string) :
  z ∉ F → set z w ((λ x, (x, g x)) <$> F) = ((λ x, (x, g x)) <$> F) ++ [(z, w)].
Proof.
  induction F as [|a F IH]; intros Hin; csimpl; [done|].
  apply not_elem_of_cons in Hin as [Hne Hin].
  rewrite decide_False by done. f_equal. by apply IH.
Qed.

(** The counts of the vote: the labels in order of first occurrence, each
    with its number of votes *)
Lemma count_votes ds :
  foldl (λ counts d, set d (default 0%nat (get d counts) + 1)%nat counts) [] ds
  = (λ x, (x, tally x ds)) <$> firsts ds.
Proof.
  induction ds as [|z ds IH] using rev_ind; [done|].
  rewrite foldl_snoc, IH, firsts_snoc, get_keyed.
  destruct (decide (z ∈ firsts ds)) as [Hz|Hz]; csimpl.
  - rewrite set_keyed_known by (apply NoDup_firsts || done).
    apply list_fmap_ext. intros i x _. f_equal.
    rewrite tally_app. csimpl. destruct (decide (x = z)) as [->|Hne].
    + rewrite decide_True by done. lia.
    + rewrite decide_False by done. lia.
  - rewrite set_keyed_fresh by done. rewrite fmap_app. csimpl. f_equal.
    + apply list_fmap_ext. intros i x Hx. f_equal.
      rewrite tally_app. csimpl. rewrite decide_False; [lia|].
      intros ->. apply Hz. by apply list_elem_of_lookup_2 in Hx.
    + rewrite tally_app. csimpl. rewrite decide_True by done.
      rewrite tally_absent; [done|]. by rewrite <- elem_of_firsts.
Qed.

Lemma emotion_counts_dominants msgs :
  emotion_counts msgs = (λ x, (x, tally x (dominant <$> msgs))) <$> firsts (dominant <$> msgs).
Proof. rewrite <- count_votes. unfold emotion_counts. by rewrite foldl_fmap. Qed.

(** Where a label stands among the first occurrences, it stands in the list *)
Lemma firsts_split ds : ∀ F1 x F2,
  firsts ds = F1 ++ x :: F2 →
  ∃ pre post, ds = pre ++ (x :: post) ∧ (x ∉ pre) ∧ ∀ y, y ∈ pre → y ∈ F1.
Proof.
  induction ds as [|z ds IH] using rev_ind; intros F1 x F2 HF.
  - by destruct F1.
  - rewrite firsts_snoc in HF. destruct (decide (z ∈ firsts ds)) as [Hz|Hz].
    + destruct (IH F1 x F2 HF) as (pre & post & -> & Hx & Hpre).
      exists pre, (post ++ [z]). split; [by rewrite <- app_assoc|done].
    + destruct F2 as [|w F2 _] using rev_ind.
      * apply app_inj_tail in HF as [HF <-].
        exists ds, []. split; [done|]. split.
        { by rewrite <- elem_of_firsts. }
        intros y Hy. rewrite <- HF. by apply elem_of_firsts.
      * rewrite app_comm_cons, app_assoc in HF.
        apply app_inj_tail in HF as [HF <-].
        destruct (IH F1 x F2 HF) as (pre & post & -> & Hx & Hpre).
        exists pre, (post ++ [z]). split; [by rewrite <- app_assoc|done].
Qed.

(** The winner of the vote has the most votes, and more than each label
    that occurs before its first occurrence. *)
Lemma vote_first_seen msgs d n :
  max_by Nat.ltb snd (emotion_counts msgs) = Some (d, n) →
  first_seen_majority (dominant <$> msgs) d.
Proof.
  rewrite emotion_counts_dominants. set (ds := dominant <$> msgs). intros Hmax.
  destruct (max_by_split Nat.ltb snd ltb_asym ltb_le_lt _ _ Hmax)
    as (l1 & l2 & Heq & Hl & Hr).
  apply fmap_app_inv in Heq as (F1 & F' & -> & HF' & HF). symmetry in HF'.
  apply fmap_cons_inv in HF' as (x & F2 & Hx & -> & ->).
  injection Hx as Hd Hn. subst x n.
  destruct (firsts_split ds F1 d F2 HF) as (pre & post & Hds & Hd & Hpre).
  exists pre, post. split; [done|]. split; [done|]. split.
  - intros y Hy. apply Nat.ltb_lt.
    apply (Hl (y, tally y ds)). apply (list_elem_of_fmap_2 (λ x, (x, tally x ds))).
    by apply Hpre.
  - intros y Hy.
    assert (Hin : y ∈ firsts ds).
    { apply elem_of_firsts. rewrite Hds. set_solver. }
    rewrite HF in Hin. apply elem_of_app in Hin as [Hin|Hin].
    + apply Nat.lt_le_incl, Nat.ltb_lt. apply (Hl (y, tally y ds)).
      by apply (list_elem_of_fmap_2 (λ x, (x, tally x ds))).
    + apply elem_of_cons in Hin as [->|Hin]; [done|].
      apply Nat.ltb_ge. apply (Hr (y, tally y ds)).
      by apply (list_elem_of_fmap_2 (λ x, (x, tally x ds))).
Qed.
End Vote.

Section VoteClaims.
Import Py Storage Spec.

Lemma add_message_raise {U : Unicode} s timestamp chat_id speaker text probs dominant
    entropy confidence chat timeline' e :
  chats s !! chat_id = Some chat →
  update_timeline (emotionTimeline chat) probs = (timeline', Raise e) →
  (add_message s timestamp chat_id speaker text probs dominant entropy confidence).2
  = Raise e.
Proof. intros Hchat Hrun. unfold add_message. by rewrite Hchat, Hrun. Qed.

Lemma sample_add_returns s d :
  (@add_message ascii_unicode s "t1" "c1" "user" (lit "Test") sample_probs d
     (dec 0.3) "high").2 = Return () →
  @add_message ascii_unicode s "t1" "c1" "user" (lit "Test") sample_probs d
    (dec 0.3) "high"
  = ((@add_message ascii_unicode s "t1" "c1" "user" (lit "Test") sample_probs d
        (dec 0.3) "high").1, Return ()).
Proof. destruct (add_message _ _ _ _ _ _ _ _ _) as [s' r]. simpl. by intros ->. Qed.

(** C8, as stated, fails: after the dominants sadness and joy, one vote
    each, the chat is marked sadness, the label seen first, while joy comes
    first in the fixed order of the labels. *)
Lemma tie_not_by_priority :
  ¬ (∀ (U : Unicode) s timestamp chat_id speaker text probs dominant entropy
       confidence s' chat',
       add_message s timestamp chat_id speaker text probs dominant entropy confidence
       = (s', Return ()) →
       chats s' !! chat_id = Some chat' →
       priority_vote (Storage.dominant <$> messages chat')
       = Some (dominant_emotion (meta chat'))).
Proof.
  intros H.
  destruct (chats (after_messages ["sadness"; "joy"]) !! "c1") as [chat2|] eqn:E;
    [|vm_compute in E; discriminate].
  specialize (H ascii_unicode (after_messages ["sadness"]) "t1" "c1" "user"
                (lit "Test") sample_probs "joy" (dec 0.3) "high"
                (after_messages ["sadness"; "joy"]) chat2).
  vm_compute in E. injection E as <-.
  assert (Hvote : priority_vote ["sadness"; "joy"] = Some "sadness").
  { apply H; [|reflexivity]. apply (sample_add_returns _ "joy"). by vm_compute. }
  vm_compute in Hvote. discriminate.
Qed.

(** C8 (amended): after every [add_message] that returns, the dominant
    emotion of the chat is the majority vote over the dominant labels of all
    its messages, the new one included, with ties broken by the order of
    first occurrence: no label has more votes than the chosen one, and every
    label that occurs before its first occurrence has fewer. *)
Theorem dominant_emotion_vote {U : Unicode} s timestamp chat_id speaker text probs
    dominant entropy confidence s' :
  add_message s timestamp chat_id speaker text probs dominant entropy confidence
  = (s', Return ()) →
  ∃ chat chat',
    chats s !! chat_id = Some chat ∧ chats s' !! chat_id = Some chat'
    ∧ Storage.dominant <$> messages chat'
      = (Storage.dominant <$> messages chat) ++ [dominant]
    ∧ first_seen_majority (Storage.dominant <$> messages chat')
        (dominant_emotion (meta chat')).
Proof.
  intros H. destruct (chats s !! chat_id) as [chat|] eqn:Hchat.
  2:{ by rewrite add_message_missing in H. }
  destruct (update_timeline (emotionTimeline chat) probs) as [tl' [[]|e]] eqn:Hrun.
  - destruct (add_message_run s timestamp chat_id speaker text probs dominant entropy
                confidence chat tl' Hchat Hrun)
      as (d & n & chat' & Hmax & _ & Hchats & Hmsgs & _ & _ & Hdom).
    rewrite H in Hchats. simpl in Hchats.
    exists chat, chat'. split; [done|]. split; [by rewrite Hchats, lookup_insert_eq|].
    split; [by rewrite Hmsgs, fmap_app|].
    rewrite Hdom. rewrite <- Hmsgs in Hmax. by apply (vote_first_seen _ d n).
  - pose proof (add_message_raise s timestamp chat_id speaker text probs dominant
                  entropy confidence chat tl' e Hchat Hrun) as Hr.
    by rewrite H in Hr.
Qed.

Lemma dominant_emotion_vote_witness :
  @add_message ascii_unicode (after_messages ["anger"; "anger"]) "t1" "c1" "user"
    (lit "Test") sample_probs "sadness" (dec 0.3) "high"
  = (after_messages ["anger"; "anger"; "sadness"], Return ())
  ∧ ∃ chat',
      chats (after_messages ["anger"; "anger"; "sadness"]) !! "c1" = Some chat'
      ∧ Storage.dominant <$> messages chat' = ["anger"; "anger"; "sadness"]
      ∧ dominant_emotion (meta chat') = "anger"
      ∧ first_seen_majority (Storage.dominant <$> messages chat')
          (dominant_emotion (meta chat')).
Proof.
  assert (Hadd : @add_message ascii_unicode (after_messages ["anger"; "anger"]) "t1"
                   "c1" "user" (lit "Test") sample_probs "sadness" (dec 0.3) "high"
                 = (after_messages ["anger"; "anger"; "sadness"], Return ())).
  { apply (sample_add_returns _ "sadness"). vm_compute. reflexivity. }
  split; [exact Hadd|].
  destruct (@dominant_emotion_vote ascii_unicode _ _ _ _ _ _ _ _ _ _ Hadd)
    as (chat & chat' & Hc & Hc' & Hds & Hvote).
  exists chat'. split; [exact Hc'|].
  vm_compute in Hc'. injection Hc' as <-.
  split; [reflexivity|]. split; [reflexivity|]. exact Hvote.
Defined.

(** The scenario of the specification: the dominants anger, anger and
    sadness give anger. When the probabilities name a label that the
    timeline does not have, the message is stored and the call raises before
    the vote, so that the dominant emotion is the one of the previous state. *)
Example three_messages :
  dominant_emotion ∘ meta <$> chats (after_messages ["anger"; "anger"; "sadness"]) !! "c1"
  = Some "anger".
Proof. by vm_compute. Qed.

Example unknown_label :
  let res := @add_message ascii_unicode one_chat "t1" "c1" "user" (lit "Test")
               [("bogus", dec 1.0)] "anger" (dec 0.3) "high" in
  res.2 = Raise KeyError
  ∧ (λ chat, (length (messages chat), dominant_emotion (meta chat)))
      <$> chats res.1 !! "c1" = Some (1%nat, "neutral").
Proof. by vm_compute. Qed.
End VoteClaims.

(** ** The total of the distribution on every path *)

Section Totals.
Import Py ModelAdapter Spec.

Lemma sum_div_from (t : Qc) l : ∀ a,
  foldl Qcplus (a / t) ((λ v, v / t) <$> l) = foldl Qcplus a l / t.
Proof.
  induction l as [|v l IH]; intros a; csimpl; [done|].
  rewrite <- IH. f_equal. unfold Qcdiv. ring.
Qed.

Lemma sum_div (t : Qc) l : sum ((λ v, v / t) <$> l) = sum l / t.
Proof.
  unfold sum. rewrite <- sum_div_from. f_equal. unfold Qcdiv. ring.
Qed.

Lemma values_map_values (f : Qc → Qc) (d : dict Qc) :
  values (map_values f d) = f <$> values d.
Proof. unfold values, map_values. rewrite <- !list_fmap_compose. done. Qed.

Lemma corrected_total m :
  m ∈ EMOTIONS → m ≠ "neutral" →
  keys (corrected m) = EMOTIONS ∧ sum (values (corrected m)) = 1.
Proof.
  unfold EMOTIONS at 1. intros H Hm.
  repeat (apply elem_of_cons in H as [->|H];
          [first [by destruct Hm
                 |split; [reflexivity|apply Qc_this_inj; by vm_compute]]|]).
  by apply elem_of_nil in H.
Qed.

Lemma keyword_distribution_total L :
  L ∈ detectable →
  keys (keyword_distribution L) = EMOTIONS ∧ sum (values (keyword_distribution L)) = 1.
Proof.
  unfold detectable. intros H.
  repeat (apply elem_of_cons in H as [->|H];
          [split; [reflexivity|apply Qc_this_inj; by vm_compute]|]).
  by apply elem_of_nil in H.
Qed.

Context {U : Unicode} {B : Builtins} {G : GenerativeModel}.

Lemma parse_total response_text :
  sum (values (_parse_emotion_response response_text)) = 1.
Proof.
  unfold _parse_emotion_response.
  destruct (parse_pairs _ _) as [d|]; [|apply Qc_this_inj; by vm_compute].
  destruct (Qc_ltb 0 (sum (values d))) eqn:Hpos; [|apply Qc_this_inj; by vm_compute].
  rewrite values_map_values, sum_div. unfold Qcdiv. apply Qcmult_inv_r.
  apply Qc_ltb_lt in Hpos. intros H0. rewrite H0 in Hpos.
  by apply (Qclt_not_le _ _ Hpos).
Qed.

Lemma fallback_total text :
  keys (fallback text) = EMOTIONS ∧ sum (values (fallback text)) = 1.
Proof.
  unfold fallback. destruct (_ && _);
    (split; [reflexivity|apply Qc_this_inj; by vm_compute]).
Qed.

(** On every path but the sarcasm one the classifier returns the ten labels
    with a total of exactly 1; on the sarcasm path it returns the fixed
    table, whose total is 1.1. *)
Lemma classify_total text chat_history :
  classify_emotion text chat_history = sarcasm_table
  ∨ (keys (classify_emotion text chat_history) = EMOTIONS
     ∧ sum (values (classify_emotion text chat_history)) = 1).
Proof.
  unfold classify_emotion.
  assert (Hrest :
    (if existsb (λ pattern, Re.search pattern (lower text)) sarcasm_patterns
     then sarcasm_distribution
     else match (response ← generate_content
                   {| context_str := build_context chat_history; message := text |};
                 anti_neutral (_parse_emotion_response (strip response))) with
          | Some emotion_probs => emotion_probs
          | None => fallback text
          end) = sarcasm_table
    ∨ (keys (if existsb (λ pattern, Re.search pattern (lower text)) sarcasm_patterns
             then sarcasm_distribution
             else match (response ← generate_content
                           {| context_str := build_context chat_history;
                              message := text |};
                         anti_neutral (_parse_emotion_response (strip response))) with
                  | Some emotion_probs => emotion_probs
                  | None => fallback text
                  end) = EMOTIONS
       ∧ sum (values (if existsb (λ pattern, Re.search pattern (lower text))
                            sarcasm_patterns
                      then sarcasm_distribution
                      else match (response ← generate_content
                                    {| context_str := build_context chat_history;
                                       message := text |};
                                  anti_neutral
                                    (_parse_emotion_response (strip response))) with
                           | Some emotion_probs => emotion_probs
                           | None => fallback text
                           end)) = 1)).
  { destruct (existsb _ sarcasm_patterns); [by left|]. right.
    destruct (generate_content _) as [response|]; csimpl; [|apply fallback_total].
    destruct (anti_neutral_cases (_parse_emotion_response (strip response))
                (parse_keys _)) as (m & vm & vn & Hm & Hmn & _ & _ & _ & ->).
    destruct (bool_decide _); [by apply corrected_total|].
    split; [apply parse_keys|apply parse_total]. }
  destruct (detector_cases text) as [(L & HL & ->)|[-> | ->]]; [|exact Hrest..].
  right. cbn [andb].
  rewrite bool_decide_eq_true_2; [by apply keyword_distribution_total|].
  revert HL. unfold detectable. intros HL.
  repeat (apply elem_of_cons in HL as [->|HL]; [by_compute|]).
  by apply elem_of_nil in HL.
Qed.
End Totals.

(** * Further properties of the code *)

(** ** Sums and quotients of floats *)

Section Sums.
Import Py.

Lemma sum_from a l : foldl Qcplus a l = a + sum l.
Proof.
  unfold sum. revert a. induction l as [|x l IH]; intros a; simpl.
  - by rewrite Qcplus_0_r.
  - rewrite (IH (a + x)), (IH (0 + x)). ring.
Qed.

Lemma sum_cons x l : sum (x :: l) = x + sum l.
Proof. unfold sum. simpl. rewrite sum_from. unfold sum. ring. Qed.

Lemma sum_app l1 l2 : sum (l1 ++ l2) = sum l1 + sum l2.
Proof.
  induction l1 as [|x l1 IH]; simpl.
  - unfold sum at 2. simpl. ring.
  - rewrite !sum_cons, IH. ring.
Qed.




End Sums.

(** ** The parser of the model's answer *)

Section ParserFacts.
Import Py ModelAdapter Spec.



Context {U : Unicode} {B : Builtins}.




Lemma parse_pairs_malformed pairs item : ∀ d,
  item ∈ pairs → malformed item → parse_pairs d pairs = None.
Proof.
  induction pairs as [|x pairs IH]; intros d Hin Hbad; [by apply elem_of_nil in Hin|].
  simpl. destruct (parse_pair d x) as [d1|] eqn:Hx; [|done]. simpl.
  apply elem_of_cons in Hin as [->|Hin]; [|by apply IH].
  exfalso. destruct Hbad as [Hcolon Hfloat]. unfold parse_pair in Hx.
  rewrite Hcolon in Hx.
  destruct (split 58 x) as [|emotion [|prob [|? ?]]]; try done.
  by rewrite (Hfloat emotion prob eq_refl) in Hx.
Qed.
End ParserFacts.

Section ParserClaims.
Import Py ModelAdapter Spec.
Context {U : Unicode} {B : Builtins}.

(** X2: one malformed piece among the comma-separated pieces of the answer
    (several colons, or a value that [float] refuses) makes the parser
    return the uniform distribution, whatever the other pieces hold. *)
Theorem parse_malformed_uniform response_text item :
  item ∈ split 44 (strip (lower response_text)) → malformed item →
  _parse_emotion_response response_text = uniform.
Proof.
  intros Hin Hbad. unfold _parse_emotion_response.
  rewrite (parse_pairs_malformed _ item _ Hin Hbad).
  apply dict_raw_inj. by vm_compute.
Qed.
End ParserClaims.

Section ParserWitness.
Import Py ModelAdapter Spec.

Lemma parse_malformed_uniform_witness :
  lit " note: 12:30" ∈ split 44 (@strip ascii_unicode
                                  (@lower ascii_unicode (lit "anger: 0.9, note: 12:30")))
  ∧ @malformed ascii_unicode decimal_builtins (lit " note: 12:30")
  ∧ @_parse_emotion_response ascii_unicode decimal_builtins
      (lit "anger: 0.9, note: 12:30") = uniform.
Proof.
  assert (Hin : lit " note: 12:30"
                ∈ split 44 (@strip ascii_unicode
                              (@lower ascii_unicode (lit "anger: 0.9, note: 12:30")))).
  { by_compute. }
  assert (Hbad : @malformed ascii_unicode decimal_builtins (lit " note: 12:30")).
  { split; [reflexivity|]. intros emotion prob H. vm_compute in H. discriminate. }
  split; [exact Hin|]. split; [exact Hbad|].
  exact (@parse_malformed_uniform ascii_unicode decimal_builtins _ _ Hin Hbad).
Defined.
End ParserWitness.

(** ** More on the classifier *)

Section ClassifierFacts.
Import Py ModelAdapter Spec.
Context {U : Unicode} {B : Builtins} {G : GenerativeModel}.


(** X4: when nothing in the text decides (no keyword, no emoji, no sarcasm)
    and the model fails, the label of highest probability is joy for a short
    plain text, whose ten values are all 0.1, and neutral for any other. *)
Theorem fallback_dominant text chat_history :
  any_keyword_match text = false → any_emoji_match text = false →
  sarcasm_match text = false →
  generate_content {| context_str := build_context chat_history; message := text |}
  = None →
  Main.get_dominant_emotion (classify_emotion text chat_history)
  = Some (if short_plain text then "joy" else "neutral").
Proof.
  intros Hk He Hs Hg. rewrite (classify_no_label text chat_history Hk He), Hs, Hg.
  simpl. unfold fallback, short_plain.
  by destruct (_ && _); vm_compute.
Qed.

(** X6: the detector answers [false] exactly with the label "no_signal";
    its label is one of nine emotions, "emphasis_detected" or "no_signal",
    and never "neutral". *)
Theorem detector_labels text :
  ((_has_emotion_signal text).1 = false ↔ (_has_emotion_signal text).2 = "no_signal")
  ∧ (_has_emotion_signal text).2 ∈ detectable ++ ["emphasis_detected"; "no_signal"]
  ∧ (_has_emotion_signal text).2 ≠ "neutral".
Proof.
  destruct (detector_cases text) as [(L & HL & ->)|[-> | ->]]; cbn [fst snd].
  - split; [|split; [apply elem_of_app; by left|]]; unfold detectable in HL.
    + split; [done|]. intros ->.
      repeat (apply elem_of_cons in HL as [HL|HL]; [discriminate|]).
      by apply elem_of_nil in HL.
    + intros ->.
      repeat (apply elem_of_cons in HL as [HL|HL]; [discriminate|]).
      by apply elem_of_nil in HL.
  - split; [done|]. split; [by_compute|done].
  - split; [done|]. split; [by_compute|done].
Qed.

Lemma detector_emoji text i (item : string * list str) :
  any_keyword_match text = false →
  EMOTION_EMOJIS !! i = Some item →
  existsb (λ emoji, contains emoji text) item.2 = true →
  Forall (λ item' : string * list str,
            existsb (λ emoji, contains emoji text) item'.2 = false)
         (take i EMOTION_EMOJIS) →
  _has_emotion_signal text = (true, item.1).
Proof.
  intros Hk Hi Hm Hbefore. unfold _has_emotion_signal.
  rewrite find_all_false.
  2:{ intros e _. destruct (get e EMOTION_KEYWORDS) as [kws|] eqn:Hget; [|done].
      apply get_elem_of in Hget.
      apply (existsb_all_false _ _ Hk (e, kws) Hget). }
  match goal with
  | |- context [List.find ?f EMOTION_EMOJIS] =>
      rewrite (find_first f EMOTION_EMOJIS i item Hi Hm); [done|]
  end.
  intros j item' Hj Hitem'. rewrite Forall_forall in Hbefore. apply Hbefore.
  apply list_elem_of_lookup. exists j. by rewrite lookup_take_lt.
Qed.

(** X7: when no keyword matches, the emoji tables decide in the order in
    which they are written: the label is the one of the first table that has
    an emoji of the text, it is the label of highest probability, and its
    probability is at least 0.5. *)
Theorem emoji_dominant text chat_history i (item : string * list str) :
  any_keyword_match text = false →
  EMOTION_EMOJIS !! i = Some item →
  existsb (λ emoji, contains emoji text) item.2 = true →
  Forall (λ item' : string * list str,
            existsb (λ emoji, contains emoji text) item'.2 = false)
         (take i EMOTION_EMOJIS) →
  _has_emotion_signal text = (true, item.1)
  ∧ Main.get_dominant_emotion (classify_emotion text chat_history) = Some item.1
  ∧ ∃ p, get item.1 (classify_emotion text chat_history) = Some p ∧ dec 0.5 <= p.
Proof.
  intros Hk Hi Hm Hbefore.
  pose proof (detector_emoji text i item Hk Hi Hm Hbefore) as Hsig.
  split; [done|].
  assert (HL : item.1 ∈ detectable).
  { apply list_elem_of_lookup_2 in Hi. unfold EMOTION_EMOJIS in Hi.
    repeat (apply elem_of_cons in Hi as [->|Hi]; [simpl; by_compute|]).
    by apply elem_of_nil in Hi. }
  rewrite (classify_keyword text chat_history item.1 Hsig).
  - by apply keyword_distribution_dominant.
  - revert HL. generalize item.1. intros L HL. unfold detectable in HL.
    repeat (apply elem_of_cons in HL as [->|HL]; [by_compute|]).
    by apply elem_of_nil in HL.
Qed.
End ClassifierFacts.

Section ClassifierWitnesses.
Import Py ModelAdapter Spec.

Lemma fallback_dominant_witness :
  @any_keyword_match ascii_unicode (lit "ok") = false
  ∧ any_emoji_match (lit "ok") = false
  ∧ @sarcasm_match ascii_unicode (lit "ok") = false
  ∧ @generate_content unavailable_model
      {| context_str := build_context []; message := lit "ok" |} = None
  ∧ Main.get_dominant_emotion
      (@classify_emotion ascii_unicode decimal_builtins unavailable_model (lit "ok") [])
    = Some "joy".
Proof.
  split; [vm_compute; reflexivity|]. split; [vm_compute; reflexivity|].
  split; [vm_compute; reflexivity|]. split; [reflexivity|].
  apply (@fallback_dominant ascii_unicode decimal_builtins unavailable_model
           (lit "ok") []); vm_compute; reflexivity.
Defined.

(** The face U+1F630 stands in the tables of fear and of stress: it is
    reported as fear. *)
Lemma emoji_dominant_witness :
  @any_keyword_match ascii_unicode (lit "hm " ++ [0x1f630%N]) = false
  ∧ EMOTION_EMOJIS !! 3%nat
    = Some ("fear", [[0x1f631]; [0x1f628]; [0x1f630]; [0x1f627]; [0x1f626]]%N)
  ∧ Main.get_dominant_emotion
      (@classify_emotion ascii_unicode decimal_builtins unavailable_model
         (lit "hm " ++ [0x1f630%N]) []) = Some "fear".
Proof.
  split; [vm_compute; reflexivity|]. split; [reflexivity|].
  apply (@emoji_dominant ascii_unicode decimal_builtins unavailable_model
           (lit "hm " ++ [0x1f630%N]) [] 3%nat
           ("fear", [[0x1f631]; [0x1f628]; [0x1f630]; [0x1f627]; [0x1f626]]%N)).
  - vm_compute; reflexivity.
  - reflexivity.
  - vm_compute; reflexivity.
  - repeat constructor.
Defined.
End ClassifierWitnesses.

Section AntiNeutralFacts.
Import Py ModelAdapter Spec.




End AntiNeutralFacts.

(** ** Smoothing *)

Section Smoothing.
Import Py Main.





(** The window of index [i]: from [lo_index] included to [hi_index] excluded *)
Lemma smooth_at_window values window i :
  (1 ≤ window)%Z → (i < length values)%nat →
  let a := Z.to_nat (Z.max 0 (Z.of_nat i - window / 2)) in
  let b := Z.to_nat (Z.min (Z.of_nat (length values)) (Z.of_nat i + window / 2 + 1)) in
  (a ≤ i)%nat ∧ (i < b)%nat ∧ (b ≤ length values)%nat
  ∧ smooth_at values window i
    = Some (sum (take (b - a) (drop a values)) / of_nat (b - a)).
Proof.
  intros Hw Hi a b.
  assert (Hh : (0 ≤ window / 2)%Z) by (apply Z.div_pos; lia).
  split; [lia|]. split; [lia|]. split; [lia|].
  unfold smooth_at, slice, norm_index.
  set (start := Z.max 0 (Z.of_nat i - window / 2)) in *.
  set (stop := Z.min (Z.of_nat (length values)) (Z.of_nat i + window / 2 + 1)) in *.
  destruct (stop - start =? 0)%Z eqn:Hz; [lia|].
  destruct (start <? 0)%Z eqn:Hs; [lia|].
  destruct (stop <? 0)%Z eqn:Hs'; [lia|].
  replace (Z.to_nat (Z.min start (Z.of_nat (length values)))) with a by lia.
  replace (Z.to_nat (Z.min stop (Z.of_nat (length values))
                     - Z.min start (Z.of_nat (length values)))) with (b - a)%nat by lia.
  replace (of_Z (stop - start)) with (of_nat (b - a)); [done|].
  unfold of_Z, of_nat. do 2 f_equal. lia.
Qed.

Lemma smooth_loop_spec values window indices : ∀ smoothed,
  (1 ≤ window)%Z → Forall (λ i, i < length values)%nat indices →
  ∃ l, smooth_loop values window smoothed indices = Some (smoothed ++ l)
       ∧ Forall2 (λ i v, smooth_at values window i = Some v) indices l.
Proof.
  induction indices as [|i rest IH]; intros smoothed Hw Hall.
  - exists []. split; [by rewrite app_nil_r|constructor].
  - apply Forall_cons in Hall as [Hi Hrest].
    destruct (smooth_at_window values window i Hw Hi) as (_ & _ & _ & Hat).
    cbn [smooth_loop].
    destruct (smooth_at values window i) as [v|] eqn:Hv; [|discriminate].
    cbn [mbind option_bind].
    destruct (IH (smoothed ++ [v]) Hw Hrest) as (l & Hrun & Hl).
    exists (v :: l). split.
    + rewrite Hrun. by rewrite <- app_assoc.
    + by constructor.
Qed.

Lemma apply_smoothing_spec values window :
  (1 ≤ window)%Z →
  ∃ smoothed, apply_smoothing values window = Some smoothed
    ∧ Forall2 (λ i v, smooth_at values window i = Some v)
              (seq 0 (length values)) smoothed.
Proof.
  intros Hw. unfold apply_smoothing.
  destruct (window <? 1)%Z eqn:H1; [lia|].
  destruct (smooth_loop_spec values window (seq 0 (length values)) [] Hw)
    as (l & Hrun & Hl).
  - apply Forall_forall. intros i Hi. apply elem_of_seq in Hi. lia.
  - by exists l.
Qed.

(** X8: smoothing never divides by zero and returns as many values as it
    is given, for every list and every window. *)
Theorem smoothing_length values window :
  ∃ smoothed, apply_smoothing values window = Some smoothed
              ∧ length smoothed = length values.
Proof.
  destruct (decide (1 ≤ window)%Z) as [Hw|Hw].
  - destruct (apply_smoothing_spec values window Hw) as (l & Hrun & Hl).
    exists l. split; [done|]. apply Forall2_length in Hl.
    by rewrite <- Hl, length_seq.
  - exists values. split; [|done]. unfold apply_smoothing.
    by destruct (window <? 1)%Z eqn:H1; [|lia].
Qed.

(** X9: a window of 1 or less changes nothing. *)
Theorem smoothing_identity values window :
  (window ≤ 1)%Z → apply_smoothing values window = Some values.
Proof.
  intros Hw. destruct (decide (window = 1%Z)) as [->|Hne].
  2:{ unfold apply_smoothing. by destruct (window <? 1)%Z eqn:H1; [|lia]. }
  destruct (apply_smoothing_spec values 1%Z) as (l & -> & Hl); [lia|].
  f_equal. apply list_eq. intros i.
  destruct (values !! i) as [v|] eqn:Hv.
  - assert (Hi : (i < length values)%nat) by (by eapply lookup_lt_Some).
    destruct (Forall2_lookup_l _ _ _ i i Hl) as (w & Hw' & Hat).
    { by apply lookup_seq_lt. }
    rewrite Hw'. f_equal.
    destruct (smooth_at_window values 1%Z i) as (_ & _ & _ & Hat'); [lia|done|].
    rewrite Hat' in Hat. injection Hat as <-.
    change (1 / 2)%Z with 0%Z.
    replace (Z.to_nat (Z.min (Z.of_nat (length values)) (Z.of_nat i + 0 + 1))
             - Z.to_nat (Z.max 0 (Z.of_nat i - 0)))%nat with 1%nat by lia.
    replace (Z.to_nat (Z.max 0 (Z.of_nat i - 0))) with i by lia.
    rewrite (drop_S _ _ _ Hv). rewrite firstn_cons, take_0, sum_cons.
    change (sum []) with 0. change (of_nat 1) with 1. unfold Qcdiv.
    replace (/ 1) with 1 by (by apply Qc_is_canon). ring.
  - apply lookup_ge_None in Hv. apply lookup_ge_None.
    apply Forall2_length in Hl. rewrite length_seq in Hl. lia.
Qed.



Lemma smoothing_identity_witness :
  (1 ≤ 1)%Z
  ∧ apply_smoothing (dec <$> [0.2; 0.9; 0.4]%Q) 1%Z
    = Some (dec <$> [0.2; 0.9; 0.4]%Q).
Proof.
  split; [done|]. by apply (smoothing_identity (dec <$> [0.2; 0.9; 0.4]%Q) 1%Z).
Defined.

End Smoothing.

(** ** The peaks and the dominant label *)

Section PeakFacts.
Import Py Main Spec.

Lemma seq_sorted len : ∀ start, StronglySorted lt (seq start len).
Proof.
  induction len as [|len IH]; intros start; simpl; constructor; [apply IH|].
  apply Forall_forall. intros i Hi. apply elem_of_seq in Hi. lia.
Qed.

Lemma filter_sorted {A} (R : relation A) (f : A → bool) l :
  StronglySorted R l → StronglySorted R (List.filter f l).
Proof.
  induction 1 as [|x l Hl IH Hx]; simpl; [constructor|].
  destruct (f x); [|done]. constructor; [done|].
  apply Forall_forall. intros y Hy. apply list_elem_of_In, filter_In in Hy as [Hy _].
  rewrite Forall_forall in Hx. by apply Hx, list_elem_of_In.
Qed.

Lemma interior_peak_inv values threshold i :
  interior_peak values threshold i = true →
  (i + 1 < length values)%nat ∧ ∃ v, values !! i = Some v ∧ threshold < v.
Proof.
  unfold interior_peak.
  destruct (values !! (i - 1)%nat) as [vp|]; [|done].
  destruct (values !! i) as [vi|] eqn:Hi; [|done].
  destruct (values !! (i + 1)%nat) as [vn|] eqn:Hn; [|done].
  intros H. apply andb_true_iff in H as [H _]. apply andb_true_iff in H as [H _].
  split; [by eapply lookup_lt_Some|]. exists vi. split; [done|]. by apply Qc_ltb_lt.
Qed.

Lemma trailing_peak_inv values threshold i :
  i ∈ trailing_peak values threshold →
  i = (length values - 1)%nat ∧ ∃ v, values !! i = Some v ∧ threshold < v.
Proof.
  unfold trailing_peak. destruct (last values) as [v|] eqn:Hlast.
  2:{ intros H. by apply elem_of_nil in H. }
  destruct (Qc_ltb threshold v) eqn:Hv.
  2:{ intros H. by apply elem_of_nil in H. }
  intros H. apply list_elem_of_singleton in H as ->. split; [done|].
  exists v. split; [|by apply Qc_ltb_lt].
  rewrite last_lookup in Hlast. by rewrite Nat.sub_1_r.
Qed.

Lemma spec_peaks_sound values threshold :
  StronglySorted lt (spec_peaks values threshold)
  ∧ Forall (λ i, ∃ v, values !! i = Some v ∧ threshold < v) (spec_peaks values threshold)
  ∧ (0%nat ∈ spec_peaks values threshold → length values = 1%nat).
Proof.
  unfold spec_peaks. split; [|split].
  - apply StronglySorted_app_2.
    + intros i j Hi Hj. apply list_elem_of_In, filter_In in Hi as [Hi Hp].
      apply list_elem_of_In, elem_of_seq in Hi.
      apply trailing_peak_inv in Hj as [-> _]. lia.
    + apply filter_sorted, seq_sorted.
    + unfold trailing_peak. destruct (last values) as [v|]; [|constructor].
      destruct (Qc_ltb threshold v); repeat constructor.
  - apply Forall_app. split; apply Forall_forall; intros i Hi.
    + apply list_elem_of_In, filter_In in Hi as [_ Hp].
      by apply interior_peak_inv in Hp as [_ Hp].
    + by apply trailing_peak_inv in Hi as [_ Hi].
  - intros H0. apply elem_of_app in H0 as [H0|H0].
    + apply list_elem_of_In, filter_In in H0 as [H0 _].
      apply list_elem_of_In, elem_of_seq in H0. lia.
    + apply trailing_peak_inv in H0 as [H0 (v & Hv & _)].
      apply lookup_lt_Some in Hv. lia.
Qed.

(** X11: the indices that [detect_peaks] reports are positions of the
    list whose value is above the threshold; they come in strictly
    increasing order, hence without repetition, and the index 0 is
    reported only for a list of one value. *)
Theorem detect_peaks_sound values threshold :
  ∃ peaks, detect_peaks values threshold = Some peaks
    ∧ StronglySorted lt peaks
    ∧ Forall (λ i, ∃ v, values !! i = Some v ∧ threshold < v) peaks
    ∧ (0%nat ∈ peaks → length values = 1%nat).
Proof.
  exists (spec_peaks values threshold).
  split; [apply detect_peaks_total|apply spec_peaks_sound].
Qed.

(** X12: [get_dominant_emotion] raises on an empty dictionary only;
    otherwise it returns the label of the first entry whose value is
    maximal: the values before it are smaller and no value after it is
    larger. *)
Theorem dominant_first_max (probs : dict Qc) :
  (get_dominant_emotion probs = None ↔ probs = [])
  ∧ ∀ label, get_dominant_emotion probs = Some label →
      ∃ pre p post, probs = pre ++ (label, p) :: post
        ∧ Forall (λ kv, kv.2 < p) pre ∧ Forall (λ kv, kv.2 <= p) post.
Proof.
  unfold get_dominant_emotion. split.
  - destruct probs; simpl; by split.
  - intros label H. destruct (max_by Qc_ltb snd probs) as [[k p]|] eqn:Hmax; [|done].
    simpl in H. injection H as ->.
    destruct (max_by_split Qc_ltb snd Qc_ltb_asym Qc_ltb_le_lt _ _ Hmax)
      as (pre & post & -> & Hpre & Hpost).
    exists pre, p, post. split; [done|]. split; apply Forall_forall; intros kv Hkv.
    + apply Qc_ltb_lt. by apply Hpre.
    + apply Qcnot_lt_le. apply (bool_decide_eq_false (p < kv.2)). by apply Hpost.
Qed.
End PeakFacts.

(** ** The classifier feeds the dominant label *)

Section Composition.
Import Py ModelAdapter Spec.
Context {U : Unicode} {B : Builtins} {G : GenerativeModel}.

Lemma classify_keys text chat_history :
  keys (classify_emotion text chat_history) = EMOTIONS.
Proof. destruct (classify_total text chat_history) as [->|[H _]]; done. Qed.

Lemma classify_length text chat_history :
  length (classify_emotion text chat_history) = 10%nat.
Proof.
  pose proof (classify_keys text chat_history) as H.
  apply (f_equal length) in H. unfold keys in H. by rewrite length_fmap in H.
Qed.

Lemma classify_argmax text chat_history :
  ∃ label p, max_by Qc_ltb snd (classify_emotion text chat_history) = Some (label, p)
    ∧ label ∈ EMOTIONS
    ∧ (label, p) ∈ classify_emotion text chat_history
    ∧ ∀ kv, kv ∈ classify_emotion text chat_history → kv.2 <= p.
Proof.
  pose proof (classify_keys text chat_history) as Hk.
  destruct (max_by Qc_ltb snd (classify_emotion text chat_history)) as [[label p]|]
    eqn:Hmax.
  - destruct (max_by_Qc_spec snd _ _ Hmax) as [Hin Hle].
    exists label, p. split; [done|]. split; [|done].
    rewrite <- Hk. unfold keys. by apply (list_elem_of_fmap_2 fst) in Hin.
  - destruct (classify_emotion text chat_history); [done|done].
Qed.

(** X13: whatever the text, the history, the model and the float parser,
    the result of the classifier has a dominant label; it is one of the ten
    labels and no label of the result has a higher value. *)
Theorem classify_dominant text chat_history :
  ∃ label p,
    Main.get_dominant_emotion (classify_emotion text chat_history) = Some label
    ∧ label ∈ EMOTIONS
    ∧ (label, p) ∈ classify_emotion text chat_history
    ∧ ∀ e q, (e, q) ∈ classify_emotion text chat_history → q <= p.
Proof.
  destruct (classify_argmax text chat_history) as (label & p & Hmax & Hl & Hin & Hle).
  exists label, p. unfold Main.get_dominant_emotion. rewrite Hmax.
  split; [done|]. split; [done|]. split; [done|].
  intros e q Hq. apply (Hle (e, q) Hq).
Qed.
End Composition.

(** ** What [add_message] writes, and when it raises *)

Section StoreEffects.
Import Py Storage Spec.
Context {U : Unicode}.

Lemma update_timeline_dom items : ∀ timeline k,
  is_Some ((update_timeline timeline items).1 !! k) ↔ is_Some (timeline !! k).
Proof.
  induction items as [|[e p] items IH]; intros timeline k; [done|].
  cbn [update_timeline]. destruct (timeline !! e) as [l|] eqn:He; [|done].
  rewrite IH, lookup_insert_is_Some. split.
  - intros [->|[_ H]]; [by rewrite He|done].
  - intros H. destruct (decide (e = k)); [by left|by right].
Qed.

Lemma update_timeline_returns items : ∀ timeline,
  (update_timeline timeline items).2 = Return ()
  ↔ ∀ k, k ∈ items.*1 → is_Some (timeline !! k).
Proof.
  induction items as [|[e p] items IH]; intros timeline.
  - split; [|done]. intros _ k Hk. by apply elem_of_nil in Hk.
  - cbn [update_timeline]. destruct (timeline !! e) as [l|] eqn:He.
    + rewrite IH. split.
      * intros H k Hk. change (((e, p) :: items).*1) with (e :: items.*1) in Hk.
        apply elem_of_cons in Hk as [->|Hk]; [by rewrite He|].
        apply H in Hk. apply lookup_insert_is_Some in Hk as [->|[_ Hk]]; [|done].
        by rewrite He.
      * intros H k Hk. apply lookup_insert_is_Some'. right. apply H.
        by apply list_elem_of_further.
    + split; [done|]. intros H. destruct (H e) as [l Hl]; [apply list_elem_of_here|].
      by rewrite He in Hl.
Qed.

Lemma update_timeline_exn items : ∀ timeline e,
  (update_timeline timeline items).2 = Raise e → e = KeyError.
Proof.
  induction items as [|[k p] items IH]; intros timeline e; [done|].
  cbn [update_timeline]. destruct (timeline !! k); [apply IH|]. by intros [= <-].
Qed.

(** The store after [add_message] on a chat of the store, on each path *)
Lemma add_message_effect s timestamp chat_id speaker text probs dominant entropy
    confidence chat :
  chats s !! chat_id = Some chat →
  let res := add_message s timestamp chat_id speaker text probs dominant entropy
               confidence in
  let loop := update_timeline (emotionTimeline chat) probs in
  ∃ chat',
    chats res.1 = <[chat_id := chat']> (chats s)
    ∧ user_chats res.1 = user_chats s
    ∧ emotion_cache res.1 = emotion_cache s
    ∧ res.2 = loop.2
    ∧ messages chat'
      = messages chat
        ++ [new_message chat timestamp speaker text probs dominant entropy confidence]
    ∧ emotionTimeline chat' = loop.1
    ∧ chatId (meta chat') = chatId (meta chat)
    ∧ userId (meta chat') = userId (meta chat)
    ∧ messageCount (meta chat') = S (length (messages chat))
    ∧ title (meta chat')
      = (if returned loop.2 && bool_decide (speaker = "user")
            && bool_decide (messages chat = [])
         then _generate_title text else title (meta chat))
    ∧ snippet (meta chat')
      = (if returned loop.2 && bool_decide (speaker = "user")
            && bool_decide (messages chat = [])
         then preview text else snippet (meta chat))
    ∧ match loop.2 with
      | Return _ =>
          ∃ n, max_by Nat.ltb snd (emotion_counts (messages chat'))
               = Some (dominant_emotion (meta chat'), n)
      | Raise _ => dominant_emotion (meta chat') = dominant_emotion (meta chat)
      end.
Proof.
  intros Hchat res loop. subst res loop. unfold add_message. rewrite Hchat.
  fold (new_message chat timestamp speaker text probs dominant entropy confidence).
  set (msg := new_message _ _ _ _ _ _ _ _).
  destruct (update_timeline (emotionTimeline chat) probs) as [tl [[]|e]] eqn:Hrun.
  - set (chat1 := {| meta := _; messages := messages chat ++ [msg];
                     emotionTimeline := tl |}).
    destruct (update_dominant_run (with_chat s chat_id chat1) chat_id chat1)
      as (d & n & Hmax & Hupd).
    { apply lookup_insert_eq. }
    { simpl. by destruct (messages chat). }
    rewrite Hupd. cbn [fst snd with_chat chats]. rewrite lookup_insert_eq.
    cbn [returned andb].
    assert (Hfirst : bool_decide ((length (messages chat) + 1)%nat = 1%nat)
                     = bool_decide (messages chat = [])).
    { apply bool_decide_ext. destruct (messages chat); simpl; [done|].
      split; [lia|done]. }
    rewrite Hfirst.
    destruct (bool_decide (speaker = "user") && bool_decide (messages chat = []));
      cbn [fst snd with_chat chats user_chats emotion_cache];
      eexists; (split; [by rewrite !insert_insert_eq|]);
      cbn [with_meta set_dominant_emotion meta messages emotionTimeline chatId userId
           messageCount title snippet chat1];
      rewrite ?length_app; simpl; repeat split; try lia; by exists n.
  - cbn [fst snd with_chat chats user_chats emotion_cache]. eexists.
    split; [done|]. simpl. rewrite length_app. simpl. repeat split; lia.
Qed.
End StoreEffects.

Section StoreOutcomes.
Import Py Storage Spec.
Context {U : Unicode}.

(** X14: [add_message] raises [ValueError], leaving the store as it is, for
    a chat that the store does not have. For a chat of the store it returns
    exactly when every label of the probabilities has a timeline in the
    chat, and raises [KeyError] otherwise; in both cases the message has
    been appended to the chat and counted, so that a call that raises is
    not without effect. *)
Theorem add_message_outcome s timestamp chat_id speaker text probs dominant entropy
    confidence :
  let res := add_message s timestamp chat_id speaker text probs dominant entropy
               confidence in
  match chats s !! chat_id with
  | None => res = (s, Raise ValueError)
  | Some chat =>
      (res.2 = Return () ↔ ∀ k, k ∈ keys probs → is_Some (emotionTimeline chat !! k))
      ∧ (res.2 = Return () ∨ res.2 = Raise KeyError)
      ∧ ∃ chat', chats res.1 = <[chat_id := chat']> (chats s)
          ∧ messages chat'
            = messages chat
              ++ [new_message chat timestamp speaker text probs dominant entropy
                    confidence]
          ∧ messageCount (meta chat') = length (messages chat')
  end.
Proof.
  intros res. subst res. destruct (chats s !! chat_id) as [chat|] eqn:Hchat.
  2:{ by apply add_message_missing. }
  destruct (add_message_effect s timestamp chat_id speaker text probs dominant entropy
              confidence chat Hchat)
    as (chat' & Hchats & _ & _ & Hres & Hmsgs & _ & _ & _ & Hcount & _).
  rewrite Hres. split; [apply update_timeline_returns|]. split.
  - destruct (update_timeline (emotionTimeline chat) probs) as [tl [[]|e]] eqn:Hrun;
      [by left|right].
    pose proof (update_timeline_exn probs (emotionTimeline chat) e) as He.
    rewrite Hrun in He. by rewrite (He eq_refl).
  - exists chat'. split; [done|]. split; [done|].
    rewrite Hcount, Hmsgs, length_app. simpl. lia.
Qed.

Lemma add_message_numbered s timestamp chat_id speaker text probs dominant entropy
    confidence :
  map_Forall (λ _ chat, numbered chat) (chats s) →
  map_Forall (λ _ chat, numbered chat)
    (chats (add_message s timestamp chat_id speaker text probs dominant entropy
              confidence).1).
Proof.
  intros Hs. destruct (chats s !! chat_id) as [chat|] eqn:Hchat.
  2:{ by rewrite add_message_missing. }
  destruct (add_message_effect s timestamp chat_id speaker text probs dominant entropy
              confidence chat Hchat) as (chat' & -> & _ & _ & _ & Hmsgs & _).
  apply map_Forall_insert_2; [|done]. unfold numbered.
  rewrite Hmsgs, fmap_app, length_app, seq_app, (Hs chat_id chat Hchat).
  simpl. by rewrite Nat.add_comm.
Qed.

Lemma run_numbered s c :
  map_Forall (λ _ chat, numbered chat) (chats s) →
  map_Forall (λ _ chat, numbered chat) (chats (run s c)).
Proof.
  intros Hs. destruct c; simpl.
  - by apply map_Forall_insert_2.
  - by apply add_message_numbered.
  - unfold update_chat_title. destruct (chats s !! chat_id) as [chat|] eqn:Hchat; [|done].
    simpl. apply map_Forall_insert_2; [|done]. apply (Hs chat_id chat Hchat).
  - unfold delete_chat. destruct (chats s !! chat_id) as [chat|] eqn:Hchat; [|done].
    destruct (bool_decide _); [done|].
    destruct (list_remove _ _); simpl; by apply map_Forall_delete.
  - unfold get_emotion_summary. destruct (chats s !! chat_id) as [chat|]; [|done].
    destruct (messages chat); [done|]. by destruct (argmax _).
Qed.

(** X15: in every store reached from the empty one, by whatever calls, the
    messages of each chat carry the identifiers 1, 2, ... in the order in
    which they were added, also after calls that raised. *)
Theorem message_ids (calls : list call) chat_id chat :
  chats (foldl run init calls) !! chat_id = Some chat →
  id <$> messages chat = seq 1 (length (messages chat)).
Proof.
  assert (Hok : map_Forall (λ _ chat, numbered chat) (chats (foldl run init calls))).
  { assert (H0 : map_Forall (λ _ chat, numbered chat) (chats init))
      by apply map_Forall_empty.
    revert H0. generalize init.
    induction calls as [|c calls IH]; intros s Hs; [done|].
    simpl. apply IH. by apply run_numbered. }
  intros Hchat. exact (Hok chat_id chat Hchat).
Qed.
End StoreOutcomes.

(** ** The index of the chats by user *)

Section Index.
Import Py Storage Spec.
Context {U : Unicode}.

Lemma list_remove_Some x l l' :
  list_remove x l = Some l' → ∃ l1 l2, l = l1 ++ x :: l2 ∧ l' = l1 ++ l2 ∧ x ∉ l1.
Proof.
  revert l'. induction l as [|y l IH]; intros l'; simpl; [done|].
  destruct (decide (x = y)) as [->|Hne].
  - intros [= <-]. exists [], l. split; [done|]. split; [done|]. apply not_elem_of_nil.
  - destruct (list_remove x l) as [l0|]; [|done]. simpl. intros [= <-].
    destruct (IH l0 eq_refl) as (l1 & l2 & -> & -> & Hx).
    exists (y :: l1), l2. split; [done|]. split; [done|].
    by apply not_elem_of_cons.
Qed.

Lemma list_remove_elem x l : x ∈ l → is_Some (list_remove x l).
Proof.
  induction l as [|y l IH]; simpl; intros H; [by apply elem_of_nil in H|].
  destruct (decide (x = y)); [by eexists|].
  apply elem_of_cons in H as [?|H]; [done|].
  destruct (IH H) as [l' ->]. by eexists.
Qed.

(** Removing an element of a list without repetition *)
Lemma list_remove_NoDup x l :
  NoDup l → x ∈ l →
  ∃ l', list_remove x l = Some l' ∧ NoDup l' ∧ ∀ y, y ∈ l' ↔ y ∈ l ∧ y ≠ x.
Proof.
  intros Hnd Hx. destruct (list_remove_elem x l Hx) as [l' Hl'].
  exists l'. split; [done|].
  destruct (list_remove_Some x l l' Hl') as (l1 & l2 & -> & -> & Hx1).
  apply NoDup_app in Hnd as (Hn1 & Hdisj & Hn2). apply NoDup_cons in Hn2 as [Hx2 Hn2].
  split.
  - apply NoDup_app. split; [done|]. split; [|done].
    intros y Hy Hy'. apply (Hdisj y Hy). by apply list_elem_of_further.
  - intros y. rewrite !elem_of_app, elem_of_cons. split.
    + intros [Hy|Hy]; (split; [tauto|]); intros ->; done.
    + intros [[Hy|[->|Hy]] Hne]; tauto.
Qed.

Lemma init_index : index_consistent init.
Proof. split; intros k v H; simpl in H; by apply lookup_empty_Some in H. Qed.

Lemma create_chat_index s chat_id created_at user_id initial_message :
  chats s !! chat_id = None → index_consistent s →
  index_consistent (create_chat s chat_id created_at user_id initial_message).1.
Proof.
  intros Hfresh [Hchats Hindex]. unfold create_chat. cbn [fst].
  set (owned := default [] (user_chats s !! user_id)).
  assert (Hnew : chat_id ∉ owned).
  { subst owned. destruct (user_chats s !! user_id) as [l|] eqn:Hl; simpl.
    - intros Hin. destruct (Hindex user_id l Hl) as [_ Hall].
      destruct (Hall chat_id Hin) as (chat & Hchat & _). by rewrite Hfresh in Hchat.
    - apply not_elem_of_nil. }
  split; cbn [chats user_chats].
  - intros c chat Hc. destruct (decide (chat_id = c)) as [<-|Hne].
    + rewrite lookup_insert_eq in Hc. injection Hc as <-. cbn [meta chatId userId].
      split; [done|]. rewrite lookup_insert_eq. simpl. apply elem_of_app. right.
      apply list_elem_of_here.
    + rewrite lookup_insert_ne in Hc by done.
      destruct (Hchats c chat Hc) as [Hid Hin]. split; [done|].
      destruct (decide (user_id = userId (meta chat))) as [Hu|Hu].
      * rewrite <- Hu, lookup_insert_eq. simpl. apply elem_of_app. left.
        subst owned. by rewrite Hu.
      * by rewrite lookup_insert_ne.
  - intros u l Hl. destruct (decide (user_id = u)) as [<-|Hu].
    + rewrite lookup_insert_eq in Hl. injection Hl as <-. split.
      * apply NoDup_app. split; [|split; [|apply NoDup_singleton]].
        { subst owned. destruct (user_chats s !! user_id) as [l|] eqn:Hl; simpl.
          - by destruct (Hindex user_id l Hl).
          - constructor. }
        intros c Hc Hc'. apply list_elem_of_singleton in Hc' as ->. done.
      * intros c Hc. apply elem_of_app in Hc as [Hc|Hc].
        { subst owned. destruct (user_chats s !! user_id) as [l|] eqn:Hl; simpl in Hc.
          - destruct (Hindex user_id l Hl) as [_ Hall].
            destruct (Hall c Hc) as (chat & Hchat & Howner).
            exists chat. split; [|done]. rewrite lookup_insert_ne; [done|].
            intros <-. by rewrite Hfresh in Hchat.
          - by apply elem_of_nil in Hc. }
        apply list_elem_of_singleton in Hc as ->. eexists.
        split; [apply lookup_insert_eq|done].
    + rewrite lookup_insert_ne in Hl by done.
      destruct (Hindex u l Hl) as [Hnd Hall]. split; [done|].
      intros c Hc. destruct (Hall c Hc) as (chat & Hchat & Howner).
      exists chat. split; [|done]. rewrite lookup_insert_ne; [done|].
      intros <-. by rewrite Hfresh in Hchat.
Qed.

(** Replacing a chat by one of the same identifier and owner *)
Lemma replace_chat_index s s' chat_id chat chat' :
  chats s !! chat_id = Some chat →
  chats s' = <[chat_id := chat']> (chats s) → user_chats s' = user_chats s →
  chatId (meta chat') = chatId (meta chat) →
  userId (meta chat') = userId (meta chat) →
  index_consistent s → index_consistent s'.
Proof.
  intros Hchat Hchats Husers Hid Howner [Hc Hi]. split.
  - intros c x. rewrite Hchats, Husers. destruct (decide (chat_id = c)) as [<-|Hne].
    + rewrite lookup_insert_eq. intros [= <-]. rewrite Hid, Howner.
      apply (Hc chat_id chat Hchat).
    + rewrite lookup_insert_ne by done. apply Hc.
  - intros u l. rewrite Hchats, Husers. intros Hl.
    destruct (Hi u l Hl) as [Hnd Hall]. split; [done|].
    intros c Hin. destruct (Hall c Hin) as (x & Hx & Hu).
    destruct (decide (chat_id = c)) as [<-|Hne].
    + exists chat'. split; [apply lookup_insert_eq|].
      rewrite Hchat in Hx. injection Hx as <-. by rewrite Howner.
    + exists x. by rewrite lookup_insert_ne.
Qed.

(** What [delete_chat] does in a store whose index agrees with its chats *)
Lemma delete_chat_effect s chat_id user_id chat :
  index_consistent s → chats s !! chat_id = Some chat →
  userId (meta chat) = user_id →
  ∃ owned owned',
    user_chats s !! user_id = Some owned
    ∧ NoDup owned' ∧ (∀ c, c ∈ owned' ↔ c ∈ owned ∧ c ≠ chat_id)
    ∧ delete_chat s chat_id user_id
      = ({| chats := delete chat_id (chats s);
            user_chats := <[user_id := owned']> (user_chats s);
            emotion_cache := delete chat_id (emotion_cache s) |}, Return true).
Proof.
  intros [Hc Hi] Hchat Howner. destruct (Hc chat_id chat Hchat) as [_ Hin].
  rewrite Howner in Hin.
  destruct (user_chats s !! user_id) as [owned|] eqn:Hl; simpl in Hin;
    [|by apply elem_of_nil in Hin].
  destruct (Hi user_id owned Hl) as [Hnd _].
  destruct (list_remove_NoDup chat_id owned Hnd Hin) as (owned' & Hrem & Hnd' & Hmem).
  exists owned, owned'. split; [done|]. split; [done|]. split; [done|].
  unfold delete_chat. rewrite Hchat, bool_decide_eq_false_2 by (by intros H; apply H).
  rewrite Hl. simpl. by rewrite Hrem.
Qed.

Lemma delete_chat_index s chat_id user_id :
  index_consistent s → index_consistent (delete_chat s chat_id user_id).1.
Proof.
  intros Hs. destruct (chats s !! chat_id) as [chat|] eqn:Hchat.
  2:{ unfold delete_chat. by rewrite Hchat. }
  destruct (decide (userId (meta chat) = user_id)) as [Howner|Hne].
  2:{ unfold delete_chat. by rewrite Hchat, bool_decide_eq_true_2. }
  destruct (delete_chat_effect s chat_id user_id chat Hs Hchat Howner)
    as (owned & owned' & Hl & Hnd' & Hmem & ->).
  destruct Hs as [Hc Hi]. split; cbn [fst chats user_chats].
  - intros c x Hx. apply lookup_delete_Some in Hx as [Hne Hx].
    destruct (Hc c x Hx) as [Hid Hin]. split; [done|].
    destruct (decide (user_id = userId (meta x))) as [Hu|Hu].
    + rewrite <- Hu, lookup_insert_eq. simpl. apply Hmem.
      rewrite <- Hu, Hl in Hin. by split.
    + by rewrite lookup_insert_ne.
  - intros u l Hu. destruct (decide (user_id = u)) as [<-|Hne].
    + rewrite lookup_insert_eq in Hu. injection Hu as <-. split; [done|].
      intros c Hin. apply Hmem in Hin as [Hin Hne].
      destruct (Hi user_id owned Hl) as [_ Hall].
      destruct (Hall c Hin) as (x & Hx & Hux). exists x.
      by rewrite lookup_delete_ne.
    + rewrite lookup_insert_ne in Hu by done.
      destruct (Hi u l Hu) as [Hnd Hall]. split; [done|].
      intros c Hin. destruct (Hall c Hin) as (x & Hx & Hux). exists x.
      rewrite lookup_delete_ne; [done|]. intros <-.
      rewrite Hchat in Hx. injection Hx as <-. by rewrite Howner in Hux.
Qed.

Lemma run_index s c : fresh s c → index_consistent s → index_consistent (run s c).
Proof.
  intros Hfresh Hs.
  destruct c as [chat_id created_at user_id initial_message
                |timestamp chat_id who what pr dom ent conf
                |now chat_id new_title|chat_id user_id|now chat_id include_text];
    simpl in *.
  - by apply create_chat_index.
  - destruct (chats s !! chat_id) as [chat|] eqn:Hchat.
    2:{ by rewrite add_message_missing. }
    destruct (add_message_effect s timestamp chat_id who what pr dom ent conf chat
                Hchat)
      as (chat' & Hchats & Husers & _ & _ & _ & _ & Hid & Howner & _).
    by apply (replace_chat_index s _ chat_id chat chat').
  - unfold update_chat_title. destruct (chats s !! chat_id) as [chat|] eqn:Hchat; [|done].
    cbn [fst]. by eapply (replace_chat_index s _ chat_id chat); [done|reflexivity|..].
  - by apply delete_chat_index.
  - unfold get_emotion_summary. destruct (chats s !! chat_id) as [chat|]; [|done].
    destruct (messages chat); [done|]. destruct (argmax _); [|done].
    destruct Hs as [Hc Hi]. by split.
Qed.

Lemma runs_index calls : ∀ s,
  admissible s calls → index_consistent s → index_consistent (foldl run s calls).
Proof.
  induction calls as [|c calls IH]; intros s Hadm Hs; [done|].
  destruct Hadm as [Hfresh Hadm]. simpl. apply IH; [done|]. by apply run_index.
Qed.
End Index.

Section IndexClaims.
Import Py Storage Spec.
Context {U : Unicode}.

(** X16: in every store reached from the empty one by calls in which each
    new chat gets an identifier that no chat of the store has, the index by
    user agrees with the chats: every chat carries its own identifier and
    is listed under its owner, and every list of the index is without
    repetition and names only chats that exist and belong to that user. *)
Theorem index_agrees (calls : list call) :
  admissible init calls → index_consistent (foldl run init calls).
Proof. intros H. apply runs_index; [done|apply init_index]. Qed.

(** X17: in such a store [delete_chat] never raises. It returns [True]
    exactly for a chat of the store that belongs to the given user; the chat
    is then gone from the chats, from the cache of summaries and from the
    list of its owner, and the lists of the other users are as before. In
    every other case it returns [False] and leaves the store as it is. *)
Theorem delete_chat_reachable (calls : list call) chat_id user_id :
  admissible init calls →
  let s := foldl run init calls in
  let res := delete_chat s chat_id user_id in
  match chats s !! chat_id with
  | Some chat =>
      if decide (userId (meta chat) = user_id) then
        res.2 = Return true
        ∧ chats res.1 = delete chat_id (chats s)
        ∧ emotion_cache res.1 = delete chat_id (emotion_cache s)
        ∧ (∃ owned owned',
             user_chats s !! user_id = Some owned
             ∧ user_chats res.1 !! user_id = Some owned'
             ∧ ∀ c, c ∈ owned' ↔ c ∈ owned ∧ c ≠ chat_id)
        ∧ ∀ u, u ≠ user_id → user_chats res.1 !! u = user_chats s !! u
      else res = (s, Return false)
  | None => res = (s, Return false)
  end.
Proof.
  intros Hadm s res. subst res.
  assert (Hs : index_consistent s) by (by apply runs_index; [|apply init_index]).
  destruct (chats s !! chat_id) as [chat|] eqn:Hchat.
  2:{ unfold delete_chat. by rewrite Hchat. }
  destruct (decide (userId (meta chat) = user_id)) as [Howner|Hne].
  2:{ unfold delete_chat. by rewrite Hchat, bool_decide_eq_true_2. }
  destruct (delete_chat_effect s chat_id user_id chat Hs Hchat Howner)
    as (owned & owned' & Hl & Hnd' & Hmem & ->).
  cbn [fst snd chats user_chats emotion_cache].
  split; [done|]. split; [done|]. split; [done|]. split.
  - exists owned, owned'. split; [done|]. split; [apply lookup_insert_eq|done].
  - intros u Hu. by rewrite lookup_insert_ne.
Qed.
End IndexClaims.

Section StoreWitnesses.
Import Py Storage Spec.

Lemma message_ids_witness :
  ∃ chat, chats (foldl (@run ascii_unicode) init raising_calls) !! "c1" = Some chat
    ∧ length (messages chat) = 2%nat
    ∧ id <$> messages chat = seq 1 (length (messages chat)).
Proof.
  destruct (chats (foldl (@run ascii_unicode) init raising_calls) !! "c1")
    as [chat|] eqn:E.
  - exists chat. split; [reflexivity|]. split.
    + vm_compute in E. injection E as <-. reflexivity.
    + exact (@message_ids ascii_unicode raising_calls "c1" chat E).
  - vm_compute in E. discriminate.
Defined.

Lemma index_agrees_witness :
  admissible (U := ascii_unicode) init raising_calls
  ∧ index_consistent (foldl (@run ascii_unicode) init raising_calls).
Proof.
  assert (H : admissible (U := ascii_unicode) init raising_calls).
  { vm_compute. done. }
  split; [exact H|]. exact (@index_agrees ascii_unicode raising_calls H).
Defined.

Lemma delete_chat_reachable_witness :
  admissible (U := ascii_unicode) init raising_calls
  ∧ (@delete_chat (foldl (@run ascii_unicode) init raising_calls) "c1" "u1").2
    = Return true.
Proof.
  assert (H : admissible (U := ascii_unicode) init raising_calls).
  { vm_compute. done. }
  split; [exact H|].
  pose proof (@delete_chat_reachable ascii_unicode raising_calls "c1" "u1" H) as T.
  cbv zeta in T.
  remember (foldl (@run ascii_unicode) init raising_calls) as s eqn:Hs.
  destruct (chats s !! "c1") as [chat|] eqn:E.
  - destruct (decide (userId (meta chat) = "u1")) as [_|Hne]; [exact (proj1 T)|].
    exfalso. apply Hne. rewrite Hs in E. vm_compute in E. injection E as <-.
    reflexivity.
  - rewrite Hs in E. vm_compute in E. discriminate.
Defined.
End StoreWitnesses.

(** ** The summary of a chat with messages *)

Section SummaryFacts.
Import Py Storage Spec.


Lemma keys_cons {V} k (v : V) (d : dict V) : keys ((k, v) :: d) = k :: keys d.
Proof. reflexivity. Qed.

Lemma get_absent {V} k (d : dict V) : k ∉ keys d → get k d = None.
Proof.
  induction d as [|[k' v'] d IH]; [done|]. rewrite keys_cons. intros H.
  apply not_elem_of_cons in H as [Hne H]. simpl.
  rewrite decide_False by done. by apply IH.
Qed.

Lemma get_set {V} k k' (v : V) (d : dict V) :
  get k (set k' v d) = if decide (k = k') then Some v else get k d.
Proof.
  induction d as [|[k0 v0] d IH]; simpl.
  - done.
  - destruct (decide (k' = k0)) as [->|Hne]; simpl.
    + by destruct (decide (k = k0)).
    + destruct (decide (k = k0)) as [->|Hne'].
      * rewrite decide_False; [done|]. by intros ->.
      * apply IH.
Qed.

Lemma keys_set_fresh {V} k (v : V) (d : dict V) :
  k ∉ keys d → keys (set k v d) = keys d ++ [k].
Proof.
  induction d as [|[k0 v0] d IH]; [done|]. rewrite keys_cons. intros H.
  apply not_elem_of_cons in H as [Hne H]. simpl.
  rewrite decide_False by done. rewrite !keys_cons, IH by done. done.
Qed.




Lemma sums_items_nonempty (items : dict Qc) : ∀ sums : dict Qc,
  sums ≠ [] ∨ items ≠ [] →
  foldl (λ sums item, set item.1 (default 0 (get item.1 sums) + item.2) sums)
        sums items ≠ [].
Proof.
  induction items as [|[k v] items IH]; intros sums H.
  - by destruct H.
  - cbn [foldl]. apply IH. left. apply set_nonempty.
Qed.

Lemma sums_nonempty msgs : ∀ sums : dict Qc,
  sums ≠ [] ∨ (∃ msg, msg ∈ msgs ∧ probs msg ≠ []) →
  foldl (λ sums msg,
           foldl (λ sums item,
                    set item.1 (default 0 (get item.1 sums) + item.2) sums)
                 sums (probs msg))
        sums msgs ≠ [].
Proof.
  induction msgs as [|m msgs IH]; intros sums H.
  - destruct H as [H|(msg & Hin & _)]; [done|by apply elem_of_nil in Hin].
  - cbn [foldl]. apply IH.
    destruct (decide (probs m = [])) as [Hm|Hm].
    + rewrite Hm. simpl. destruct H as [H|(msg & Hin & Hne)]; [by left|].
      apply elem_of_cons in Hin as [->|Hin]; [done|]. right. by exists msg.
    + left. apply sums_items_nonempty. by right.
Qed.

Lemma sums_items_get (items : dict Qc) : ∀ (sums : dict Qc) k,
  NoDup (keys items) →
  default 0 (get k (foldl (λ sums item,
                             set item.1 (default 0 (get item.1 sums) + item.2) sums)
                          sums items))
  = default 0 (get k sums) + default 0 (get k items).
Proof.
  induction items as [|[k0 v0] items IH]; intros sums k Hnd.
  - simpl. ring.
  - rewrite keys_cons in Hnd. apply NoDup_cons in Hnd as [Hk0 Hnd].
    cbn [foldl fst snd]. rewrite IH by done. rewrite get_set. simpl.
    destruct (decide (k = k0)) as [->|Hne]; [|done].
    rewrite (get_absent k0 items Hk0). simpl. ring.
Qed.

Lemma sums_get msgs : ∀ (sums : dict Qc) k,
  Forall (λ msg, NoDup (keys (probs msg))) msgs →
  default 0 (get k (foldl (λ sums msg,
                             foldl (λ sums item,
                                      set item.1 (default 0 (get item.1 sums) + item.2)
                                          sums)
                                   sums (probs msg))
                          sums msgs))
  = default 0 (get k sums) + sum ((λ msg, default 0 (get k (probs msg))) <$> msgs).
Proof.
  induction msgs as [|m msgs IH]; intros sums k Hall.
  - simpl. change (sum []) with 0. ring.
  - apply Forall_cons in Hall as [Hm Hall]. cbn [foldl].
    rewrite IH, sums_items_get, fmap_cons, sum_cons by done. ring.
Qed.

Lemma sums_items_keys (items : dict Qc) : ∀ sums : dict Qc,
  NoDup (keys items) →
  keys (foldl (λ sums item, set item.1 (default 0 (get item.1 sums) + item.2) sums)
              sums items)
  = keys sums ++ List.filter (λ k, bool_decide (k ∉ keys sums)) (keys items).
Proof.
  induction items as [|[k0 v0] items IH]; intros sums Hnd.
  - simpl. by rewrite app_nil_r.
  - rewrite keys_cons in Hnd. apply NoDup_cons in Hnd as [Hk0 Hnd].
    cbn [foldl fst snd]. rewrite IH by done. rewrite keys_cons. cbn [List.filter].
    destruct (decide (k0 ∈ keys sums)) as [Hin|Hin].
    + rewrite keys_set_known by done.
      rewrite bool_decide_eq_false_2 by (by intros H; apply H). done.
    + rewrite keys_set_fresh by done. rewrite bool_decide_eq_true_2 by done.
      rewrite <- app_assoc. f_equal. simpl. f_equal.
      apply filter_ext_in. intros k Hk. apply bool_decide_ext.
      rewrite elem_of_app, list_elem_of_singleton. split; [tauto|].
      intros H [H'| ->]; [done|]. by apply Hk0, list_elem_of_In.
Qed.

Lemma sums_keys_covered msgs : ∀ sums : dict Qc,
  Forall (λ msg, NoDup (keys (probs msg))
                 ∧ ∀ k, k ∈ keys (probs msg) → k ∈ keys sums) msgs →
  keys (foldl (λ sums msg,
                 foldl (λ sums item,
                          set item.1 (default 0 (get item.1 sums) + item.2) sums)
                       sums (probs msg))
              sums msgs)
  = keys sums.
Proof.
  induction msgs as [|m msgs IH]; intros sums Hall; [done|].
  apply Forall_cons in Hall as [[Hnd Hm] Hall]. cbn [foldl].
  assert (Hk : keys (foldl (λ sums item,
                              set item.1 (default 0 (get item.1 sums) + item.2) sums)
                           sums (probs m)) = keys sums).
  { rewrite sums_items_keys by done.
    rewrite (filter_ext_in _ (λ _, false)); [by rewrite filter_false, app_nil_r|].
    intros k Hk. apply bool_decide_eq_false_2. intros H. apply H, Hm.
    by apply list_elem_of_In. }
  rewrite IH; [done|]. eapply Forall_impl; [exact Hall|].
  intros msg [H1 H2]. split; [done|]. intros k Hkk. rewrite Hk. by apply H2.
Qed.

Lemma get_map_values {V W} (f : V → W) k (d : dict V) :
  get k (map_values f d) = f <$> get k d.
Proof.
  induction d as [|[k0 v0] d IH]; [done|]. simpl.
  destruct (decide (k = k0)); [done|apply IH].
Qed.
End SummaryFacts.

Section SummaryRun.
Import Py Storage Spec.
Context {U : Unicode}.

Lemma argmax_nonempty (d : dict Qc) : d ≠ [] → is_Some (argmax d).
Proof. destruct d; [done|]. intros _. by eexists. Qed.

(** A chat with a message that has probabilities gets a summary, which is
    cached *)
Lemma summary_run s now chat_id include_summary_text chat :
  chats s !! chat_id = Some chat →
  (∃ msg, msg ∈ messages chat ∧ probs msg ≠ []) →
  ∃ r,
    get_emotion_summary s now chat_id include_summary_text
    = (cached s chat_id r, Return (Some r))
    ∧ scores r = mean_scores (messages chat)
    ∧ argmax (scores r) = Some (sum_dominant_emotion r)
    ∧ sum_confidence r
      = round2 (1 - sum (entropy <$> messages chat)
                    / of_nat (length (messages chat)))
    ∧ sum_chatId r = chat_id
    ∧ (is_Some (summary_text r) ↔ include_summary_text = true).
Proof.
  intros Hchat Hsome. unfold get_emotion_summary. rewrite Hchat.
  assert (Hne : mean_scores (messages chat) ≠ []).
  { unfold mean_scores, map_values. intros H. apply fmap_nil_inv in H. revert H.
    apply sums_nonempty. by right. }
  destruct (argmax_nonempty _ Hne) as [d Hd].
  unfold mean_scores, emotion_sums in Hd.
  destruct (messages chat) as [|m msgs] eqn:Hm.
  { destruct Hsome as (msg & Hin & _). by apply elem_of_nil in Hin. }
  cbv zeta. rewrite Hd. eexists. split; [reflexivity|]. cbn [scores].
  split; [reflexivity|]. split; [exact Hd|]. split; [reflexivity|].
  split; [reflexivity|]. cbn [summary_text].
  destruct include_summary_text; split; done.
Qed.
End SummaryRun.

Section SummaryClaims.
Import Py Storage Spec.
Context {U : Unicode}.

Lemma covers_NoDup (d : dict Qc) : covers_labels d → NoDup (keys d).
Proof.
  unfold covers_labels. intros ->. unfold ModelAdapter.EMOTIONS. by_compute.
Qed.

Lemma emotion_sums_keys m msgs :
  Forall (λ msg, covers_labels (probs msg)) (m :: msgs) →
  keys (emotion_sums (m :: msgs)) = keys (probs m).
Proof.
  intros Hall. apply Forall_cons in Hall as [Hm Hall].
  unfold emotion_sums. cbn [foldl].
  assert (Hk : keys (foldl (λ sums item,
                              set item.1 (default 0 (get item.1 sums) + item.2) sums)
                           [] (probs m)) = keys (probs m)).
  { rewrite sums_items_keys by (by apply covers_NoDup).
    change (keys []) with (@nil string). cbn [app].
    rewrite (filter_ext_in _ (λ _, true)); [apply filter_true|].
    intros k _. apply bool_decide_eq_true_2, not_elem_of_nil. }
  rewrite sums_keys_covered; [done|].
  eapply Forall_impl; [exact Hall|]. intros msg Hmsg.
  split; [by apply covers_NoDup|]. intros k Hin. rewrite Hk.
  unfold covers_labels in Hm, Hmsg. rewrite Hm. by rewrite <- Hmsg.
Qed.


(** X19: when the probabilities of every message cover the ten labels, the
    summary lists the labels in the order of the first message and the
    score of each label is the mean of its probabilities over the
    messages. *)
Theorem summary_mean s now chat_id include_summary_text chat :
  chats s !! chat_id = Some chat → messages chat ≠ [] →
  Forall (λ msg, covers_labels (probs msg)) (messages chat) →
  ∃ r first,
    get_emotion_summary s now chat_id include_summary_text
    = (cached s chat_id r, Return (Some r))
    ∧ head (messages chat) = Some first
    ∧ keys (scores r) = keys (probs first)
    ∧ ∀ e, e ∈ ModelAdapter.EMOTIONS →
        get e (scores r)
        = Some (sum ((λ msg, default 0 (get e (probs msg))) <$> messages chat)
                / of_nat (length (messages chat))).
Proof.
  intros Hchat Hne Hall.
  destruct (messages chat) as [|m msgs] eqn:Hm; [done|].
  assert (Hsome : ∃ msg, msg ∈ messages chat ∧ probs msg ≠ []).
  { exists m. rewrite Hm. split; [apply list_elem_of_here|].
    apply Forall_cons in Hall as [Hcov _]. unfold covers_labels in Hcov.
    intros H. rewrite H in Hcov. by apply Permutation_nil_l in Hcov. }
  destruct (summary_run s now chat_id include_summary_text chat Hchat Hsome)
    as (r & Hrun & Hscores & _).
  rewrite Hm in Hscores.
  exists r, m. split; [done|]. split; [done|].
  assert (Hkeys : keys (emotion_sums (m :: msgs)) = keys (probs m))
    by (by apply emotion_sums_keys).
  split.
  - rewrite Hscores. unfold mean_scores. by rewrite keys_map_values.
  - intros e He. rewrite Hscores. unfold mean_scores. rewrite get_map_values.
    assert (Hin : e ∈ keys (emotion_sums (m :: msgs))).
    { rewrite Hkeys. apply Forall_cons in Hall as [Hcov _].
      unfold covers_labels in Hcov. by rewrite Hcov. }
    destruct (get_is_Some e _ Hin) as [x Hx]. rewrite Hx. simpl. do 2 f_equal.
    pose proof (sums_get (m :: msgs) [] e) as Hget.
    fold (emotion_sums (m :: msgs)) in Hget. rewrite Hx in Hget. simpl in Hget.
    rewrite Hget.
    + ring.
    + eapply Forall_impl; [exact Hall|]. intros msg. apply covers_NoDup.
Qed.
End SummaryClaims.

Section SummaryWitnesses.
Import Py Storage Spec.


Lemma summary_mean_witness :
  ∃ r, (get_emotion_summary two_messages_store "t9" "c1" true).2 = Return (Some r)
     ∧ keys (scores r) = ModelAdapter.EMOTIONS
     ∧ get "anger" (scores r) = Some (dec 0.7).
Proof.
  assert (E : chats two_messages_store !! "c1" = Some two_messages)
    by apply lookup_insert_eq.
  destruct (summary_mean two_messages_store "t9" "c1" true two_messages E)
    as (r & m & Hrun & Hm & Hkeys & Hget).
  - discriminate.
  - repeat constructor.
  - exists r. split; [by rewrite Hrun|]. injection Hm as <-. split; [exact Hkeys|].
    rewrite (Hget "anger") by (unfold ModelAdapter.EMOTIONS; by_compute).
    f_equal; apply Qc_this_inj; by vm_compute.
Defined.
End SummaryWitnesses.

(** ** The endpoints of the chat store *)

Section EndpointFacts.
Import Py Storage Spec.
Context {U : Unicode}.

(** [add_message] on a chat whose timeline has every label of the message *)
Lemma add_message_returns s timestamp chat_id speaker text probs dominant entropy
    confidence chat :
  chats s !! chat_id = Some chat →
  (∀ k, k ∈ keys probs → is_Some (emotionTimeline chat !! k)) →
  ∃ s' chat',
    add_message s timestamp chat_id speaker text probs dominant entropy confidence
    = (s', Return ())
    ∧ chats s' = <[chat_id := chat']> (chats s)
    ∧ messages chat'
      = messages chat
        ++ [new_message chat timestamp speaker text probs dominant entropy confidence]
    ∧ userId (meta chat') = userId (meta chat)
    ∧ messageCount (meta chat') = S (length (messages chat))
    ∧ title (meta chat')
      = (if bool_decide (speaker = "user") && bool_decide (messages chat = [])
         then _generate_title text else title (meta chat))
    ∧ snippet (meta chat')
      = (if bool_decide (speaker = "user") && bool_decide (messages chat = [])
         then preview text else snippet (meta chat))
    ∧ ∃ n, max_by Nat.ltb snd (emotion_counts (messages chat'))
           = Some (dominant_emotion (meta chat'), n).
Proof.
  intros Hchat Hkeys.
  destruct (add_message_effect s timestamp chat_id speaker text probs dominant entropy
              confidence chat Hchat)
    as (chat' & Hchats & _ & _ & Hres & Hmsgs & _ & _ & Howner & Hcount & Htitle
        & Hsnippet & Hdom).
  apply update_timeline_returns in Hkeys. rewrite Hkeys in Hres, Htitle, Hsnippet, Hdom.
  destruct (add_message s timestamp chat_id speaker text probs dominant entropy
              confidence) as [s' r].
  simpl in Hres, Hchats. subst r. exists s', chat'. done.
Qed.

Lemma new_timeline_covers e :
  e ∈ ModelAdapter.EMOTIONS →
  is_Some ((list_to_map ((λ e, (e, [])) <$> Models.EmotionType)
              : gmap string (list Qc)) !! e).
Proof.
  unfold ModelAdapter.EMOTIONS. intros He.
  repeat (apply elem_of_cons in He as [->|He]; [by eexists|]).
  by apply elem_of_nil in He.
Qed.
End EndpointFacts.

Section EndpointClaims.
Import Py Storage Spec Endpoints.
Context {U : Unicode} {B : Builtins} {G : ModelAdapter.GenerativeModel}
        {M : Main.MathLib}.

Lemma entropy_defined (probs : dict Qc) :
  probs ≠ [] → is_Some (Main.calculate_entropy probs).
Proof. destruct probs; [done|]. intros _. by eexists. Qed.

Lemma one_vote (msg : message) d n :
  max_by Nat.ltb snd (emotion_counts [msg]) = Some (d, n) → d = dominant msg.
Proof. by intros [= <- _]. Qed.

(** X20: [create_new_chat] never answers with the status 500, whatever the
    store, the text, the model and the float parser: it answers with the
    identifier and the creation time of the chat, which is in the store
    under that identifier with the given user. With a non-empty initial
    message, the chat holds that one message, numbered 1 and sent by
    "user", with the distribution of the classifier and its dominant label,
    which is also the dominant emotion of the chat; title and snippet are
    drawn from the text. Without one, the chat is empty and neutral. *)
Theorem create_new_chat_ok s chat_id created_at timestamp user_id initialMessage :
  let res := create_new_chat s chat_id created_at timestamp user_id initialMessage in
  res.2 = Ok {| ccr_chatId := chat_id; ccr_id := chat_id; ccr_userId := user_id;
                ccr_createdAt := created_at;
                ccr_message := "Chat created successfully" |}
  ∧ ∃ chat, get_chat res.1 chat_id = Some chat
      ∧ userId (meta chat) = user_id
      ∧ messageCount (meta chat) = length (messages chat)
      ∧ match initialMessage with
        | Some ((_ :: _) as text) =>
            ∃ msg, messages chat = [msg]
              ∧ id msg = 1%nat ∧ speaker msg = "user" ∧ Storage.text msg = text
              ∧ probs msg = ModelAdapter.classify_emotion text []
              ∧ argmax (probs msg) = Some (dominant msg)
              ∧ dominant_emotion (meta chat) = dominant msg
              ∧ title (meta chat) = _generate_title text
              ∧ snippet (meta chat) = preview text
        | _ => messages chat = [] ∧ dominant_emotion (meta chat) = "neutral"
        end.
Proof.
  intros res. subst res. unfold create_new_chat, create_chat.
  destruct initialMessage as [[|c text]|]; cbv beta iota zeta; cbn [fst snd].
  1,3: split; [done|]; eexists; (split; [apply lookup_insert_eq|]); done.
  set (probs := ModelAdapter.classify_emotion (c :: text) []).
  destruct (classify_argmax (c :: text) []) as (label & p & Hmax & _).
  fold probs in Hmax.
  assert (Harg : argmax probs = Some label) by (by unfold argmax; rewrite Hmax).
  rewrite !Harg.
  destruct (entropy_defined probs) as [entropy Hent].
  { subst probs. intros H. pose proof (classify_length (c :: text) []) as Hl.
    by rewrite H in Hl. }
  rewrite !Hent.
  set (s1 := {| chats := _; user_chats := _; emotion_cache := _ |}).
  set (chat0 := {| meta := _; messages := []; emotionTimeline := _ |}) in *.
  destruct (add_message_returns s1 timestamp chat_id "user" (c :: text) probs label
              entropy (Main.get_confidence_bucket entropy) chat0)
    as (s' & chat' & Hadd & Hchats & Hmsgs & Howner & Hcount & Htitle & Hsnippet
        & n & Hvote).
  { apply lookup_insert_eq. }
  { intros k Hk. apply new_timeline_covers. subst probs.
    by rewrite classify_keys in Hk. }
  rewrite !Hadd. cbn [fst snd]. split; [done|].
  exists chat'. unfold get_chat. rewrite Hchats, lookup_insert_eq.
  split; [done|]. split; [by rewrite Howner|]. split; [by rewrite Hcount, Hmsgs|].
  eexists. split; [exact Hmsgs|]. cbn [new_message id speaker Storage.text Storage.probs
                                        dominant messages chat0].
  split; [done|]. split; [done|]. split; [done|]. split; [done|].
  split; [done|].
  rewrite Hmsgs in Hvote. apply one_vote in Hvote.
  split; [done|]. by rewrite Htitle, Hsnippet.
Qed.

End EndpointClaims.

Section EndpointWitness.
Import Py Storage Spec Endpoints.


End EndpointWitness.

(** ** The analysis of a conversation *)

Section AnalyzeFacts.
Import Py Spec Endpoints.
Context {U : Unicode} {B : Builtins} {G : ModelAdapter.GenerativeModel}
        {M : Main.MathLib}.

(** What the loop makes of one message *)
Lemma analyze_loop_spec messages : ∀ analyzed raw_intensities,
  ∃ items intensities,
    analyze_loop analyzed raw_intensities messages
    = Some (analyzed ++ items, raw_intensities ++ intensities)
    ∧ length intensities = length messages
    ∧ Forall2 (λ msg am,
                 am_id am = msg_id msg ∧ am_speaker am = msg_speaker msg
                 ∧ am_text am = msg_text msg ∧ am_ts am = msg_ts msg
                 ∧ am_probs am = ModelAdapter.classify_emotion (msg_text msg) []
                 ∧ Main.get_dominant_emotion (am_probs am) = Some (am_dominant am)
                 ∧ am_dominant am ∈ ModelAdapter.EMOTIONS)
              messages items.
Proof.
  induction messages as [|msg rest IH]; intros analyzed raw_intensities.
  - exists [], []. rewrite !app_nil_r. by repeat split.
  - cbn [analyze_loop]. cbv zeta.
    set (probs := ModelAdapter.classify_emotion (msg_text msg) []).
    destruct (entropy_defined probs) as [entropy Hent].
    { subst probs. intros H. pose proof (classify_length (msg_text msg) []) as Hl.
      by rewrite H in Hl. }
    destruct (classify_argmax (msg_text msg) []) as (label & p & Hmax & Hlabel & Hin & _).
    fold probs in Hmax, Hin.
    assert (Hdom : Main.get_dominant_emotion probs = Some label).
    { unfold Main.get_dominant_emotion. by rewrite Hmax. }
    destruct (get_is_Some label probs) as [q Hq].
    { subst probs. by rewrite classify_keys. }
    rewrite Hent, Hdom. cbn [mbind option_bind]. rewrite Hq. cbn [mbind option_bind].
    match goal with
    | |- context [analyze_loop (analyzed ++ [?am]) (raw_intensities ++ [q]) rest] =>
        destruct (IH (analyzed ++ [am]) (raw_intensities ++ [q]))
          as (items & intensities & Hrun & Hlen & Hall); exists (am :: items)
    end.
    exists (q :: intensities). rewrite Hrun, <- !app_assoc.
    split; [done|]. split; [by rewrite !length_cons, Hlen|].
    constructor; [|done]. by repeat split.
Qed.

Lemma smoothing_runs values window :
  ∃ smoothed, Main.apply_smoothing values window = Some smoothed
              ∧ length smoothed = length values.
Proof.
  destruct (decide (1 ≤ window)%Z) as [Hw|Hw].
  - destruct (apply_smoothing_spec values window Hw) as (l & Hrun & Hl).
    exists l. split; [done|]. apply Forall2_length in Hl.
    by rewrite <- Hl, length_seq.
  - exists values. split; [|done]. unfold Main.apply_smoothing.
    by destruct (window <? 1)%Z eqn:H1; [|lia].
Qed.

(** X22: [analyze_conversation] answers with the status 500, leaving the
    sessions as they are, exactly when the request has no message or a
    null smoothing window. In every other case it answers, whatever the
    texts, the model and the float parser: each message comes back with the
    distribution of the classifier and its dominant label, one of the ten;
    the raw and the smoothed timeline have one value per message; the peaks
    are positions of messages, in strictly increasing order; and the
    analysed messages are stored under the session identifier. *)
Theorem analyze_conversation_spec sessions now session_id messages smoothing_window :
  let res := analyze_conversation sessions now session_id messages smoothing_window in
  match messages, smoothing_window with
  | _ :: _, Some window =>
      ∃ body,
        res = (<[session_id := {| session_messages := ar_messages body;
                                  last_updated := now;
                                  last_message := None |}]> sessions, Ok body)
        ∧ Forall2 (λ msg am,
                     am_id am = msg_id msg ∧ am_speaker am = msg_speaker msg
                     ∧ am_text am = msg_text msg ∧ am_ts am = msg_ts msg
                     ∧ am_probs am = ModelAdapter.classify_emotion (msg_text msg) []
                     ∧ Main.get_dominant_emotion (am_probs am) = Some (am_dominant am)
                     ∧ am_dominant am ∈ ModelAdapter.EMOTIONS)
                  messages (ar_messages body)
        ∧ length (raw (ar_timeline body)) = length messages
        ∧ length (smoothed (ar_timeline body)) = length messages
        ∧ StronglySorted lt (peaks (ar_timeline body))
        ∧ Forall (λ i, i < length messages)%nat (peaks (ar_timeline body))
  | _, _ => res = (sessions, HTTPException 500)
  end.
Proof.
  intros res. subst res. unfold analyze_conversation.
  destruct (analyze_loop_spec messages [] []) as (items & raws & -> & Hlen & Hall).
  cbn [app].
  destruct smoothing_window as [window|]; [|by destruct messages].
  destruct (smoothing_runs raws window) as (sm & -> & Hsm).
  rewrite detect_peaks_total.
  destruct (spec_peaks_sound sm (dec 0.7)) as (Hsorted & Hpeaks & _).
  pose proof (Forall2_length _ _ _ Hall) as Hitems.
  destruct messages as [|msg rest].
  { apply Forall2_nil_inv_l in Hall as ->. done. }
  destruct items as [|item items]; [done|]. cbn [length].
  match goal with |- context [Ok ?b] => exists b end.
  split; [reflexivity|]. cbn [ar_messages ar_timeline raw smoothed peaks].
  split; [done|]. rewrite !length_fmap. split; [done|]. split; [by rewrite Hsm|].
  split; [done|]. eapply Forall_impl; [exact Hpeaks|].
  intros i (v & Hv & _). apply lookup_lt_Some in Hv. by rewrite Hsm, Hlen in Hv.
Qed.
End AnalyzeFacts.

(** ** The reply endpoint *)

Section ReplyFacts.
Import Py Spec Endpoints.
Context {U : Unicode} {B : Builtins} {G : ModelAdapter.GenerativeModel}
        {M : Main.MathLib} {R : ModelAdapter.ReplyModel}.

Lemma generate_reply_str text emotion entropy :
  ModelAdapter.generate_reply text emotion
    (ModelAdapter.HistoryStr (lit (Main.get_confidence_bucket entropy))) = None.
Proof.
  unfold Main.get_confidence_bucket.
  destruct (Qc_ltb entropy (dec 0.3)); [reflexivity|].
  destruct (Qc_ltb entropy (dec 0.6)); reflexivity.
Qed.

(** X23: [chat_reply] can never answer with a reply. Whatever the message,
    the sessions, the model and the float parser, it answers with the status
    500 and leaves the sessions as they are: the confidence bucket, a
    non-empty [str], is passed where [generate_reply] expects the history,
    and the loop over the history raises on its first character. *)
Theorem chat_reply_fails sessions now session_id message :
  chat_reply sessions now session_id message = (sessions, HTTPException 500).
Proof.
  unfold chat_reply. cbv zeta.
  destruct (Main.calculate_entropy _) as [entropy|]; [|done].
  destruct (Main.get_dominant_emotion _) as [dominant|]; [|done].
  by rewrite generate_reply_str.
Qed.
End ReplyFacts.

(** ** The history of a user, page by page *)

Section Sorting.
Import Py.

Lemma insert_by_key_perm x l : insert_by_key x l ≡ₚ x :: l.
Proof.
  induction l as [|y l IH]; simpl; [done|].
  destruct (String.leb y.2 x.2); [done|]. rewrite IH. apply Permutation_swap.
Qed.

Lemma sorted_by_key_perm l : sorted_by_key l ≡ₚ l.
Proof.
  induction l as [|x l IH]; simpl; [done|].
  by rewrite insert_by_key_perm, IH.
Qed.

Lemma insert_by_key_sorted x l :
  Sorted (λ a b : string * string, String.leb b.2 a.2 = true) l →
  Sorted (λ a b : string * string, String.leb b.2 a.2 = true) (insert_by_key x l).
Proof.
  induction 1 as [|y l Hl IH Hy]; simpl; [by repeat constructor|].
  destruct (String.leb y.2 x.2) eqn:Hyx.
  - constructor; [by constructor|]. by constructor.
  - constructor; [done|].
    assert (Hxy : String.leb x.2 y.2 = true).
    { destruct (String.leb_total x.2 y.2) as [H|H]; [done|congruence]. }
    destruct Hy as [|z l Hz]; simpl; [by constructor|].
    destruct (String.leb z.2 x.2); by constructor.
Qed.

Lemma sorted_by_key_sorted l :
  Sorted (λ a b : string * string, String.leb b.2 a.2 = true) (sorted_by_key l).
Proof.
  induction l as [|x l IH]; simpl; [constructor|]. by apply insert_by_key_sorted.
Qed.

Lemma slice_nonneg {A} (l : list A) (start limit : Z) :
  (0 ≤ start)%Z → (0 ≤ limit)%Z →
  slice l start (start + limit) = take (Z.to_nat limit) (drop (Z.to_nat start) l).
Proof.
  intros Hs Hl. unfold slice, norm_index.
  destruct (start <? 0)%Z eqn:H1; [lia|].
  destruct (start + limit <? 0)%Z eqn:H2; [lia|].
  destruct (decide (Z.of_nat (length l) ≤ start)%Z) as [Hbig|Hsmall].
  - rewrite !drop_ge by lia. by rewrite !take_nil.
  - replace (Z.to_nat (Z.min start (Z.of_nat (length l)))) with (Z.to_nat start) by lia.
    destruct (decide (start + limit ≤ Z.of_nat (length l))%Z) as [Hin|Hout].
    + f_equal. lia.
    + rewrite !take_ge; [done|rewrite length_drop; lia|rewrite length_drop; lia].
Qed.

Lemma slice_fmap {A B} (f : A → B) (l : list A) start stop :
  slice (f <$> l) start stop = f <$> slice l start stop.
Proof. unfold slice. by rewrite length_fmap, fmap_take, fmap_drop. Qed.
End Sorting.

Section Listing.
Import Py Storage Spec.
Context {I : IntBuiltin}.

Lemma mapM_total {A B} (f : A → option B) (l : list A) :
  Forall (λ x, is_Some (f x)) l →
  ∃ k, mapM f l = Some k ∧ Forall2 (λ x y, f x = Some y) l k.
Proof.
  intros H. destruct (mapM f l) as [k|] eqn:Hk.
  - exists k. split; [done|]. by apply mapM_Some.
  - assert (Hs : is_Some (mapM f l)) by (by apply mapM_is_Some).
    rewrite Hk in Hs. by destruct Hs.
Qed.

Lemma Forall2_slice {A B} (R : A → B → Prop) l k start stop :
  Forall2 R l k → Forall2 R (slice l start stop) (slice k start stop).
Proof.
  intros H. unfold slice. rewrite (Forall2_length _ _ _ H).
  by apply Forall2_take, Forall2_drop.
Qed.

Lemma Sorted_fmap_inv {A B} (R : relation B) (f : A → B) (l : list A) :
  Sorted R (f <$> l) → Sorted (λ a b, R (f a) (f b)) l.
Proof.
  induction l as [|x l IH]; [constructor|]. rewrite fmap_cons. intros H.
  apply Sorted_inv in H as [Hl Hx]. constructor; [by apply IH|].
  destruct l as [|y l]; [constructor|]. rewrite fmap_cons in Hx.
  apply HdRel_inv in Hx. by constructor.
Qed.

Lemma Forall2_fmap_eq {A B C} (f : A → C) (g : B → C) l k :
  Forall2 (λ x y, f x = g y) l k → f <$> l = g <$> k.
Proof. induction 1; csimpl; congruence. Qed.

Lemma Forall2_with_l {A B} (P : A → Prop) (Q R : A → B → Prop) l k :
  Forall P l → Forall2 Q l k → (∀ x y, P x → Q x y → R x y) → Forall2 R l k.
Proof.
  intros HP HQ HR. induction HQ as [|x y l k Hxy _ IH]; [constructor|].
  apply Forall_cons in HP as [Hx HP]. constructor; [by apply HR|by apply IH].
Qed.

(** The whole history of a user, of which [get_user_chats] returns a
    slice *)
Lemma user_listing s user_id :
  index_consistent s → labels_valid s →
  ∃ listing,
    chi_chatId <$> listing ≡ₚ default [] (user_chats s !! user_id)
    ∧ latest_first listing
    ∧ Forall (λ item,
                ∃ chat, chats s !! chi_chatId item = Some chat
                  ∧ userId (meta chat) = user_id
                  ∧ chi_id item = chi_chatId item
                  ∧ chi_title item = title (meta chat)
                  ∧ chi_createdAt item = createdAt (meta chat)
                  ∧ chi_lastUpdatedAt item = lastUpdatedAt (meta chat)
                  ∧ chi_snippet item = snippet (meta chat)
                  ∧ chi_dominant_emotion item = dominant_emotion (meta chat)
                  ∧ chi_messageCount item = messageCount (meta chat))
             listing
    ∧ ∀ limit cursor,
        get_user_chats s user_id limit cursor
        = Some (slice listing (start_index cursor) (start_index cursor + limit),
                if (start_index cursor + limit <? Z.of_nat (length listing))%Z
                then Some (cursor_of (start_index cursor + limit)) else None,
                length listing).
Proof.
  intros [Hc Hi] Hvalid.
  set (owned := default [] (user_chats s !! user_id)).
  assert (Howned : ∀ cid, cid ∈ owned →
            ∃ chat, chats s !! cid = Some chat ∧ userId (meta chat) = user_id).
  { subst owned. destruct (user_chats s !! user_id) as [l|] eqn:Hl; simpl.
    - by destruct (Hi user_id l Hl) as [_ Hall].
    - intros cid Hin. by apply elem_of_nil in Hin. }
  destruct (mapM_total (λ cid, chat ← chats s !! cid;
                               Some (cid, lastUpdatedAt (meta chat))) owned)
    as (keyed & Hkeyed & Hk2).
  { apply Forall_forall. intros cid Hin.
    destruct (Howned cid Hin) as (chat & -> & _). by eexists. }
  assert (Hids : keyed.*1 = owned).
  { rewrite <- (list_fmap_id owned).
    apply (Forall2_fmap_eq fst Datatypes.id), Forall2_flip.
    eapply Forall2_impl; [exact Hk2|]. intros cid kv Hkv. unfold flip.
    simpl in Hkv. destruct (chats s !! cid); simpl in Hkv; [|done].
    by injection Hkv as <-. }
  set (sorted := sorted_by_key keyed).
  assert (Hperm : sorted.*1 ≡ₚ owned).
  { rewrite <- Hids. subst sorted. by rewrite sorted_by_key_perm. }
  destruct (mapM_total (history_item s) (sorted.*1)) as (listing & Hlisting & Hl2).
  { apply Forall_forall. intros cid Hin. rewrite Hperm in Hin.
    destruct (Howned cid Hin) as (chat & Hchat & _). unfold history_item.
    rewrite Hchat. simpl.
    rewrite bool_decide_eq_true_2 by apply (Hvalid cid chat Hchat). by eexists. }
  assert (Hitem : ∀ cid item, history_item s cid = Some item →
            chi_chatId item = cid
            ∧ ∃ chat, chats s !! cid = Some chat
                ∧ chi_id item = chi_chatId item
                ∧ chi_title item = title (meta chat)
                ∧ chi_createdAt item = createdAt (meta chat)
                ∧ chi_lastUpdatedAt item = lastUpdatedAt (meta chat)
                ∧ chi_snippet item = snippet (meta chat)
                ∧ chi_dominant_emotion item = dominant_emotion (meta chat)
                ∧ chi_messageCount item = messageCount (meta chat)).
  { intros cid item. unfold history_item.
    destruct (chats s !! cid) as [chat|]; [|done]. simpl.
    destruct (bool_decide _); [|done]. intros [= <-]. split; [done|].
    by exists chat. }
  assert (Hcids : chi_chatId <$> listing = sorted.*1).
  { rewrite <- (list_fmap_id (sorted.*1)).
    apply (Forall2_fmap_eq chi_chatId Datatypes.id), Forall2_flip.
    eapply Forall2_impl; [exact Hl2|]. intros cid item Hx. unfold flip.
    by apply Hitem. }
  exists listing. split; [by rewrite Hcids|]. split; [|split].
  - unfold latest_first.
    apply (Sorted_fmap_inv (λ a b, String.leb b a = true) chi_lastUpdatedAt).
    assert (Hkeys : chi_lastUpdatedAt <$> listing = sorted.*2).
    { assert (Hsorted : Forall (λ kv : string * string,
                ∃ chat, chats s !! kv.1 = Some chat
                        ∧ kv.2 = lastUpdatedAt (meta chat)) sorted).
      { apply Forall_forall. intros kv Hin.
        assert (Hin' : kv ∈ keyed).
        { subst sorted. by rewrite sorted_by_key_perm in Hin. }
        apply list_elem_of_lookup in Hin' as [i Hi'].
        destruct (Forall2_lookup_r _ _ _ i kv Hk2 Hi') as (cid & _ & Hkv).
        destruct (chats s !! cid) as [chat|] eqn:Hchat; [|done].
        injection Hkv as <-. by exists chat. }
      symmetry. apply (Forall2_fmap_eq snd chi_lastUpdatedAt).
      apply Forall2_fmap_l in Hl2.
      apply (Forall2_with_l _ _ _ _ _ Hsorted Hl2).
      intros kv item (chat & Hchat & Hkey) Hx.
      destruct (Hitem _ _ Hx) as (_ & chat' & Hchat' & _ & _ & _ & Hlast & _).
      rewrite Hchat in Hchat'. injection Hchat' as <-. by rewrite Hlast, Hkey. }
    rewrite Hkeys.
    apply (Sorted_fmap snd (λ a b : string * string, String.leb b.2 a.2 = true));
      [done|apply sorted_by_key_sorted].
  - apply Forall_forall. intros item Hin.
    apply list_elem_of_lookup in Hin as [i Hi'].
    destruct (Forall2_lookup_r _ _ _ i item Hl2 Hi') as (cid & Hcid & Hx).
    destruct (Hitem cid item Hx) as (Hid & chat & Hchat & Hrest).
    exists chat. split; [by rewrite Hid|]. split; [|exact Hrest].
    assert (Hin : cid ∈ owned).
    { rewrite <- Hperm. by apply list_elem_of_lookup_2 in Hcid. }
    destruct (Howned cid Hin) as (chat' & Hchat' & Hu).
    rewrite Hchat in Hchat'. by injection Hchat' as <-.
  - intros limit cursor. unfold get_user_chats. fold owned. rewrite Hkeyed.
    cbn [mbind option_bind]. cbv zeta. fold sorted.
    pose proof (Forall2_slice _ _ _ (start_index cursor) (start_index cursor + limit)
                  Hl2) as Hpage.
    apply mapM_Some in Hpage. rewrite Hpage. cbn [mbind option_bind].
    assert (Hlen : length listing = length owned).
    { rewrite <- (length_fmap chi_chatId), Hcids, Hperm. done. }
    by rewrite Hlen.
Qed.
End Listing.

Section Cursors.
Import Py Storage Spec.
Context {I : IntBuiltin}.

Lemma split_digits d :
  split_string (Ascii.ascii_of_N 95) (DecimalString.NilEmpty.string_of_uint d)
  = [DecimalString.NilEmpty.string_of_uint d].
Proof. induction d; simpl in *; [done|by rewrite IHd..]. Qed.

Lemma split_str_of_int n :
  (0 ≤ n)%Z → split_string (Ascii.ascii_of_N 95) (str_of_int n) = [str_of_int n].
Proof.
  intros Hn. unfold str_of_int. destruct n as [|p|p]; [done| |lia].
  simpl. unfold DecimalString.NilZero.string_of_uint.
  destruct (Pos.to_uint p) eqn:Hp; try apply split_digits.
  by apply DecimalPos.Unsigned.to_uint_nonnil in Hp.
Qed.

Lemma split_cursor tail :
  split_string (Ascii.ascii_of_N 95) ("cursor_" +:+ tail)
  = "cursor" :: split_string (Ascii.ascii_of_N 95) tail.
Proof. reflexivity. Qed.

(** The cursor that [get_user_chats] prints stands for its index, with an
    [int] that reads back what [str] prints *)
Lemma start_index_cursor n :
  (∀ n, (0 ≤ n)%Z → int (str_of_int n) = Some n) →
  (0 ≤ n)%Z → start_index (Some (cursor_of n)) = n.
Proof.
  intros Hint Hn. unfold start_index, cursor_of.
  rewrite split_cursor, split_str_of_int by done.
  change ("cursor_" +:+ str_of_int n)
    with (String (Ascii.ascii_of_N 99) ("ursor_" +:+ str_of_int n)).
  cbv beta iota. cbn [lookup list_lookup]. by rewrite Hint.
Qed.
End Cursors.

Section PagesFacts.
Import Py Storage Spec.
Context {I : IntBuiltin}.

(** Following the cursors from an index gives the rest of the listing *)
Lemma pages_from s user_id limit listing :
  (1 ≤ limit)%Z →
  (∀ n, (0 ≤ n)%Z → int (str_of_int n) = Some n) →
  (∀ limit cursor,
     get_user_chats s user_id limit cursor
     = Some (slice listing (start_index cursor) (start_index cursor + limit),
             if (start_index cursor + limit <? Z.of_nat (length listing))%Z
             then Some (cursor_of (start_index cursor + limit)) else None,
             length listing)) →
  ∀ fuel cursor,
    (0 ≤ start_index cursor)%Z →
    (Z.max 0 (Z.of_nat (length listing) - start_index cursor) < Z.of_nat fuel)%Z →
    concat (pages fuel s user_id limit cursor)
    = drop (Z.to_nat (start_index cursor)) listing
    ∧ Forall (λ page, (Z.of_nat (length page) ≤ limit)%Z)
             (pages fuel s user_id limit cursor).
Proof.
  intros Hlimit Hint Hpage fuel.
  induction fuel as [|fuel IH]; intros cursor Hk Hfuel; [lia|].
  cbn [pages]. rewrite Hpage. set (k := start_index cursor) in *.
  rewrite slice_nonneg by lia.
  assert (Hshort : (Z.of_nat (length (take (Z.to_nat limit) (drop (Z.to_nat k) listing)))
                    ≤ limit)%Z).
  { rewrite length_take. lia. }
  destruct (k + limit <? Z.of_nat (length listing))%Z eqn:Hnext.
  - assert (Hk' : start_index (Some (cursor_of (k + limit))) = (k + limit)%Z).
    { apply start_index_cursor; [done|lia]. }
    destruct (IH (Some (cursor_of (k + limit)))) as [Hrest Hpages].
    { rewrite Hk'. lia. }
    { rewrite Hk'. lia. }
    split; [|by constructor].
    rewrite concat_cons, Hrest, Hk'.
    replace (Z.to_nat (k + limit)) with (Z.to_nat k + Z.to_nat limit)%nat by lia.
    by rewrite <- drop_drop, take_drop.
  - split; [|by repeat constructor].
    rewrite concat_cons, concat_nil, app_nil_r. apply take_ge.
    rewrite length_drop. lia.
Qed.
End PagesFacts.

Section Labels.
Import Py Storage Spec.
Context {U : Unicode}.

Lemma majority_elem ds d : first_seen_majority ds d → d ∈ ds.
Proof.
  intros (pre & post & -> & _). apply elem_of_app. right. apply list_elem_of_here.
Qed.

Lemma add_message_labelled s timestamp chat_id who what pr dom ent conf :
  dom ∈ Models.EmotionType →
  map_Forall (λ _ chat, chat_labelled chat) (chats s) →
  map_Forall (λ _ chat, chat_labelled chat)
    (chats (add_message s timestamp chat_id who what pr dom ent conf).1).
Proof.
  intros Hdom Hs. destruct (chats s !! chat_id) as [chat|] eqn:Hchat.
  2:{ by rewrite add_message_missing. }
  destruct (add_message_effect s timestamp chat_id who what pr dom ent conf chat Hchat)
    as (chat' & -> & _ & _ & _ & Hmsgs & _ & _ & _ & _ & _ & _ & Hvote).
  destruct (Hs chat_id chat Hchat) as [Hmeta Hall].
  assert (Hall' : Forall (λ msg, dominant msg ∈ Models.EmotionType) (messages chat')).
  { rewrite Hmsgs. apply Forall_app. split; [done|]. by apply Forall_singleton. }
  apply map_Forall_insert_2; [|done]. split; [|done].
  destruct (update_timeline (emotionTimeline chat) pr).2.
  - destruct Hvote as [n Hvote]. apply vote_first_seen, majority_elem in Hvote.
    apply list_elem_of_fmap in Hvote as (msg & -> & Hin).
    rewrite Forall_forall in Hall'. by apply Hall'.
  - by rewrite Hvote.
Qed.

Lemma run_labelled s c :
  labelled c →
  map_Forall (λ _ chat, chat_labelled chat) (chats s) →
  map_Forall (λ _ chat, chat_labelled chat) (chats (run s c)).
Proof.
  intros Hc Hs.
  destruct c as [chat_id created_at user_id initial_message
                |timestamp chat_id who what pr dom ent conf
                |now chat_id new_title|chat_id user_id|now chat_id include_text];
    simpl in *.
  - apply map_Forall_insert_2; [|done]. split; [|constructor].
    cbn [meta dominant_emotion]. unfold Models.EmotionType. by_compute.
  - by apply add_message_labelled.
  - unfold update_chat_title. destruct (chats s !! chat_id) as [chat|] eqn:Hchat; [|done].
    simpl. apply map_Forall_insert_2; [|done]. apply (Hs chat_id chat Hchat).
  - unfold delete_chat. destruct (chats s !! chat_id) as [chat|] eqn:Hchat; [|done].
    destruct (bool_decide _); [done|].
    destruct (list_remove _ _); simpl; by apply map_Forall_delete.
  - unfold get_emotion_summary. destruct (chats s !! chat_id) as [chat|]; [|done].
    destruct (messages chat); [done|]. by destruct (argmax _).
Qed.

Lemma runs_labelled calls : ∀ s,
  Forall labelled calls →
  map_Forall (λ _ chat, chat_labelled chat) (chats s) →
  labels_valid (foldl run s calls).
Proof.
  induction calls as [|c calls IH]; intros s Hcalls Hs.
  - intros chat_id chat Hchat. by destruct (Hs chat_id chat Hchat).
  - apply Forall_cons in Hcalls as [Hc Hcalls]. simpl. apply IH; [done|].
    by apply run_labelled.
Qed.
End Labels.

Section PageClaims.
Import Py Storage Spec.
Context {U : Unicode} {I : IntBuiltin}.

(** X24: in a store reached from the empty one by calls that give each
    new chat a fresh identifier and each message a dominant label of
    [EmotionType], [get_user_chats] never raises, whatever the limit and the
    cursor. There is one listing of the chats of the user, each exactly
    once, with the data of its chat and the latest update first; every call
    returns the slice of it that starts at the index of the cursor, the
    length of the listing as total, and the cursor of the end index when
    that is before the end. *)
Theorem get_user_chats_page (calls : list call) user_id :
  admissible init calls → Forall labelled calls →
  let s := foldl run init calls in
  ∃ listing,
    chi_chatId <$> listing ≡ₚ default [] (user_chats s !! user_id)
    ∧ NoDup (chi_chatId <$> listing)
    ∧ latest_first listing
    ∧ Forall (λ item,
                ∃ chat, chats s !! chi_chatId item = Some chat
                  ∧ userId (meta chat) = user_id
                  ∧ chi_id item = chi_chatId item
                  ∧ chi_title item = title (meta chat)
                  ∧ chi_createdAt item = createdAt (meta chat)
                  ∧ chi_lastUpdatedAt item = lastUpdatedAt (meta chat)
                  ∧ chi_snippet item = snippet (meta chat)
                  ∧ chi_dominant_emotion item = dominant_emotion (meta chat)
                  ∧ chi_messageCount item = messageCount (meta chat))
             listing
    ∧ ∀ limit cursor,
        get_user_chats s user_id limit cursor
        = Some (slice listing (start_index cursor) (start_index cursor + limit),
                if (start_index cursor + limit <? Z.of_nat (length listing))%Z
                then Some (cursor_of (start_index cursor + limit)) else None,
                length listing).
Proof.
  intros Hadm Hlab s.
  assert (Hindex : index_consistent s) by (by apply runs_index; [|apply init_index]).
  assert (Hvalid : labels_valid s).
  { apply runs_labelled; [done|]. apply map_Forall_empty. }
  destruct (user_listing s user_id Hindex Hvalid) as (listing & Hperm & Hrest).
  exists listing. split; [done|]. split; [|done].
  rewrite Hperm. destruct Hindex as [_ Hi].
  destruct (user_chats s !! user_id) as [owned|] eqn:Howned; simpl.
  - by destruct (Hi user_id owned Howned).
  - constructor.
Qed.

(** X25: in such a store, with a limit of at least 1 and an [int] that
    reads back the integers that [str] prints, a client that starts without
    a cursor and follows the cursors it is given receives every chat of the
    user exactly once, the latest update first, in pages of at most [limit]
    entries, and the last page comes without a cursor. *)
Theorem pages_cover (calls : list call) user_id limit :
  admissible init calls → Forall labelled calls →
  (1 ≤ limit)%Z →
  (∀ n, (0 ≤ n)%Z → int (str_of_int n) = Some n) →
  let s := foldl run init calls in
  let received := pages (S (length (default [] (user_chats s !! user_id)))) s user_id
                        limit None in
  chi_chatId <$> concat received ≡ₚ default [] (user_chats s !! user_id)
  ∧ latest_first (concat received)
  ∧ Forall (λ page, (Z.of_nat (length page) ≤ limit)%Z) received.
Proof.
  intros Hadm Hlab Hlimit Hint s received. subst received.
  assert (Hindex : index_consistent s) by (by apply runs_index; [|apply init_index]).
  assert (Hvalid : labels_valid s).
  { apply runs_labelled; [done|]. apply map_Forall_empty. }
  destruct (user_listing s user_id Hindex Hvalid)
    as (listing & Hperm & Hsorted & _ & Hpage).
  assert (Hlen : length (default [] (user_chats s !! user_id)) = length listing).
  { by rewrite <- Hperm, length_fmap. }
  rewrite Hlen.
  destruct (pages_from s user_id limit listing Hlimit Hint Hpage (S (length listing))
              None) as [Hall Hpages].
  { done. }
  { simpl. lia. }
  rewrite Hall. simpl. by rewrite drop_0.
Qed.
End PageClaims.

Section PageWitnesses.
Import Py Storage Spec.

Lemma decimal_int_reads n : (0 ≤ n)%Z → @int decimal_int (str_of_int n) = Some n.
Proof.
  intros Hn. unfold str_of_int. simpl.
  rewrite DecimalString.NilZero.isi.
  - simpl. by rewrite DecimalZ.of_to.
  - destruct n as [|p|p]; [done| |done]. simpl. intros [= H].
    by apply DecimalPos.Unsigned.to_uint_nonnil in H.
  - destruct n as [|p|p]; [done|done|lia].
Qed.

Lemma history_owned :
  default [] (user_chats (foldl (@run ascii_unicode) init history_calls) !! "u1")
  = ["c1"; "c2"; "c3"].
Proof. by vm_compute. Qed.

Lemma get_user_chats_page_witness :
  admissible (U := ascii_unicode) init history_calls
  ∧ Forall labelled history_calls
  ∧ ∃ listing,
      length listing = 3%nat
      ∧ @get_user_chats decimal_int (foldl (@run ascii_unicode) init history_calls)
          "u1" 2 None
        = Some (slice listing 0 2, Some "cursor_2", 3%nat).
Proof.
  assert (H1 : admissible (U := ascii_unicode) init history_calls).
  { vm_compute. done. }
  assert (H2 : Forall labelled history_calls).
  { repeat constructor. }
  split; [exact H1|]. split; [exact H2|].
  destruct (@get_user_chats_page ascii_unicode decimal_int history_calls "u1" H1 H2)
    as (listing & Hperm & _ & _ & _ & Hpage).
  rewrite history_owned in Hperm.
  assert (Hlen : length listing = 3%nat).
  { by rewrite <- (length_fmap chi_chatId), Hperm. }
  exists listing. split; [exact Hlen|].
  rewrite (Hpage 2%Z None), Hlen. reflexivity.
Defined.

Lemma pages_cover_witness :
  admissible (U := ascii_unicode) init history_calls
  ∧ Forall labelled history_calls
  ∧ (1 ≤ 2)%Z
  ∧ chi_chatId
      <$> concat (@pages decimal_int 4 (foldl (@run ascii_unicode) init history_calls)
                    "u1" 2 None)
    ≡ₚ ["c1"; "c2"; "c3"].
Proof.
  assert (H1 : admissible (U := ascii_unicode) init history_calls).
  { vm_compute. done. }
  assert (H2 : Forall labelled history_calls).
  { repeat constructor. }
  split; [exact H1|]. split; [exact H2|]. split; [lia|].
  pose proof (@pages_cover ascii_unicode decimal_int history_calls "u1" 2 H1 H2
                ltac:(lia) decimal_int_reads) as T.
  cbv zeta in T. rewrite history_owned in T. exact (proj1 T).
Defined.
End PageWitnesses.
